(** * PairwiseMultCI: a multivariate conditional-independence test that
    aggregates univariate tests

    Shallow embedding of [tigramite/independence_tests/pairwise_CI.py].

    Conventions of the embedding.
    - A float is a rational [Q] (no NaN, no infinity, no rounding); numbers
      are compared with [==] where two computations may produce different
      fractions of the same value.
    - A two-dimensional numpy array is the list of its rows.  A matrix with
      no row carries no column count.
    - The univariate engine ([self.cond_ind_test]) is an external
      collaborator: its method [run_test_raw] is a field of the record
      [CondIndTest], a function of the engine's own significance tag and of
      the arguments of the call.
    - Invoking the engine is an effect: the monad [M] records every
      invocation, in order, next to the value or the exception.
    - Attributes of [self] that the code assigns are fields of the record
      [PairwiseMultCI]; an attribute that does not exist yet is [None]. *)

From Stdlib Require Import String.
From Stdlib Require Import List ZArith QArith Qabs Qminmax Qround Bool.
From Stdlib Require Import Arith Lia Sorted.
Import ListNotations.

Open Scope string_scope.
Open Scope list_scope.
Open Scope Q_scope.

(** ** Exceptions and results *)

Inductive exn : Type :=
| ValueError_fixed_thres_pre   (* lines 117-119 *)
| ValueError_reshape           (* ndarray.reshape: sizes do not match *)
| ValueError_hstack            (* np.hstack: operands of different rank *)
| ValueError_zero_size         (* np.max / np.min of an empty array *)
| TypeError_compare_None       (* float compared with None *)
| AttributeError (attr : string)
| EngineError (msg : string).  (* anything the engine raises *)

Inductive result (A : Type) : Type :=
| Ok (a : A)
| Raise (e : exn).
Arguments Ok {A} a.
Arguments Raise {A} e.

Definition matrix (A : Type) : Type := list (list A).

(** Arguments of one call of [run_test_raw(x, y, z, x_type, y_type, z_type,
    alpha_or_thres)]. *)
Record run_test_raw_args : Type := mk_args {
  arg_x : matrix Q;
  arg_y : matrix Q;
  arg_z : matrix Q;
  arg_x_type : option (matrix Z);
  arg_y_type : option (matrix Z);
  arg_z_type : option (matrix Z);
  arg_alpha_or_thres : option Q }.

(** ** The monad: a log of engine invocations and a result *)

Definition M (A : Type) : Type := (list run_test_raw_args * result A)%type.

Definition ret {A} (a : A) : M A := ([], Ok a).
Definition raise {A} (e : exn) : M A := ([], Raise e).
Definition lift {A} (r : result A) : M A := ([], r).

Definition bind {A B} (m : M A) (f : A -> M B) : M B :=
  match m with
  | (l, Ok a) => (l ++ fst (f a), snd (f a))
  | (l, Raise e) => (l, Raise e)
  end.

Notation "x <- c1 ;; c2" := (bind c1 (fun x => c2))
  (at level 61, c1 at next level, right associativity).
Notation "' pat <- c1 ;; c2" := (bind c1 (fun x => match x with pat => c2 end))
  (at level 61, pat pattern, c1 at next level, right associativity).

Definition invocations {A} (m : M A) : list run_test_raw_args := fst m.
Definition outcome {A} (m : M A) : result A := snd m.

(** [for a in l: acc = body(acc, a)], collecting one value per iteration. *)
Fixpoint for_acc {S A B} (body : S -> A -> M (S * B)) (s : S) (l : list A)
  : M (S * list B) :=
  match l with
  | [] => ret (s, [])
  | a :: l' =>
      ' (s1, b) <- body s a ;;
      ' (s2, bs) <- for_acc body s1 l' ;;
      ret (s2, b :: bs)
  end.

(** A loop without loop-carried variable. *)
Fixpoint for_each {A B} (body : A -> M B) (l : list A) : M (list B) :=
  match l with
  | [] => ret []
  | a :: l' =>
      b <- body a ;;
      bs <- for_each body l' ;;
      ret (b :: bs)
  end.

(** ** numpy operations used by the code *)

(** Normalisation of one bound of a slice over a sequence of length [n]. *)
Definition norm_index (n : nat) (i : Z) : nat :=
  if (i <? 0)%Z then Z.to_nat (Z.max 0 (i + Z.of_nat n))
  else Z.to_nat (Z.min i (Z.of_nat n)).

(** [l[lo:hi]] *)
Definition py_slice {A} (lo hi : Z) (l : list A) : list A :=
  let a := norm_index (length l) lo in
  let b := norm_index (length l) hi in
  firstn (b - a) (skipn a l).

(** [m[:, lo:hi]] *)
Definition slice_cols {A} (lo hi : Z) (m : matrix A) : matrix A :=
  map (py_slice lo hi) m.

(** [m[lo:hi, :]] *)
Definition slice_rows {A} (lo hi : Z) (m : matrix A) : matrix A :=
  py_slice lo hi m.

(** [m[idx]] for an index array [idx]; the indices of the code come from
    [np.where] over a vector as long as [m] has rows. *)
Definition take_rows {A} (m : matrix A) (idx : list nat) : matrix A :=
  map (fun i => nth i m []) idx.

(** [v[idx]] for a vector [v]. *)
Definition take (v : list nat) (idx : list nat) : list nat :=
  map (fun i => nth i v 0%nat) idx.

(** [m[:, idx]] *)
Definition take_cols (m : matrix Z) (idx : list nat) : matrix Z :=
  map (fun row => map (fun i => nth i row 0%Z) idx) m.

(** [m.T] for a matrix with [ncols] columns. *)
Definition transpose {A} (d : A) (ncols : nat) (m : matrix A) : matrix A :=
  map (fun c => map (fun row => nth c row d) m) (seq 0 ncols).

(** Rows of [c] consecutive elements of [flat]. *)
Definition chunks {A} (r c : nat) (flat : list A) : matrix A :=
  map (fun i => firstn c (skipn (i * c) flat)) (seq 0 r).

(** [a.reshape(r, c)] where [flat] is [a] in row-major order.  [r = -1] asks
    numpy to infer the row count. *)
Definition reshape {A} (r : Z) (c : nat) (flat : list A) : result (matrix A) :=
  if (0 <=? r)%Z then
    if (Z.to_nat r * c =? length flat)%nat then Ok (chunks (Z.to_nat r) c flat)
    else Raise ValueError_reshape
  else if (r =? -1)%Z then
    if (c =? 0)%nat then Raise ValueError_reshape
    else if (length flat mod c =? 0)%nat then Ok (chunks (length flat / c) c flat)
    else Raise ValueError_reshape
  else Raise ValueError_reshape.

(** [np.hstack((a, b))] for two matrices with the same number of rows. *)
Fixpoint hstack {A} (a b : matrix A) : matrix A :=
  match a, b with
  | ra :: a', rb :: b' => (ra ++ rb) :: hstack a' b'
  | _, _ => []
  end.

(** [np.where(v == k)[0]] for a vector. *)
Definition where_eq {A} (eqb : A -> A -> bool) (k : A) (v : list A) : list nat :=
  map fst (filter (fun p => eqb (snd p) k) (combine (seq 0 (length v)) v)).

(** [np.where(mask)] for a boolean matrix, as the list of index pairs in
    row-major order; [np.where] returns the two coordinate arrays. *)
Definition where_pairs (mask : matrix bool) : list (nat * nat) :=
  concat (map (fun jr =>
                 map (fun jc => (fst jr, fst jc))
                     (filter snd (combine (seq 0 (length (snd jr))) (snd jr))))
              (combine (seq 0 (length mask)) mask)).

Definition np_where (mask : matrix bool) : list nat * list nat :=
  (map fst (where_pairs mask), map snd (where_pairs mask)).

(** [k in v] *)
Definition py_in (k : nat) (v : list nat) : bool := existsb (Nat.eqb k) v.

(** [np.unique]: sorted, without repetition. *)
Fixpoint insert_unique (x : nat) (l : list nat) : list nat :=
  match l with
  | [] => [x]
  | y :: t =>
      if (x <? y)%nat then x :: l
      else if (x =? y)%nat then l
      else y :: insert_unique x t
  end.

Definition np_unique (l : list nat) : list nat := fold_right insert_unique [] l.

(** [np.setdiff1d(a, b)] *)
Definition setdiff1d (a b : list nat) : list nat :=
  filter (fun v => negb (py_in v (np_unique b))) (np_unique a).

(** [np.max], [np.min] *)
Definition np_max (l : list Q) : result Q :=
  match l with
  | [] => Raise ValueError_zero_size
  | a :: l' => Ok (fold_left Qmax l' a)
  end.

Definition np_min (l : list Q) : result Q :=
  match l with
  | [] => Raise ValueError_zero_size
  | a :: l' => Ok (fold_left Qmin l' a)
  end.

(** [p > alpha] and [abs(v) >= thres] on one cell; the bound may be [None]. *)
Definition gt_bound (p : Q) (bound : option Q) : result bool :=
  match bound with
  | Some a => Ok (negb (Qle_bool p a))
  | None => Raise TypeError_compare_None
  end.

Definition abs_ge_bound (v : Q) (bound : option Q) : result bool :=
  match bound with
  | Some t => Ok (Qle_bool t (Qabs v))
  | None => Raise TypeError_compare_None
  end.

Fixpoint map_result {A B} (f : A -> result B) (l : list A) : result (list B) :=
  match l with
  | [] => Ok []
  | a :: l' =>
      match f a with
      | Raise e => Raise e
      | Ok b => match map_result f l' with
                | Raise e => Raise e
                | Ok bs => Ok (b :: bs)
                end
      end
  end.

(** ** The objects *)

(** The inner engine: its significance tag and its [run_test_raw]. *)
Record CondIndTest : Type := mk_engine {
  ci_significance : string;
  run_test_raw : string -> run_test_raw_args -> result (Q * Q) }.

Record PairwiseMultCI : Type := mk_self {
  measure_attr : string;
  cond_ind_test : CondIndTest;
  alpha_pre : option Q;
  pre_step_sample_fraction : Q;
  fixed_thres_pre : option Q;
  two_sided : bool;
  significance : string;
  dep_measure : option Q;
  signif : option (option Q) }.

Definition set_significance (s : string) (self : PairwiseMultCI) : PairwiseMultCI :=
  mk_self (measure_attr self) (cond_ind_test self) (alpha_pre self)
          (pre_step_sample_fraction self) (fixed_thres_pre self) (two_sided self)
          s (dep_measure self) (signif self).

Definition set_ci_significance (s : string) (self : PairwiseMultCI) : PairwiseMultCI :=
  mk_self (measure_attr self)
          (mk_engine s (run_test_raw (cond_ind_test self)))
          (alpha_pre self)
          (pre_step_sample_fraction self) (fixed_thres_pre self) (two_sided self)
          (significance self) (dep_measure self) (signif self).

Definition set_last (d : Q) (s : option Q) (self : PairwiseMultCI) : PairwiseMultCI :=
  mk_self (measure_attr self) (cond_ind_test self) (alpha_pre self)
          (pre_step_sample_fraction self) (fixed_thres_pre self) (two_sided self)
          (significance self) (Some d) (Some s).

(** Modelled from the spec: [CondIndTest.__init__] of the base class is not
    among the sources; of the configuration passed on with [**kwargs] it
    stores the significance regime tag. *)
Definition CondIndTest_init (significance_kw : string) (self : PairwiseMultCI)
  : PairwiseMultCI := set_significance significance_kw self.

(** [PairwiseMultCI.__init__] (lines 73-80). *)
Definition init (cond_ind_test : CondIndTest) (alpha_pre : option Q)
  (pre_step_sample_fraction : Q) (fixed_thres_pre : option Q)
  (significance_kw : string) : PairwiseMultCI :=
  CondIndTest_init significance_kw
    (mk_self "pairwise_CI" cond_ind_test alpha_pre pre_step_sample_fraction
             fixed_thres_pre false "" None None).

(** ** calculate_dep_measure_and_significance *)

(** Lines 109-115: the regime flag and the two tags after resolution. *)
Definition resolve_regime (self : PairwiseMultCI) : PairwiseMultCI * bool :=
  let fixed_thres_bool := false in
  let '(self, fixed_thres_bool) :=
    if String.eqb (significance self) "fixed_thres"
    then (set_ci_significance "fixed_thres" self, true)
    else (self, fixed_thres_bool) in
  let '(self, fixed_thres_bool) :=
    if String.eqb (ci_significance (cond_ind_test self)) "fixed_thres"
    then (set_significance "fixed_thres" self, true)
    else (self, fixed_thres_bool) in
  (self, fixed_thres_bool).

(** [array.shape[1]]; 0 for an array without rows, on which no pair is
    evaluated. *)
Definition shape1 {A} (array : matrix A) : nat :=
  match array with
  | [] => 0%nat
  | row :: _ => length row
  end.

(** Line 130-131: [np.floor(fraction * T).astype(int)] *)
Definition size_first_block_of (fraction : Q) (T : nat) : Z :=
  Qfloor (fraction * inject_Z (Z.of_nat T)).

(** The dummy threshold [999.] of the fixed-threshold calls. *)
Definition dummy_thres (fixed_thres_bool : bool) : option Q :=
  if fixed_thres_bool then Some (999 # 1) else None.

Section Evaluation.

(** [self] after regime resolution, the flag, and the arguments. *)
Variable self : PairwiseMultCI.
Variable fixed_thres_bool : bool.
Variable array : matrix Q.
Variable xyz : list Z.
Variable data_type : option (matrix Z).

Definition engine (a : run_test_raw_args) : M (Q * Q) :=
  ([a], run_test_raw (cond_ind_test self) (ci_significance (cond_ind_test self)) a).

(* lines 121-131 *)
Definition x_indices : list nat := where_eq Z.eqb 0%Z xyz.
Definition y_indices : list nat := where_eq Z.eqb 1%Z xyz.
Definition z_indices : list nat := where_eq Z.eqb 2%Z xyz.
Definition dim_x : nat := length x_indices.
Definition dim_y : nat := length y_indices.
Definition dim_z : nat := length z_indices.
Definition T : nat := shape1 array.
Definition size_first_block : Z :=
  size_first_block_of (pre_step_sample_fraction self) T.

(* lines 134-142 *)
Definition array_s1 : matrix Q := slice_cols 0 size_first_block array.
Definition x_s1 : matrix Q := take_rows array_s1 x_indices.
Definition y_s1 : matrix Q := take_rows array_s1 y_indices.
Definition z_s1 : matrix Q := take_rows array_s1 z_indices.
Definition array_s2 : matrix Q := slice_cols size_first_block (Z.of_nat T) array.
Definition x_s2 : matrix Q := take_rows array_s2 x_indices.
Definition y_s2 : matrix Q := take_rows array_s2 y_indices.
Definition z_s2 : matrix Q := take_rows array_s2 z_indices.

(* lines 144-169 *)
Definition type_block (idx : list nat) : option (matrix Z) :=
  match data_type with
  | Some dt => Some (transpose 0%Z (shape1 dt) (take_rows dt idx))
  | None => None
  end.
Definition x_type : option (matrix Z) := type_block x_indices.
Definition y_type : option (matrix Z) := type_block y_indices.
Definition z_type : option (matrix Z) := type_block z_indices.
Definition x_type_s1 := option_map (slice_rows 0 size_first_block) x_type.
Definition x_type_s2 := option_map (slice_rows size_first_block (Z.of_nat T)) x_type.
Definition y_type_s1 := option_map (slice_rows 0 size_first_block) y_type.
Definition y_type_s2 := option_map (slice_rows size_first_block (Z.of_nat T)) y_type.
Definition z_type_s1 := option_map (slice_rows 0 size_first_block) z_type.
Definition z_type_s2 := option_map (slice_rows size_first_block (Z.of_nat T)) z_type.

(** Lines 179-192: the arguments of the pre-step call for the pair. *)
Definition pre_args (j jj : nat) : result run_test_raw_args :=
  match reshape size_first_block 1 (nth j x_s1 []) with
  | Raise e => Raise e
  | Ok x =>
  match reshape size_first_block 1 (nth jj y_s1 []) with
  | Raise e => Raise e
  | Ok y =>
  match reshape size_first_block dim_z (concat z_s1) with
  | Raise e => Raise e
  | Ok z =>
      Ok (mk_args x y z x_type_s1 y_type_s1 z_type_s1 (dummy_thres fixed_thres_bool))
  end end end.

(** Lines 178-192: one cell of [p_vals_pre] or of [vals_pre]. *)
Definition pre_cell (j jj : nat) : M Q :=
  a <- lift (pre_args j jj) ;;
  test_result <- engine a ;;
  ret (if fixed_thres_bool then fst test_result else snd test_result).

(** Lines 176-192. *)
Definition pre_step : M (matrix Q) :=
  for_each (fun j => for_each (fun jj => pre_cell j jj) (seq 0 dim_y)) (seq 0 dim_x).

(** Lines 193-196. *)
Definition indep_mask (pre : matrix Q) : result (matrix bool) :=
  if negb fixed_thres_bool
  then map_result (map_result (fun p => gt_bound p (alpha_pre self))) pre
  else map_result (map_result (fun v => abs_ge_bound v (fixed_thres_pre self))) pre.

Definition indep_set_of (pre : matrix Q) : result (list nat * list nat) :=
  match indep_mask pre with
  | Raise e => Raise e
  | Ok mask => Ok (np_where mask)
  end.

Section MainStep.

Variable indep_set : list nat * list nat.

(** Lines 207-215. *)
Definition indicesY_of (j jj : nat) : list nat :=
  if py_in j (fst indep_set)
  then setdiff1d (take (snd indep_set) (where_eq Nat.eqb j (fst indep_set))) [jj]
  else [].

Definition indicesX_of (j jj : nat) : list nat :=
  if py_in jj (snd indep_set)
  then setdiff1d (take (fst indep_set) (where_eq Nat.eqb jj (snd indep_set))) [j]
  else [].

Definition n_main : Z := Z.of_nat T - size_first_block.

(** The block [hstack((z_s2.reshape(n, dim_z), side[indices].reshape(n, l)))]. *)
Definition augmented_z (side : matrix Q) (indices : list nat) : result (matrix Q) :=
  match reshape n_main dim_z (concat z_s2) with
  | Raise e => Raise e
  | Ok z =>
      match reshape n_main (length indices) (concat (take_rows side indices)) with
      | Raise e => Raise e
      | Ok aux => Ok (hstack z aux)
      end
  end.

Definition main_args (z : result (matrix Q)) (zt : option (matrix Z))
  (j jj : nat) : result run_test_raw_args :=
  match reshape n_main 1 (nth j x_s2 []) with
  | Raise e => Raise e
  | Ok x =>
  match reshape n_main 1 (nth jj y_s2 []) with
  | Raise e => Raise e
  | Ok y =>
  match z with
  | Raise e => Raise e
  | Ok z =>
      Ok (mk_args x y z x_type_s2 y_type_s2 zt (dummy_thres fixed_thres_bool))
  end end end.

(** Line 241: [z_type_s2 = np.hstack((z_type_s2, y_type_s2[:, indicesY]))],
    executed when [y_type_s2 is not None]. *)
Definition extend_z_type (zt : option (matrix Z)) (indicesY : list nat)
  : result (option (matrix Z)) :=
  match y_type_s2 with
  | None => Ok zt
  | Some yt =>
      match zt with
      | Some z => Ok (Some (hstack z (take_cols yt indicesY)))
      | None => Raise ValueError_hstack
      end
  end.

(** Line 221: [z_type = np.hstack((z_type_s2, x_type_s2[:, indicesX]))],
    executed when [x_type_s2 is not None]; the variable [z_type] is not
    read afterwards. *)
Definition assign_z_type (zt : option (matrix Z)) (indicesX : list nat)
  : result (option (matrix Z)) :=
  match x_type_s2 with
  | None => Ok z_type
  | Some xt =>
      match zt with
      | Some z => Ok (Some (hstack z (take_cols xt indicesX)))
      | None => Raise ValueError_hstack
      end
  end.

(** Lines 207-275: the body of the inner loop of the main step.  The
    loop-carried variable is the local [z_type_s2]. *)
Definition main_pair (z_type_s2 : option (matrix Z)) (j jj : nat)
  : M (option (matrix Z) * (Q * Q)) :=
  let indicesY := indicesY_of j jj in
  let indicesX := indicesX_of j jj in
  let lix := length indicesX in
  let liy := length indicesY in
  if (0 <? lix + liy)%nat then
    if (liy <? lix)%nat then
      _z_type <- lift (assign_z_type z_type_s2 indicesX) ;;
      a <- lift (main_args (augmented_z x_s2 indicesX) z_type_s2 j jj) ;;
      test_result <- engine a ;;
      ret (z_type_s2, test_result)
    else
      z_type_s2 <- lift (extend_z_type z_type_s2 indicesY) ;;
      a <- lift (main_args (augmented_z y_s2 indicesY) z_type_s2 j jj) ;;
      test_result <- engine a ;;
      ret (z_type_s2, test_result)
  else
    a <- lift (main_args (reshape n_main dim_z (concat z_s2)) z_type_s2 j jj) ;;
    test_result <- engine a ;;
    ret (z_type_s2, test_result).

(** Lines 205-279. *)
Definition main_step : M (option (matrix Z) * matrix (Q * Q)) :=
  for_acc (fun zt j => for_acc (fun zt jj => main_pair zt j jj) zt (seq 0 dim_y))
          z_type_s2 (seq 0 dim_x).

End MainStep.

(** Lines 199-203 and 277-279: [test_stats_main] receives [test_result[0]]
    of every pair; [p_vals_main] receives [test_result[1]] when
    [fixed_thres_bool] is false and otherwise keeps the zeros of its
    allocation. *)
Definition test_stats_main (results : matrix (Q * Q)) : matrix Q :=
  map (map fst) results.
Definition p_vals_main (results : matrix (Q * Q)) : matrix Q :=
  if fixed_thres_bool
  then map (map (fun _ => 0)) results
  else map (map snd) results.

(** Lines 283-289.  After regime resolution the engine's tag is
    ["fixed_thres"] exactly when [fixed_thres_bool] holds, so that
    [p_vals_main] exists (line 200) exactly when line 279 writes it. *)
Definition aggregate (results : matrix (Q * Q)) : result (Q * option Q) :=
  match np_max (map Qabs (concat (test_stats_main results))) with
  | Raise e => Raise e
  | Ok test_stats_aggregated =>
      if negb (String.eqb (ci_significance (cond_ind_test self)) "fixed_thres")
      then
        match np_min (concat (p_vals_main results)) with
        | Raise e => Raise e
        | Ok m =>
            match np_min [m * inject_Z (Z.of_nat dim_x) * inject_Z (Z.of_nat dim_y); 1] with
            | Raise e => Raise e
            | Ok p_aggregated => Ok (test_stats_aggregated, Some p_aggregated)
            end
        end
      else Ok (test_stats_aggregated, None)
  end.

(** Lines 121-279: both passes; the value is the matrix of the
    [test_result] pairs of the main step. *)
Definition main_results : M (matrix (Q * Q)) :=
  pre <- pre_step ;;
  indep_set <- lift (indep_set_of pre) ;;
  ' (_, results) <- main_step indep_set ;;
  ret results.

(** Lines 121-289. *)
Definition evaluate : M (Q * option Q) :=
  results <- main_results ;;
  lift (aggregate results).

End Evaluation.

(** Lines 109-289: the object after the call, the engine invocations and the
    returned pair or the exception. *)
Definition calculate_dep_measure_and_significance (self : PairwiseMultCI)
  (array : matrix Q) (xyz : list Z) (data_type : option (matrix Z))
  : PairwiseMultCI * M (Q * option Q) :=
  let '(self, fixed_thres_bool) := resolve_regime self in
  if fixed_thres_bool && match fixed_thres_pre self with None => true | Some _ => false end
  then (self, raise ValueError_fixed_thres_pre)
  else (self, evaluate self fixed_thres_bool array xyz data_type).

(** Lines 292-296. *)
Definition get_dependence_measure (self : PairwiseMultCI)
  (array : matrix Q) (xyz : list Z) (data_type : option (matrix Z))
  : PairwiseMultCI * M Q :=
  let '(self, (calls, r)) := calculate_dep_measure_and_significance self array xyz data_type in
  match r with
  | Ok (d, s) => (set_last d s self, (calls, Ok d))
  | Raise e => (self, (calls, Raise e))
  end.

(** Lines 298-300. *)
Definition get_analytic_significance (self : PairwiseMultCI)
  (value : option Q) (T : option nat) (dim : option nat)
  (xyz : option (list Z)) (data_type : option (matrix Z)) : result (option Q) :=
  match signif self with
  | Some s => Ok s
  | None => Raise (AttributeError "signif")
  end.

(** ** Words of the specification *)

(** The fixed-threshold regime is active when the outer tag or the engine's
    tag is ["fixed_thres"]. *)
Definition fixed_thres_active (self : PairwiseMultCI) : Prop :=
  significance self = "fixed_thres" \/
  ci_significance (cond_ind_test self) = "fixed_thres".

Definition fixed_thres_active_b (self : PairwiseMultCI) : bool :=
  String.eqb (significance self) "fixed_thres" ||
  String.eqb (ci_significance (cond_ind_test self)) "fixed_thres".

(** Every attribute but the stored statistic and significance is the same in
    [self'] as in [self]. *)
Definition only_last_values_changed (self self' : PairwiseMultCI) : Prop :=
  measure_attr self' = measure_attr self /\
  cond_ind_test self' = cond_ind_test self /\
  alpha_pre self' = alpha_pre self /\
  pre_step_sample_fraction self' = pre_step_sample_fraction self /\
  fixed_thres_pre self' = fixed_thres_pre self /\
  two_sided self' = two_sided self /\
  significance self' = significance self.

(** The cell [(j, jj)] of a matrix, when it exists. *)
Definition cell {A} (m : matrix A) (j jj : nat) : option A :=
  match nth_error m j with
  | Some row => nth_error row jj
  | None => None
  end.

(** Membership of a pair in the independence set returned by [np.where]. *)
Definition in_indep_set (indep_set : list nat * list nat) (j jj : nat) : Prop :=
  In (j, jj) (combine (fst indep_set) (snd indep_set)).


(** The type tags the engine should receive for a pair with a non-empty
    auxiliary set: the Z block of the main step followed column-wise by the
    columns [indices] of the type block of the chosen side. *)
Definition expected_z_type (z_block side_block : option (matrix Z)) (indices : list nat)
  : option (matrix Z) :=
  match z_block, side_block with
  | Some zt, Some st => Some (hstack zt (take_cols st indices))
  | _, _ => None
  end.

(** Inputs as numpy and the caller build them: one role tag for each row
    of the array, all rows of the array (and of the type-tag matrix, which
    has the shape of the array) of the same length. *)
Definition well_formed (array : matrix Q) (xyz : list Z) (data_type : option (matrix Z))
  : Prop :=
  length xyz = length array /\
  Forall (fun row => length row = shape1 array) array /\
  match data_type with
  | Some dt => length dt = length array /\
               Forall (fun row => length row = shape1 array) dt
  | None => True
  end.

(** The engine returns a pair on every call. *)
Definition engine_returns (e : CondIndTest) : Prop :=
  forall tag a, exists r, run_test_raw e tag a = Ok r.

(** The bound the active regime compares with is supplied. *)
Definition threshold_supplied (self : PairwiseMultCI) : Prop :=
  if fixed_thres_active_b self
  then fixed_thres_pre self <> None
  else alpha_pre self <> None.

(** The loop-carried [z_type_s2] is an array whenever type tags were
    supplied. *)
Definition tags_present (data_type zt : option (matrix Z)) : Prop :=
  match data_type with
  | Some _ => zt <> None
  | None => True
  end.

(** Exchanging the roles of X and Y in the role index. *)
Definition swap_role (r : Z) : Z :=
  if (r =? 0)%Z then 1%Z else if (r =? 1)%Z then 0%Z else r.

Definition swap_roles (xyz : list Z) : list Z := map swap_role xyz.

(** The call with [x] and [y], and their type tags, exchanged. *)
Definition swap_xy (a : run_test_raw_args) : run_test_raw_args :=
  mk_args (arg_y a) (arg_x a) (arg_z a)
          (arg_y_type a) (arg_x_type a) (arg_z_type a) (arg_alpha_or_thres a).

(** An engine that is symmetric in its first two arguments. *)
Definition symmetric_engine (e : CondIndTest) : Prop :=
  forall tag a, run_test_raw e tag (swap_xy a) = run_test_raw e tag a.

(** Exchanging the roles of X and Y leaves the aggregated statistic
    unchanged. *)
Definition role_swap_invariant (self : PairwiseMultCI) (array : matrix Q)
  (xyz : list Z) (data_type : option (matrix Z)) : Prop :=
  symmetric_engine (cond_ind_test self) ->
  forall stat sig,
    outcome (snd (calculate_dep_measure_and_significance self array xyz data_type))
    = Ok (stat, sig) ->
    exists stat' sig',
      outcome (snd (calculate_dep_measure_and_significance
                      self array (swap_roles xyz) data_type)) = Ok (stat', sig') /\
      stat' == stat.

(** No pair of the main step has two non-empty index sets of the same
    size. *)
Definition tie_free_b (self : PairwiseMultCI) (fixed_thres_bool : bool)
  (array : matrix Q) (xyz : list Z) (data_type : option (matrix Z)) : bool :=
  match outcome (pre_step self fixed_thres_bool array xyz data_type) with
  | Ok pre =>
      match indep_set_of self fixed_thres_bool pre with
      | Ok indep_set =>
          forallb (fun j =>
            forallb (fun jj =>
              let lix := length (indicesX_of indep_set j jj) in
              let liy := length (indicesY_of indep_set j jj) in
              negb (lix =? liy)%nat || (lix =? 0)%nat)
              (seq 0 (dim_y xyz)))
            (seq 0 (dim_x xyz))
      | Raise _ => true
      end
  | Raise _ => true
  end.

(** The conditioning block that the body of the main-step loop builds for
    the pair [(j, jj)] (lines 218-275). *)
Definition chosen_z (self : PairwiseMultCI) (array : matrix Q) (xyz : list Z)
  (indep_set : list nat * list nat) (j jj : nat) : result (matrix Q) :=
  let indicesX := indicesX_of indep_set j jj in
  let indicesY := indicesY_of indep_set j jj in
  if (0 <? length indicesX + length indicesY)%nat
  then if (length indicesY <? length indicesX)%nat
       then augmented_z self array xyz (x_s2 self array xyz) indicesX
       else augmented_z self array xyz (y_s2 self array xyz) indicesY
  else reshape (n_main self array) (dim_z xyz) (concat (z_s2 self array xyz)).

(** Numbers of samples of the pre-step and of the main-step block. *)
Definition pre_rows (self : PairwiseMultCI) (array : matrix Q) : nat :=
  Z.to_nat (size_first_block self array).
Definition main_rows (self : PairwiseMultCI) (array : matrix Q) : nat :=
  Z.to_nat (n_main self array).

(** ** Words on whole evaluations *)

(** What the engine of [self] answers to the call [a]. *)
Definition engine_result (self : PairwiseMultCI) (a : run_test_raw_args)
  : result (Q * Q) :=
  run_test_raw (cond_ind_test self) (ci_significance (cond_ind_test self)) a.

(** A failed engine call is the last call of the computation, and its
    exception is the exception of the computation. *)
Definition stops_at_first_failure (self : PairwiseMultCI) {A} (m : M A) : Prop :=
  forall k a e,
    nth_error (invocations m) k = Some a ->
    engine_result self a = Raise e ->
    S k = length (invocations m) /\ outcome m = Raise e.

(** The arguments of the body of the main-step loop other than [z]. *)
Definition main_call_of (self : PairwiseMultCI) (fixed_thres_bool : bool)
  (array : matrix Q) (xyz : list Z) (data_type : option (matrix Z))
  (indep_set : list nat * list nat) (zt : option (matrix Z)) (j jj : nat)
  : result run_test_raw_args :=
  main_args self fixed_thres_bool array xyz data_type
            (chosen_z self array xyz indep_set j jj) zt j jj.

(** The pre-step value [p] of a pair classifies the pair as independent
    (lines 193-196). *)
Definition classified_independent (self : PairwiseMultCI) (fixed_thres_bool : bool)
  (p : Q) : Prop :=
  if fixed_thres_bool
  then exists thres, fixed_thres_pre self = Some thres /\ thres <= Qabs p
  else exists alpha, alpha_pre self = Some alpha /\ alpha < p.

(** ** Engines and inputs on which the statements are exercised *)

(** An engine that returns the same pair on every call. *)
Definition const_engine (tag : string) (s p : Q) : CondIndTest :=
  mk_engine tag (fun _ _ => Ok (s, p)).

(** An engine that ignores [x] and [y]: its statistic is the first entry of
    the conditioning block (0 for an empty block), its p-value is 1. *)
Definition first_z_engine (tag : string) : CondIndTest :=
  mk_engine tag
    (fun _ a => Ok (match arg_z a with (v :: _) :: _ => v | _ => 0 end, 1)).

Definition sample_array : matrix Q := [[1; 1]; [2; 2]; [5; 5]; [7; 7]].
(** Type tags of the shape of [sample_array]: the second variable is
    discrete, the others are continuous. *)
Definition sample_types : matrix Z := [[0; 0]; [1; 1]; [0; 0]; [0; 0]]%Z.

Definition analytic_test : PairwiseMultCI :=
  init (const_engine "analytic" (-3 # 4) (1 # 8)) (Some (1 # 2)) (1 # 2) None "analytic".

Definition mixed_tags_test : PairwiseMultCI :=
  init (const_engine "fixed_thres" (3 # 4) 0) None (1 # 2) (Some (1 # 2)) "analytic".

Definition unconfigured_test : PairwiseMultCI :=
  init (const_engine "analytic" (3 # 4) 0) (Some (1 # 2)) (1 # 2) None "fixed_thres".

Definition p_value_test : PairwiseMultCI :=
  init (first_z_engine "analytic") (Some (1 # 2)) (1 # 2) None "analytic".

(** Two X components, one Y component, one Z component. *)
Definition xyz_two_x : list Z := [0; 0; 1; 2]%Z.
(** One X component, two Y components, one Z component. *)
Definition xyz_two_y : list Z := [0; 1; 1; 2]%Z.

Definition quarter_fraction_test : PairwiseMultCI :=
  init (first_z_engine "analytic") (Some (1 # 2)) (1 # 4) None "analytic".

Definition full_fraction_test : PairwiseMultCI :=
  init (first_z_engine "analytic") (Some (1 # 2)) 1 None "analytic".

(** Two X components and two Y components, no Z component. *)
Definition xyz_two_two : list Z := [0; 0; 1; 1]%Z.

Definition fixed_thres_test : PairwiseMultCI :=
  init (first_z_engine "fixed_thres") None (1 # 2) (Some 6) "analytic".

(** An engine that raises when [y] is the single sample 5. *)
Definition picky_engine (tag : string) : CondIndTest :=
  mk_engine tag
    (fun _ a =>
       match arg_y a with
       | [[v]] => if Qeq_bool v 5 then Raise (EngineError "singular") else Ok (0, 1)
       | _ => Ok (0, 1)
       end).

Definition picky_test : PairwiseMultCI :=
  init (picky_engine "analytic") (Some (1 # 2)) (1 # 2) None "analytic".

(** Two Z components: an X row, a Y row and two Z rows of four samples. *)
Definition two_z_array : matrix Q :=
  [[1; 2; 3; 4]; [5; 6; 7; 8]; [10; 20; 30; 40]; [50; 60; 70; 80]].
Definition xyz_two_z : list Z := [0; 1; 2; 2]%Z.

(** [fixed_thres_test] built with another [alpha_pre]. *)
Definition fixed_thres_other_alpha : PairwiseMultCI :=
  init (first_z_engine "fixed_thres") (Some (1 # 3)) (1 # 2) (Some 6) "analytic".

(** * Properties *)

(** ** The monad *)

Lemma outcome_bind {A B} (m : M A) (f : A -> M B) :
  outcome (bind m f) =
  match outcome m with
  | Ok a => outcome (f a)
  | Raise e => Raise e
  end.
Proof. destruct m as [l [a | e]]; reflexivity. Qed.

Lemma invocations_bind {A B} (m : M A) (f : A -> M B) :
  invocations (bind m f) =
  match outcome m with
  | Ok a => invocations m ++ invocations (f a)
  | Raise e => invocations m
  end.
Proof. destruct m as [l [a | e]]; reflexivity. Qed.

Lemma outcome_lift {A} (r : result A) : outcome (lift r) = r.
Proof. reflexivity. Qed.

Lemma string_eqb_true (a b : string) : String.eqb a b = true <-> a = b.
Proof. apply String.eqb_eq. Qed.

(** ** Regime resolution *)

Lemma resolve_regime_flag (self : PairwiseMultCI) :
  snd (resolve_regime self) = fixed_thres_active_b self.
Proof.
  unfold resolve_regime, fixed_thres_active_b.
  destruct (String.eqb (significance self) "fixed_thres") eqn:E1; simpl.
  - reflexivity.
  - destruct (String.eqb (ci_significance (cond_ind_test self)) "fixed_thres"); reflexivity.
Qed.

Lemma fixed_thres_active_reflect (self : PairwiseMultCI) :
  fixed_thres_active_b self = true <-> fixed_thres_active self.
Proof.
  unfold fixed_thres_active_b, fixed_thres_active.
  rewrite orb_true_iff, !string_eqb_true. tauto.
Qed.

Lemma resolve_regime_tags (self : PairwiseMultCI) :
  let self' := fst (resolve_regime self) in
  if fixed_thres_active_b self
  then significance self' = "fixed_thres" /\
       ci_significance (cond_ind_test self') = "fixed_thres"
  else significance self' = significance self /\
       ci_significance (cond_ind_test self') = ci_significance (cond_ind_test self).
Proof.
  unfold resolve_regime, fixed_thres_active_b.
  destruct (String.eqb (significance self) "fixed_thres") eqn:E1; simpl.
  - apply string_eqb_true in E1. split; reflexivity.
  - destruct (String.eqb (ci_significance (cond_ind_test self)) "fixed_thres") eqn:E2; simpl.
    + apply string_eqb_true in E2. split; [reflexivity | exact E2].
    + split; reflexivity.
Qed.

(** After resolution the engine's tag says which regime is active: the test
    of line 284 agrees with [fixed_thres_bool]. *)
Lemma resolve_regime_engine_tag (self : PairwiseMultCI) :
  String.eqb (ci_significance (cond_ind_test (fst (resolve_regime self)))) "fixed_thres"
  = snd (resolve_regime self).
Proof.
  rewrite resolve_regime_flag.
  pose proof (resolve_regime_tags self) as H. cbv zeta in H.
  unfold fixed_thres_active_b in *.
  destruct (String.eqb (significance self) "fixed_thres") eqn:E1; simpl in *.
  - destruct H as [_ H]. rewrite H. reflexivity.
  - destruct (String.eqb (ci_significance (cond_ind_test self)) "fixed_thres") eqn:E2.
    + destruct H as [_ H]. rewrite H. reflexivity.
    + destruct H as [_ H]. rewrite H. exact E2.
Qed.

Lemma resolve_regime_frame (self : PairwiseMultCI) :
  let self' := fst (resolve_regime self) in
  measure_attr self' = measure_attr self /\
  run_test_raw (cond_ind_test self') = run_test_raw (cond_ind_test self) /\
  alpha_pre self' = alpha_pre self /\
  pre_step_sample_fraction self' = pre_step_sample_fraction self /\
  fixed_thres_pre self' = fixed_thres_pre self /\
  two_sided self' = two_sided self /\
  dep_measure self' = dep_measure self /\
  signif self' = signif self.
Proof.
  unfold resolve_regime.
  destruct (String.eqb (significance self) "fixed_thres"); simpl;
    repeat split;
    destruct (String.eqb (ci_significance (cond_ind_test self)) "fixed_thres");
    reflexivity.
Qed.

Lemma calculate_self (self : PairwiseMultCI) array xyz data_type :
  fst (calculate_dep_measure_and_significance self array xyz data_type)
  = fst (resolve_regime self).
Proof.
  unfold calculate_dep_measure_and_significance.
  destruct (resolve_regime self) as [s b]; simpl.
  destruct (b && _); reflexivity.
Qed.

Lemma calculate_result (self : PairwiseMultCI) array xyz data_type :
  snd (calculate_dep_measure_and_significance self array xyz data_type)
  = if snd (resolve_regime self) &&
       match fixed_thres_pre self with None => true | Some _ => false end
    then raise ValueError_fixed_thres_pre
    else evaluate (fst (resolve_regime self)) (snd (resolve_regime self))
                  array xyz data_type.
Proof.
  unfold calculate_dep_measure_and_significance.
  pose proof (resolve_regime_frame self) as F. cbv zeta in F.
  destruct (resolve_regime self) as [s b]; simpl in *.
  destruct F as (_ & _ & _ & _ & F & _). rewrite F.
  destruct (b && _); reflexivity.
Qed.

(** C2.  At the start of an evaluation the fixed-threshold regime is active
    exactly when the outer tag or the engine's tag is ["fixed_thres"]; when
    it is active both tags are ["fixed_thres"] afterwards, and without
    [fixed_thres_pre] the evaluation raises the configuration [ValueError]
    with no engine invocation before it.  Construction with the same
    configuration raises nothing: [init] yields the object, and the error
    appears when that object is evaluated. *)
Theorem regime_resolution_and_configuration_error :
  forall self array xyz data_type,
    let after := calculate_dep_measure_and_significance self array xyz data_type in
    (snd (resolve_regime self) = true <-> fixed_thres_active self) /\
    (fixed_thres_active self ->
       significance (fst after) = "fixed_thres" /\
       ci_significance (cond_ind_test (fst after)) = "fixed_thres") /\
    (fixed_thres_active self -> fixed_thres_pre self = None ->
       invocations (snd after) = [] /\
       outcome (snd after) = Raise ValueError_fixed_thres_pre) /\
    (forall engine alpha fraction,
       let built := init engine alpha fraction None "fixed_thres" in
       fixed_thres_pre built = None /\
       significance built = "fixed_thres" /\
       outcome (snd (calculate_dep_measure_and_significance built array xyz data_type))
       = Raise ValueError_fixed_thres_pre).
Proof.
  intros self array xyz data_type after.
  assert (R : snd (resolve_regime self) = true <-> fixed_thres_active self).
  { rewrite resolve_regime_flag. apply fixed_thres_active_reflect. }
  split; [exact R |]. split; [| split].
  - intros Hact. subst after. rewrite calculate_self.
    pose proof (resolve_regime_tags self) as H. cbv zeta in H.
    apply fixed_thres_active_reflect in Hact. rewrite Hact in H. exact H.
  - intros Hact Hnone. subst after. rewrite calculate_result.
    apply R in Hact. rewrite Hact, Hnone. simpl. split; reflexivity.
  - intros engine alpha fraction built.
    split; [reflexivity |]. split; [reflexivity |].
    rewrite calculate_result. reflexivity.
Qed.

(** [regime_resolution_and_configuration_error] applied to a concrete evaluation. *)
Lemma regime_resolution_and_configuration_error_witness :
  fixed_thres_active unconfigured_test /\
  fixed_thres_pre unconfigured_test = None /\
  invocations (snd (calculate_dep_measure_and_significance
                      unconfigured_test sample_array [0; 1; 1; 2]%Z None)) = [] /\
  outcome (snd (calculate_dep_measure_and_significance
                  unconfigured_test sample_array [0; 1; 1; 2]%Z None))
  = Raise ValueError_fixed_thres_pre.
Proof.
  assert (A : fixed_thres_active unconfigured_test) by (left; reflexivity).
  split; [exact A |]. split; [reflexivity |].
  destruct (regime_resolution_and_configuration_error
              unconfigured_test sample_array [0; 1; 1; 2]%Z None) as (_ & _ & H & _).
  exact (H A eq_refl).
Defined.

(** ** The accessors *)

Lemma get_dependence_measure_unfold (self : PairwiseMultCI) array xyz data_type :
  get_dependence_measure self array xyz data_type =
  let after := calculate_dep_measure_and_significance self array xyz data_type in
  match outcome (snd after) with
  | Ok (d, s) => (set_last d s (fst after), (invocations (snd after), Ok d))
  | Raise e => (fst after, (invocations (snd after), Raise e))
  end.
Proof.
  unfold get_dependence_measure.
  destruct (calculate_dep_measure_and_significance self array xyz data_type)
    as [s [calls [[d sg] | e]]]; reflexivity.
Qed.

(** C10.  [get_analytic_significance] does not depend on any of its
    parameters; after a call of [get_dependence_measure] that returned, it
    returns the significance computed by that call; a call that raised
    leaves what it returns unchanged; and on an object on which no
    dependence measure was computed (in particular a freshly built one) it
    fails, the attribute [signif] not existing. *)
Theorem get_analytic_significance_returns_stored_value :
  forall self : PairwiseMultCI,
    (forall v T d x t v' T' d' x' t',
        get_analytic_significance self v T d x t
        = get_analytic_significance self v' T' d' x' t') /\
    (forall array xyz data_type self' calls dep,
        get_dependence_measure self array xyz data_type = (self', (calls, Ok dep)) ->
        exists s,
          outcome (snd (calculate_dep_measure_and_significance self array xyz data_type))
          = Ok (dep, s) /\
          forall v T d x t, get_analytic_significance self' v T d x t = Ok s) /\
    (forall array xyz data_type self' calls e,
        get_dependence_measure self array xyz data_type = (self', (calls, Raise e)) ->
        forall v T d x t,
          get_analytic_significance self' v T d x t
          = get_analytic_significance self v T d x t) /\
    (signif self = None ->
     forall v T d x t,
       get_analytic_significance self v T d x t = Raise (AttributeError "signif")) /\
    (forall engine alpha fraction thres kw v T d x t,
        get_analytic_significance (init engine alpha fraction thres kw) v T d x t
        = Raise (AttributeError "signif")).
Proof.
  intros self. split; [reflexivity |]. split; [| split; [| split]].
  - intros array xyz data_type self' calls dep H.
    rewrite get_dependence_measure_unfold in H. cbv zeta in H.
    destruct (outcome (snd (calculate_dep_measure_and_significance self array xyz data_type)))
      as [[d0 s0] | e0] eqn:E.
    + inversion H; subst. exists s0. split; [reflexivity |].
      intros. reflexivity.
    + discriminate H.
  - intros array xyz data_type self' calls e H.
    rewrite get_dependence_measure_unfold in H. cbv zeta in H.
    destruct (outcome (snd (calculate_dep_measure_and_significance self array xyz data_type)))
      as [[d0 s0] | e0] eqn:E.
    + discriminate H.
    + inversion H; subst. intros.
      unfold get_analytic_significance. rewrite calculate_self.
      pose proof (resolve_regime_frame self) as F. cbv zeta in F.
      destruct F as (_ & _ & _ & _ & _ & _ & _ & F). rewrite F. reflexivity.
  - intros Hnone v T d x t. unfold get_analytic_significance. rewrite Hnone. reflexivity.
  - intros. reflexivity.
Qed.

(** [get_analytic_significance_returns_stored_value] applied to a concrete evaluation. *)
Lemma get_analytic_significance_returns_stored_value_witness :
  exists s,
    outcome (snd (calculate_dep_measure_and_significance
                    analytic_test sample_array [0; 1; 1; 2]%Z None))
    = Ok (3 # 4, s) /\
    get_analytic_significance
      (fst (get_dependence_measure analytic_test sample_array [0; 1; 1; 2]%Z None))
      (Some 5) (Some 7%nat) None None None = Ok s.
Proof.
  destruct (get_analytic_significance_returns_stored_value analytic_test)
    as (_ & H & _).
  destruct (H sample_array [0; 1; 1; 2]%Z None
              (fst (get_dependence_measure analytic_test sample_array [0; 1; 1; 2]%Z None))
              (invocations (snd (get_dependence_measure analytic_test sample_array
                                   [0; 1; 1; 2]%Z None)))
              (3 # 4) eq_refl) as (s & H1 & H2).
  exists s. split; [exact H1 | apply H2].
Defined.

(** ** Frame of an evaluation *)

(** C6, as stated, fails: when only the engine carries the tag
    ["fixed_thres"], the evaluation rewrites the outer tag. *)
Lemma only_last_values_changed_fails :
  ~ only_last_values_changed
      mixed_tags_test
      (fst (get_dependence_measure mixed_tags_test sample_array [0; 1; 1; 2]%Z None)).
Proof.
  unfold only_last_values_changed. intros (_ & _ & _ & _ & _ & _ & H).
  vm_compute in H. discriminate H.
Qed.

(** C6, amended.  An evaluation changes, of the test object and its engine,
    the stored statistic and significance (when it returns; nothing when it
    raises) and the two significance tags: both are ["fixed_thres"]
    afterwards when either was before, and both are unchanged otherwise.
    Every other attribute, the engine's [run_test_raw] included, is as
    before. *)
Theorem evaluation_frame :
  forall self array xyz data_type,
    let self' := fst (get_dependence_measure self array xyz data_type) in
    let res := outcome (snd (calculate_dep_measure_and_significance self array xyz data_type)) in
    measure_attr self' = measure_attr self /\
    run_test_raw (cond_ind_test self') = run_test_raw (cond_ind_test self) /\
    alpha_pre self' = alpha_pre self /\
    pre_step_sample_fraction self' = pre_step_sample_fraction self /\
    fixed_thres_pre self' = fixed_thres_pre self /\
    two_sided self' = two_sided self /\
    (if fixed_thres_active_b self
     then significance self' = "fixed_thres" /\
          ci_significance (cond_ind_test self') = "fixed_thres"
     else significance self' = significance self /\
          ci_significance (cond_ind_test self') = ci_significance (cond_ind_test self)) /\
    match res with
    | Ok (d, s) => dep_measure self' = Some d /\ signif self' = Some s
    | Raise _ => dep_measure self' = dep_measure self /\ signif self' = signif self
    end.
Proof.
  intros self array xyz data_type self' res. subst self' res.
  rewrite get_dependence_measure_unfold. cbv zeta.
  pose proof (resolve_regime_frame self) as F. cbv zeta in F.
  pose proof (resolve_regime_tags self) as G. cbv zeta in G.
  destruct F as (F1 & F2 & F3 & F4 & F5 & F6 & F7 & F8).
  destruct (outcome (snd (calculate_dep_measure_and_significance self array xyz data_type)))
    as [[d s] | e]; unfold set_last; simpl; rewrite calculate_self;
    repeat (split; [assumption |]).
  - split; reflexivity.
  - assumption.
Qed.

(** ** Lists, matrices and loops *)

Lemma combine_seq_nth_error {A} (l : list A) (s i : nat) (x : A) :
  In (i, x) (combine (seq s (length l)) l) <->
  (s <= i)%nat /\ nth_error l (i - s) = Some x.
Proof.
  revert s. induction l as [| a l IH]; intros s; simpl.
  - split; [tauto |]. intros [_ H]. destruct (i - s)%nat; discriminate.
  - split.
    + intros [H | H].
      * inversion H; subst. split; [lia |]. rewrite Nat.sub_diag. reflexivity.
      * apply IH in H. destruct H as [H1 H2]. split; [lia |].
        replace (i - s)%nat with (S (i - S s)) by lia. exact H2.
    + intros [H1 H2]. destruct (i - s)%nat as [| k] eqn:E.
      * left. inversion H2; subst. f_equal. lia.
      * right. apply IH. split; [lia |].
        replace (i - S s)%nat with k by lia. exact H2.
Qed.

Lemma combine_seq0_nth_error {A} (l : list A) (i : nat) (x : A) :
  In (i, x) (combine (seq 0 (length l)) l) <-> nth_error l i = Some x.
Proof.
  rewrite combine_seq_nth_error, Nat.sub_0_r. split; [tauto |]. split; [lia | assumption].
Qed.

Lemma combine_map_fst_snd {A B} (l : list (A * B)) :
  combine (map fst l) (map snd l) = l.
Proof. induction l as [| [a b] l IH]; simpl; [| rewrite IH]; reflexivity. Qed.

Lemma where_pairs_spec (mask : matrix bool) (j jj : nat) :
  In (j, jj) (where_pairs mask) <-> cell mask j jj = Some true.
Proof.
  unfold where_pairs, cell. rewrite in_concat. split.
  - intros (l & Hl & Hin). apply in_map_iff in Hl.
    destruct Hl as ([j' row] & <- & Hrow). simpl in Hin.
    apply in_map_iff in Hin. destruct Hin as ([jj' b] & Heq & Hf).
    simpl in Heq. inversion Heq; subst.
    apply filter_In in Hf. destruct Hf as [Hc Hb]. simpl in Hb. subst b.
    apply combine_seq0_nth_error in Hrow. apply combine_seq0_nth_error in Hc.
    rewrite Hrow. exact Hc.
  - destruct (nth_error mask j) as [row |] eqn:E; [| discriminate].
    intros Hc. exists (map (fun jc : nat * bool => (j, fst jc))
                      (filter snd (combine (seq 0 (length row)) row))).
    split.
    + apply in_map_iff. exists (j, row). split; [reflexivity |].
      apply combine_seq0_nth_error. exact E.
    + apply in_map_iff. exists (jj, true). split; [reflexivity |].
      apply filter_In. split; [| reflexivity].
      apply combine_seq0_nth_error. exact Hc.
Qed.

Lemma in_indep_set_np_where (mask : matrix bool) (j jj : nat) :
  in_indep_set (np_where mask) j jj <-> cell mask j jj = Some true.
Proof.
  unfold in_indep_set, np_where. simpl. rewrite combine_map_fst_snd.
  apply where_pairs_spec.
Qed.

Lemma map_result_Forall2 {A B} (f : A -> result B) (l : list A) (l' : list B) :
  map_result f l = Ok l' <-> Forall2 (fun a b => f a = Ok b) l l'.
Proof.
  revert l'. induction l as [| a l IH]; intros l'; simpl.
  - split.
    + intros H. inversion H. constructor.
    + intros H. inversion H. reflexivity.
  - split.
    + destruct (f a) as [b | e] eqn:Ea; [| discriminate].
      destruct (map_result f l) as [bs | e] eqn:El; [| discriminate].
      intros H. inversion H; subst. constructor; [exact Ea |]. apply IH. reflexivity.
    + intros H. inversion H as [| a0 b l0 bs Hab Hrest]; subst.
      rewrite Hab. apply IH in Hrest. rewrite Hrest. reflexivity.
Qed.

Lemma Forall2_nth_error {A B} (P : A -> B -> Prop) (l : list A) (l' : list B) :
  Forall2 P l l' <->
  length l = length l' /\
  forall i a b, nth_error l i = Some a -> nth_error l' i = Some b -> P a b.
Proof.
  split.
  - induction 1 as [| a b l l' Hab H IH]; simpl.
    + split; [reflexivity |]. intros [| i]; discriminate.
    + destruct IH as [IH1 IH2]. split; [congruence |].
      intros [| i] a0 b0; simpl; intros Ha Hb.
      * inversion Ha; inversion Hb; subst. exact Hab.
      * eapply IH2; eassumption.
  - revert l'. induction l as [| a l IH]; intros [| b l'] [Hlen H]; try discriminate.
    + constructor.
    + constructor.
      * apply (H 0%nat); reflexivity.
      * apply IH. split; [simpl in Hlen; congruence |].
        intros i a0 b0 Ha Hb. apply (H (S i)); assumption.
Qed.

Lemma nth_error_seq0 (n i k : nat) :
  nth_error (seq 0 n) i = Some k <-> (i < n)%nat /\ k = i.
Proof.
  split.
  - intros H. assert (Hi : (i < n)%nat).
    { rewrite <- (length_seq n 0). apply nth_error_Some. congruence. }
    split; [exact Hi |].
    rewrite (nth_error_nth' _ 0%nat) in H by (rewrite length_seq; exact Hi).
    rewrite seq_nth in H by exact Hi. inversion H. reflexivity.
  - intros [Hi ->].
    rewrite (nth_error_nth' _ 0%nat) by (rewrite length_seq; exact Hi).
    rewrite seq_nth by exact Hi. reflexivity.
Qed.

(** A relation of a loop over [range(n)] to its list of values, index by
    index. *)
Lemma Forall2_seq0 {B} (P : nat -> B -> Prop) (n : nat) (l : list B) :
  Forall2 P (seq 0 n) l <->
  length l = n /\ forall i b, nth_error l i = Some b -> P i b.
Proof.
  rewrite Forall2_nth_error, length_seq. split.
  - intros [Hlen H]. split; [symmetry; exact Hlen |].
    intros i b Hb. apply (H i); [| exact Hb].
    apply nth_error_seq0. split; [| reflexivity].
    rewrite Hlen. apply nth_error_Some. congruence.
  - intros [Hlen H]. split; [symmetry; exact Hlen |].
    intros i a b Ha Hb. apply nth_error_seq0 in Ha. destruct Ha as [_ ->].
    apply H. exact Hb.
Qed.

Lemma for_each_outcome {A B} (body : A -> M B) (l : list A) (bs : list B) :
  outcome (for_each body l) = Ok bs <->
  Forall2 (fun a b => outcome (body a) = Ok b) l bs.
Proof.
  revert bs. induction l as [| a l IH]; intros bs; simpl.
  - split.
    + intros H. inversion H. constructor.
    + intros H. inversion H. reflexivity.
  - rewrite outcome_bind. split.
    + destruct (outcome (body a)) as [b | e] eqn:Ea; [| discriminate].
      rewrite outcome_bind.
      destruct (outcome (for_each body l)) as [bs0 | e] eqn:El; [| discriminate].
      intros H. inversion H; subst. constructor; [exact Ea |]. apply IH. reflexivity.
    + intros H. inversion H as [| a0 b l0 bs0 Hab Hrest]; subst.
      rewrite Hab, outcome_bind. apply IH in Hrest. rewrite Hrest. reflexivity.
Qed.

Lemma cell_Some {A} (m : matrix A) (j jj : nat) (x : A) :
  cell m j jj = Some x <->
  exists row, nth_error m j = Some row /\ nth_error row jj = Some x.
Proof.
  unfold cell. destruct (nth_error m j) as [row |].
  - split.
    + intros H. exists row. split; [reflexivity | exact H].
    + intros (row' & H1 & H2). inversion H1; subst. exact H2.
  - split; [discriminate |]. intros (row' & H1 & _). discriminate.
Qed.

(** A nested loop over [range(n) x range(k)] returns the matrix [m] exactly
    when [m] has that shape and each cell is the value of the body there. *)
Lemma nested_for_each_outcome {B} (body : nat -> nat -> M B) (n k : nat) (m : matrix B) :
  outcome (for_each (fun j => for_each (fun jj => body j jj) (seq 0 k)) (seq 0 n)) = Ok m <->
  length m = n /\
  Forall (fun row => length row = k) m /\
  forall j jj b, cell m j jj = Some b -> outcome (body j jj) = Ok b.
Proof.
  rewrite for_each_outcome, Forall2_seq0. split.
  - intros [Hlen H]. split; [exact Hlen |]. split.
    + apply Forall_forall. intros row Hin. apply In_nth_error in Hin.
      destruct Hin as [j Hj]. apply H in Hj.
      apply for_each_outcome, Forall2_seq0 in Hj. tauto.
    + intros j jj b Hc. apply cell_Some in Hc. destruct Hc as (row & Hj & Hjj).
      apply H in Hj. apply for_each_outcome, Forall2_seq0 in Hj.
      destruct Hj as [_ Hj]. apply Hj. exact Hjj.
  - intros (Hlen & Hrows & H). split; [exact Hlen |].
    intros j row Hj. apply for_each_outcome, Forall2_seq0. split.
    + rewrite Forall_forall in Hrows. apply Hrows. eapply nth_error_In. exact Hj.
    + intros jj b Hjj. apply H. apply cell_Some. exists row. tauto.
Qed.

Lemma cell_bounds {A} (m : matrix A) (n k j jj : nat) (x : A) :
  length m = n -> Forall (fun row => length row = k) m ->
  cell m j jj = Some x -> (j < n)%nat /\ (jj < k)%nat.
Proof.
  intros Hn Hk Hc. apply cell_Some in Hc. destruct Hc as (row & Hj & Hjj).
  split.
  - rewrite <- Hn. apply nth_error_Some. congruence.
  - rewrite Forall_forall in Hk. rewrite <- (Hk row).
    + apply nth_error_Some. congruence.
    + eapply nth_error_In. exact Hj.
Qed.

Lemma cell_in_range {A} (m : matrix A) (n k j jj : nat) :
  length m = n -> Forall (fun row => length row = k) m ->
  (j < n)%nat -> (jj < k)%nat -> exists x, cell m j jj = Some x.
Proof.
  intros Hn Hk Hj Hjj. unfold cell.
  destruct (nth_error m j) as [row |] eqn:E.
  - destruct (nth_error row jj) as [x |] eqn:E2; [exists x; reflexivity |].
    apply nth_error_None in E2. rewrite Forall_forall in Hk.
    rewrite (Hk row) in E2; [lia |]. eapply nth_error_In. exact E.
  - apply nth_error_None in E. lia.
Qed.

Lemma map_result_matrix_cell {A B} (f : A -> result B) (m : matrix A) (m' : matrix B) :
  map_result (map_result f) m = Ok m' ->
  forall j jj,
    (forall b, cell m' j jj = Some b -> exists p, cell m j jj = Some p /\ f p = Ok b) /\
    (forall p, cell m j jj = Some p -> exists b, cell m' j jj = Some b /\ f p = Ok b).
Proof.
  intros H j jj. apply map_result_Forall2, Forall2_nth_error in H.
  destruct H as [Hlen H]. split.
  - intros b Hb. apply cell_Some in Hb. destruct Hb as (row' & Hj & Hjj).
    destruct (nth_error m j) as [row |] eqn:E.
    + specialize (H j row row' E Hj).
      apply map_result_Forall2, Forall2_nth_error in H. destruct H as [Hl H].
      destruct (nth_error row jj) as [p |] eqn:E2.
      * exists p. split; [apply cell_Some; exists row; tauto |].
        eapply H; eassumption.
      * apply nth_error_None in E2.
        assert (jj < length row')%nat by (apply nth_error_Some; congruence). lia.
    + apply nth_error_None in E.
      assert (j < length m')%nat by (apply nth_error_Some; congruence). lia.
  - intros p Hp. apply cell_Some in Hp. destruct Hp as (row & Hj & Hjj).
    destruct (nth_error m' j) as [row' |] eqn:E.
    + specialize (H j row row' Hj E).
      apply map_result_Forall2, Forall2_nth_error in H. destruct H as [Hl H].
      destruct (nth_error row' jj) as [b |] eqn:E2.
      * exists b. split; [apply cell_Some; exists row'; tauto |].
        eapply H; eassumption.
      * apply nth_error_None in E2.
        assert (jj < length row)%nat by (apply nth_error_Some; congruence). lia.
    + apply nth_error_None in E.
      assert (j < length m)%nat by (apply nth_error_Some; congruence). lia.
Qed.

(** ** The pre-step and the independence set *)

Lemma pre_cell_outcome self ftb array xyz dt (j jj : nat) (p : Q) :
  outcome (pre_cell self ftb array xyz dt j jj) = Ok p <->
  exists a test_result,
    pre_args self ftb array xyz dt j jj = Ok a /\
    run_test_raw (cond_ind_test self) (ci_significance (cond_ind_test self)) a
    = Ok test_result /\
    p = if ftb then fst test_result else snd test_result.
Proof.
  unfold pre_cell. rewrite outcome_bind, outcome_lift.
  destruct (pre_args self ftb array xyz dt j jj) as [a | e].
  - rewrite outcome_bind.
    change (outcome (engine self a))
      with (run_test_raw (cond_ind_test self) (ci_significance (cond_ind_test self)) a).
    destruct (run_test_raw (cond_ind_test self) (ci_significance (cond_ind_test self)) a)
      as [r | e] eqn:E.
    + split.
      * intros H. inversion H. exists a, r.
        split; [reflexivity |]. split; [exact E | reflexivity].
      * intros (a' & r' & Ha & Hr & Hp). inversion Ha; subst a'.
        rewrite E in Hr. inversion Hr; subst r'. rewrite Hp. reflexivity.
    + split; [discriminate |]. intros (a' & r' & Ha & Hr & _).
      inversion Ha; subst a'. rewrite E in Hr. discriminate.
  - split; [discriminate |]. intros (a' & r' & Ha & _). discriminate.
Qed.

Lemma pre_step_shape self ftb array xyz dt (pre : matrix Q) :
  outcome (pre_step self ftb array xyz dt) = Ok pre ->
  length pre = dim_x xyz /\ Forall (fun row => length row = dim_y xyz) pre.
Proof.
  unfold pre_step. intros H. apply nested_for_each_outcome in H. tauto.
Qed.

Lemma gt_bound_spec (p a : Q) (b : bool) :
  gt_bound p (Some a) = Ok b -> (b = true <-> a < p).
Proof.
  simpl. intros H. inversion H. rewrite negb_true_iff. split.
  - intros Hb. apply Qnot_le_lt. intros Hle.
    apply Qle_bool_iff in Hle. congruence.
  - intros Hlt. destruct (Qle_bool p a) eqn:E; [| reflexivity].
    apply Qle_bool_iff in E. apply Qlt_not_le in Hlt. contradiction.
Qed.

Lemma abs_ge_bound_spec (v t : Q) (b : bool) :
  abs_ge_bound v (Some t) = Ok b -> (b = true <-> t <= Qabs v).
Proof.
  simpl. intros H. inversion H. apply Qle_bool_iff.
Qed.

(** C7.  When the pre-step has returned, the pairs of the independence set
    lie in [range(dim_x) x range(dim_y)], and for every such pair [(j, jj)],
    with [test_result] what the engine returned on the pre-step block of the
    pair: in the p-value regime the pair is in the set iff
    [alpha_pre < test_result[1]]; in the fixed-threshold regime iff
    [fixed_thres_pre <= abs(test_result[0])]. *)
Theorem independence_classification :
  forall self ftb array xyz dt pre indep_set,
    outcome (pre_step self ftb array xyz dt) = Ok pre ->
    indep_set_of self ftb pre = Ok indep_set ->
    forall j jj,
      (in_indep_set indep_set j jj -> (j < dim_x xyz)%nat /\ (jj < dim_y xyz)%nat) /\
      ((j < dim_x xyz)%nat -> (jj < dim_y xyz)%nat ->
       exists a test_result,
         pre_args self ftb array xyz dt j jj = Ok a /\
         run_test_raw (cond_ind_test self) (ci_significance (cond_ind_test self)) a
         = Ok test_result /\
         (ftb = false ->
          exists alpha, alpha_pre self = Some alpha /\
            (in_indep_set indep_set j jj <-> alpha < snd test_result)) /\
         (ftb = true ->
          exists thres, fixed_thres_pre self = Some thres /\
            (in_indep_set indep_set j jj <-> thres <= Qabs (fst test_result)))).
Proof.
  intros self ftb array xyz dt pre indep_set Hpre Hset j jj.
  pose proof (pre_step_shape _ _ _ _ _ _ Hpre) as [Hn Hk].
  unfold pre_step in Hpre. apply nested_for_each_outcome in Hpre.
  destruct Hpre as (_ & _ & Hcells).
  unfold indep_set_of in Hset.
  destruct (indep_mask self ftb pre) as [mask | e] eqn:Emask; [| discriminate].
  inversion Hset; subst indep_set; clear Hset.
  unfold indep_mask in Emask. split.
  - intros Hin. apply in_indep_set_np_where in Hin.
    destruct ftb; simpl in Emask;
      destruct (map_result_matrix_cell _ _ _ Emask j jj) as [H1 _];
      destruct (H1 _ Hin) as (p & Hp & _);
      eapply cell_bounds; eassumption.
  - intros Hj Hjj.
    destruct (cell_in_range pre _ _ j jj Hn Hk Hj Hjj) as [p Hp].
    pose proof (Hcells _ _ _ Hp) as Hc. apply pre_cell_outcome in Hc.
    destruct Hc as (a & r & Ha & Hr & Hpr).
    exists a, r. split; [exact Ha |]. split; [exact Hr |]. split.
    + intros ->. simpl in Emask.
      destruct (map_result_matrix_cell _ _ _ Emask j jj) as [H1 H2].
      destruct (H2 _ Hp) as (b & Hb & Hf).
      destruct (alpha_pre self) as [alpha |]; [| discriminate Hf].
      exists alpha. split; [reflexivity |].
      rewrite in_indep_set_np_where. rewrite Hb.
      apply gt_bound_spec in Hf. rewrite <- Hpr, <- Hf.
      split; [intros H; inversion H; reflexivity | intros ->; reflexivity].
    + intros ->. simpl in Emask.
      destruct (map_result_matrix_cell _ _ _ Emask j jj) as [H1 H2].
      destruct (H2 _ Hp) as (b & Hb & Hf).
      destruct (fixed_thres_pre self) as [thres |]; [| discriminate Hf].
      exists thres. split; [reflexivity |].
      rewrite in_indep_set_np_where. rewrite Hb.
      apply abs_ge_bound_spec in Hf. rewrite <- Hpr, <- Hf.
      split; [intros H; inversion H; reflexivity | intros ->; reflexivity].
Qed.

(** [independence_classification] applied to a concrete evaluation. *)
Lemma independence_classification_witness :
  exists a test_result,
    pre_args p_value_test false sample_array [0; 1; 1; 2]%Z None 0 1 = Ok a /\
    run_test_raw (cond_ind_test p_value_test) "analytic" a = Ok test_result /\
    exists alpha, alpha_pre p_value_test = Some alpha /\
      (in_indep_set ([0; 0]%nat, [0; 1]%nat) 0 1 <-> alpha < snd test_result).
Proof.
  destruct (independence_classification
              p_value_test false sample_array [0; 1; 1; 2]%Z None
              [[1; 1]] ([0; 0]%nat, [0; 1]%nat) eq_refl eq_refl 0%nat 1%nat)
    as [_ H].
  destruct H as (a & r & Ha & Hr & Hp & _).
  - vm_compute. lia.
  - vm_compute. lia.
  - exists a, r. split; [exact Ha |]. split; [exact Hr |]. exact (Hp eq_refl).
Defined.

(** ** The sample split *)

Lemma norm_index_in_range (n : nat) (s : Z) :
  (0 <= s <= Z.of_nat n)%Z -> norm_index n s = Z.to_nat s.
Proof.
  intros H. unfold norm_index.
  destruct (s <? 0)%Z eqn:E; [apply Z.ltb_lt in E; lia |].
  f_equal. lia.
Qed.

Lemma py_slice_head {A} (s : Z) (l : list A) :
  (0 <= s <= Z.of_nat (length l))%Z ->
  py_slice 0 s l = firstn (Z.to_nat s) l.
Proof.
  intros H. unfold py_slice.
  rewrite (norm_index_in_range _ s H), (norm_index_in_range _ 0%Z) by lia.
  simpl. rewrite Nat.sub_0_r. reflexivity.
Qed.

Lemma py_slice_tail {A} (s : Z) (l : list A) :
  (0 <= s <= Z.of_nat (length l))%Z ->
  py_slice s (Z.of_nat (length l)) l = skipn (Z.to_nat s) l.
Proof.
  intros H. unfold py_slice.
  rewrite (norm_index_in_range _ s H), (norm_index_in_range _ (Z.of_nat (length l))) by lia.
  rewrite Nat2Z.id. apply firstn_all2. rewrite length_skipn. lia.
Qed.



Lemma nth_error_map_Some {A B} (f : A -> B) (l : list A) (i : nat) (a : A) :
  nth_error l i = Some a -> nth_error (map f l) i = Some (f a).
Proof. intros H. rewrite nth_error_map, H. reflexivity. Qed.

Lemma type_block_rows (dt : matrix Z) (idx : list nat) (full : matrix Z) :
  type_block (Some dt) idx = Some full ->
  length full = shape1 dt /\
  forall t, (t < shape1 dt)%nat ->
    nth_error full t = Some (map (fun i => nth t (nth i dt []) 0%Z) idx).
Proof.
  unfold type_block, transpose, take_rows. intros H. inversion H; subst; clear H.
  rewrite length_map, length_seq. split; [reflexivity |].
  intros t Ht. rewrite nth_error_map.
  assert (E : nth_error (seq 0 (shape1 dt)) t = Some t)
    by (apply nth_error_seq0; split; [exact Ht | reflexivity]).
  rewrite E. simpl. rewrite map_map. reflexivity.
Qed.



(** ** Aggregation *)

Lemma Qmax_cases (x y : Q) : Qmax x y = x \/ Qmax x y = y.
Proof.
  unfold Qmax, GenericMinMax.gmax. destruct (x ?= y); auto.
Qed.

Lemma Qmin_cases (x y : Q) : Qmin x y = x \/ Qmin x y = y.
Proof.
  unfold Qmin, GenericMinMax.gmin. destruct (x ?= y); auto.
Qed.

Lemma fold_left_Qmax_spec (l : list Q) (a : Q) :
  let m := fold_left Qmax l a in
  In m (a :: l) /\ Forall (fun x => x <= m) (a :: l).
Proof.
  revert a. induction l as [| b l IH]; intros a; simpl.
  - split; [left; reflexivity |]. constructor; [apply Qle_refl | constructor].
  - specialize (IH (Qmax a b)). simpl in IH. destruct IH as [Hin Hall].
    inversion Hall as [| x l0 Hab Hl]; subst. split.
    + destruct Hin as [Hin | Hin]; [| right; right; exact Hin].
      rewrite <- Hin. destruct (Qmax_cases a b) as [E | E]; rewrite E; auto.
    + constructor; [| constructor]; try exact Hl.
      * eapply Qle_trans; [apply Q.le_max_l | exact Hab].
      * eapply Qle_trans; [apply Q.le_max_r | exact Hab].
Qed.

Lemma fold_left_Qmin_spec (l : list Q) (a : Q) :
  let m := fold_left Qmin l a in
  In m (a :: l) /\ Forall (fun x => m <= x) (a :: l).
Proof.
  revert a. induction l as [| b l IH]; intros a; simpl.
  - split; [left; reflexivity |]. constructor; [apply Qle_refl | constructor].
  - specialize (IH (Qmin a b)). simpl in IH. destruct IH as [Hin Hall].
    inversion Hall as [| x l0 Hab Hl]; subst. split.
    + destruct Hin as [Hin | Hin]; [| right; right; exact Hin].
      rewrite <- Hin. destruct (Qmin_cases a b) as [E | E]; rewrite E; auto.
    + constructor; [| constructor]; try exact Hl.
      * eapply Qle_trans; [exact Hab | apply Q.le_min_l].
      * eapply Qle_trans; [exact Hab | apply Q.le_min_r].
Qed.

(** [np.max] returns an element of the array that bounds every element. *)
Lemma np_max_spec (l : list Q) (m : Q) :
  np_max l = Ok m -> In m l /\ Forall (fun x => x <= m) l.
Proof.
  destruct l as [| a l]; simpl; [discriminate |].
  intros H. inversion H. apply fold_left_Qmax_spec.
Qed.

Lemma np_min_spec (l : list Q) (m : Q) :
  np_min l = Ok m -> In m l /\ Forall (fun x => m <= x) l.
Proof.
  destruct l as [| a l]; simpl; [discriminate |].
  intros H. inversion H. apply fold_left_Qmin_spec.
Qed.

Lemma in_concat_cell {A} (m : matrix A) (x : A) :
  In x (concat m) <-> exists j jj, cell m j jj = Some x.
Proof.
  rewrite in_concat. split.
  - intros (row & Hrow & Hx).
    apply In_nth_error in Hrow. destruct Hrow as [j Hj].
    apply In_nth_error in Hx. destruct Hx as [jj Hjj].
    exists j, jj. apply cell_Some. exists row. tauto.
  - intros (j & jj & Hc). apply cell_Some in Hc. destruct Hc as (row & Hj & Hjj).
    exists row. split; eapply nth_error_In; eassumption.
Qed.

Lemma cell_map {A B} (f : A -> B) (m : matrix A) (j jj : nat) :
  cell (map (map f) m) j jj = option_map f (cell m j jj).
Proof.
  unfold cell. rewrite nth_error_map.
  destruct (nth_error m j) as [row |]; simpl; [| reflexivity].
  apply nth_error_map.
Qed.


Lemma for_acc_length {S A B} (body : S -> A -> M (S * B)) (l : list A) :
  forall s s' bs,
    outcome (for_acc body s l) = Ok (s', bs) -> length bs = length l.
Proof.
  induction l as [| a l IH]; intros s s' bs; simpl.
  - intros H. inversion H. reflexivity.
  - rewrite outcome_bind.
    destruct (outcome (body s a)) as [[s1 b] | e]; [| discriminate].
    rewrite outcome_bind.
    destruct (outcome (for_acc body s1 l)) as [[s2 bs0] | e] eqn:E; [| discriminate].
    intros H. inversion H; subst. simpl. f_equal. eapply IH. exact E.
Qed.

Lemma for_acc_rows {S A B} (P : B -> Prop) (body : S -> A -> M (S * B)) (l : list A) :
  (forall s a s' b, outcome (body s a) = Ok (s', b) -> P b) ->
  forall s s' bs,
    outcome (for_acc body s l) = Ok (s', bs) -> Forall P bs.
Proof.
  intros Hbody. induction l as [| a l IH]; intros s s' bs; simpl.
  - intros H. inversion H. constructor.
  - rewrite outcome_bind.
    destruct (outcome (body s a)) as [[s1 b] | e] eqn:Eb; [| discriminate].
    rewrite outcome_bind.
    destruct (outcome (for_acc body s1 l)) as [[s2 bs0] | e] eqn:E; [| discriminate].
    intros H. inversion H; subst. constructor.
    + eapply Hbody. exact Eb.
    + eapply IH. exact E.
Qed.

Lemma main_step_shape self ftb array xyz dt indep_set zt (results : matrix (Q * Q)) :
  outcome (main_step self ftb array xyz dt indep_set) = Ok (zt, results) ->
  length results = dim_x xyz /\ Forall (fun row => length row = dim_y xyz) results.
Proof.
  unfold main_step. intros H. split.
  - apply for_acc_length in H. rewrite H. apply length_seq.
  - revert H. apply for_acc_rows. intros s j s' row Hrow.
    apply for_acc_length in Hrow. rewrite Hrow. apply length_seq.
Qed.

Lemma main_results_outcome self ftb array xyz dt (results : matrix (Q * Q)) :
  outcome (main_results self ftb array xyz dt) = Ok results <->
  exists pre indep_set zt,
    outcome (pre_step self ftb array xyz dt) = Ok pre /\
    indep_set_of self ftb pre = Ok indep_set /\
    outcome (main_step self ftb array xyz dt indep_set) = Ok (zt, results).
Proof.
  unfold main_results. rewrite outcome_bind.
  destruct (outcome (pre_step self ftb array xyz dt)) as [pre | e] eqn:E1.
  - rewrite outcome_bind, outcome_lift.
    destruct (indep_set_of self ftb pre) as [indep_set | e] eqn:E2.
    + rewrite outcome_bind.
      destruct (outcome (main_step self ftb array xyz dt indep_set))
        as [[zt res] | e] eqn:E3.
      * split.
        -- intros H. inversion H; subst. exists pre, indep_set, zt.
           split; [reflexivity |]. split; assumption.
        -- intros (pre' & i' & zt' & H1 & H2 & H3).
           inversion H1; subst pre'. rewrite E2 in H2. inversion H2; subst i'.
           rewrite E3 in H3. inversion H3. reflexivity.
      * split; [discriminate |].
        intros (pre' & i' & zt' & H1 & H2 & H3).
        inversion H1; subst pre'. rewrite E2 in H2. inversion H2; subst i'.
        rewrite E3 in H3. discriminate.
    + split; [discriminate |].
      intros (pre' & i' & zt' & H1 & H2 & H3). inversion H1; subst pre'.
      rewrite E2 in H2. discriminate.
  - split; [discriminate |]. intros (pre' & i' & zt' & H1 & _). discriminate.
Qed.

Lemma main_results_shape self ftb array xyz dt (results : matrix (Q * Q)) :
  outcome (main_results self ftb array xyz dt) = Ok results ->
  length results = dim_x xyz /\ Forall (fun row => length row = dim_y xyz) results.
Proof.
  intros H. apply main_results_outcome in H.
  destruct H as (pre & indep_set & zt & _ & _ & H).
  eapply main_step_shape. exact H.
Qed.






(** ** Index sets of the conditioning-set builder *)

Lemma insert_unique_In (x v : nat) (l : list nat) :
  In v (insert_unique x l) <-> v = x \/ In v l.
Proof.
  induction l as [| y t IH]; simpl.
  - intuition.
  - destruct (x <? y)%nat eqn:E1; simpl; [intuition |].
    destruct (x =? y)%nat eqn:E2; simpl.
    + apply Nat.eqb_eq in E2. subst y. intuition.
    + rewrite IH. intuition.
Qed.

Lemma insert_unique_sorted (x : nat) (l : list nat) :
  StronglySorted lt l -> StronglySorted lt (insert_unique x l).
Proof.
  induction 1 as [| y t Ht IH Hy]; simpl.
  - constructor; [constructor | constructor].
  - destruct (x <? y)%nat eqn:E1.
    + apply Nat.ltb_lt in E1. constructor.
      * constructor; assumption.
      * constructor; [exact E1 |].
        eapply Forall_impl; [| exact Hy]. intros z Hz. simpl in Hz. lia.
    + destruct (x =? y)%nat eqn:E2.
      * constructor; assumption.
      * apply Nat.ltb_ge in E1. apply Nat.eqb_neq in E2.
        constructor; [exact IH |].
        apply Forall_forall. intros z Hz. apply insert_unique_In in Hz.
        destruct Hz as [-> | Hz]; [lia |].
        rewrite Forall_forall in Hy. apply Hy. exact Hz.
Qed.

Lemma np_unique_In (v : nat) (l : list nat) : In v (np_unique l) <-> In v l.
Proof.
  induction l as [| x l IH]; simpl; [tauto |].
  rewrite insert_unique_In, IH. intuition.
Qed.

Lemma np_unique_sorted (l : list nat) : StronglySorted lt (np_unique l).
Proof.
  induction l as [| x l IH]; simpl; [constructor |].
  apply insert_unique_sorted. exact IH.
Qed.

Lemma filter_sorted (f : nat -> bool) (l : list nat) :
  StronglySorted lt l -> StronglySorted lt (filter f l).
Proof.
  induction 1 as [| y t Ht IH Hy]; simpl; [constructor |].
  destruct (f y); [| exact IH].
  constructor; [exact IH |].
  apply Forall_forall. intros z Hz. apply filter_In in Hz.
  rewrite Forall_forall in Hy. apply Hy. tauto.
Qed.


(** Two increasing lists with the same elements are the same list. *)
Lemma sorted_ext (l l' : list nat) :
  StronglySorted lt l -> StronglySorted lt l' ->
  (forall v, In v l <-> In v l') -> l = l'.
Proof.
  intros Hl. revert l'. induction Hl as [| y t Ht IH Hy]; intros l' Hl' Hext.
  - destruct l' as [| y' t']; [reflexivity |].
    exfalso. apply (Hext y'). left. reflexivity.
  - destruct Hl' as [| y' t' Ht' Hy'].
    + exfalso. apply (Hext y). left. reflexivity.
    + rewrite Forall_forall in Hy, Hy'.
      assert (E : y = y').
      { assert (H1 : In y (y' :: t')) by (apply Hext; left; reflexivity).
        assert (H2 : In y' (y :: t)) by (apply Hext; left; reflexivity).
        destruct H1 as [H1 | H1]; [congruence |].
        destruct H2 as [H2 | H2]; [congruence |].
        specialize (Hy _ H2). specialize (Hy' _ H1). lia. }
      subst y'. f_equal. apply IH; [exact Ht' |].
      intros v. split; intros Hv.
      * assert (H : In v (y :: t')) by (apply Hext; right; exact Hv).
        destruct H as [H | H]; [| exact H].
        subst v. specialize (Hy _ Hv). lia.
      * assert (H : In v (y :: t)) by (apply Hext; right; exact Hv).
        destruct H as [H | H]; [| exact H].
        subst v. specialize (Hy' _ Hv). lia.
Qed.

Lemma setdiff1d_one (a : list nat) (k v : nat) :
  In v (setdiff1d a [k]) <-> v <> k /\ In v a.
Proof.
  unfold setdiff1d. rewrite filter_In, np_unique_In. simpl.
  rewrite orb_false_r, negb_true_iff, Nat.eqb_neq. tauto.
Qed.

Lemma setdiff1d_sorted (a b : list nat) : StronglySorted lt (setdiff1d a b).
Proof. apply filter_sorted, np_unique_sorted. Qed.

Lemma py_in_spec (k : nat) (v : list nat) : py_in k v = true <-> In k v.
Proof.
  unfold py_in. rewrite existsb_exists. split.
  - intros (x & Hx & E). apply Nat.eqb_eq in E. subst. exact Hx.
  - intros H. exists k. split; [exact H | apply Nat.eqb_refl].
Qed.

Lemma where_eq_nat_In (k i : nat) (v : list nat) :
  In i (where_eq Nat.eqb k v) <-> nth_error v i = Some k.
Proof.
  unfold where_eq. rewrite in_map_iff. split.
  - intros ([i' x] & E & H). simpl in E. subst i'.
    apply filter_In in H. destruct H as [H1 H2]. simpl in H2.
    apply Nat.eqb_eq in H2. subst x. apply combine_seq0_nth_error. exact H1.
  - intros H. exists (i, k). split; [reflexivity |].
    apply filter_In. split; [apply combine_seq0_nth_error; exact H |].
    simpl. apply Nat.eqb_refl.
Qed.

(** Selecting the second coordinates of the pairs whose first coordinate is
    [k], as lines 211-212 do through the two coordinate arrays. *)
Lemma take_where_fst (P : list (nat * nat)) (k v : nat) :
  In v (take (map snd P) (where_eq Nat.eqb k (map fst P))) <-> In (k, v) P.
Proof.
  unfold take. rewrite in_map_iff. split.
  - intros (i & E & Hi). apply where_eq_nat_In in Hi.
    rewrite nth_error_map in Hi.
    destruct (nth_error P i) as [[a b] |] eqn:Ei; [| discriminate].
    simpl in Hi. inversion Hi; subst a.
    rewrite (nth_error_nth _ _ 0%nat (nth_error_map_Some snd _ _ _ Ei)) in E.
    simpl in E. subst v. eapply nth_error_In. exact Ei.
  - intros H. apply In_nth_error in H. destruct H as [i Hi]. exists i. split.
    + apply (nth_error_nth _ _ 0%nat). rewrite nth_error_map, Hi. reflexivity.
    + apply where_eq_nat_In. rewrite nth_error_map, Hi. reflexivity.
Qed.

Lemma take_where_snd (P : list (nat * nat)) (k v : nat) :
  In v (take (map fst P) (where_eq Nat.eqb k (map snd P))) <-> In (v, k) P.
Proof.
  unfold take. rewrite in_map_iff. split.
  - intros (i & E & Hi). apply where_eq_nat_In in Hi.
    rewrite nth_error_map in Hi.
    destruct (nth_error P i) as [[a b] |] eqn:Ei; [| discriminate].
    simpl in Hi. inversion Hi; subst b.
    rewrite (nth_error_nth _ _ 0%nat (nth_error_map_Some fst _ _ _ Ei)) in E.
    simpl in E. subst v. eapply nth_error_In. exact Ei.
  - intros H. apply In_nth_error in H. destruct H as [i Hi]. exists i. split.
    + apply (nth_error_nth _ _ 0%nat). rewrite nth_error_map, Hi. reflexivity.
    + apply where_eq_nat_In. rewrite nth_error_map, Hi. reflexivity.
Qed.

Lemma indicesY_of_spec (mask : matrix bool) (j jj jj' : nat) :
  In jj' (indicesY_of (np_where mask) j jj) <->
  jj' <> jj /\ in_indep_set (np_where mask) j jj'.
Proof.
  unfold indicesY_of, in_indep_set, np_where. simpl.
  rewrite combine_map_fst_snd.
  destruct (py_in j (map fst (where_pairs mask))) eqn:E.
  - rewrite setdiff1d_one, take_where_fst. tauto.
  - split; [intros [] |]. intros [_ H]. exfalso.
    assert (Hin : In j (map fst (where_pairs mask)))
      by (apply in_map_iff; exists (j, jj'); tauto).
    apply py_in_spec in Hin. congruence.
Qed.

Lemma indicesX_of_spec (mask : matrix bool) (j jj j' : nat) :
  In j' (indicesX_of (np_where mask) j jj) <->
  j' <> j /\ in_indep_set (np_where mask) j' jj.
Proof.
  unfold indicesX_of, in_indep_set, np_where. simpl.
  rewrite combine_map_fst_snd.
  destruct (py_in jj (map snd (where_pairs mask))) eqn:E.
  - rewrite setdiff1d_one, take_where_snd. tauto.
  - split; [intros [] |]. intros [_ H]. exfalso.
    assert (Hin : In jj (map snd (where_pairs mask)))
      by (apply in_map_iff; exists (j', jj); tauto).
    apply py_in_spec in Hin. congruence.
Qed.

Lemma indicesY_of_sorted (indep_set : list nat * list nat) (j jj : nat) :
  StronglySorted lt (indicesY_of indep_set j jj).
Proof.
  unfold indicesY_of. destruct (py_in _ _); [apply setdiff1d_sorted | constructor].
Qed.

Lemma indicesX_of_sorted (indep_set : list nat * list nat) (j jj : nat) :
  StronglySorted lt (indicesX_of indep_set j jj).
Proof.
  unfold indicesX_of. destruct (py_in _ _); [apply setdiff1d_sorted | constructor].
Qed.

(** ** One pair of the main step *)

Lemma invocations_call {S} self (args : result run_test_raw_args) (s : S) :
  invocations (a <- lift args ;; test_result <- engine self a ;; ret (s, test_result))
  = match args with
    | Ok a => [a]
    | Raise _ => []
    end.
Proof.
  destruct args as [a | e]; [| reflexivity].
  rewrite invocations_bind, outcome_lift. simpl.
  destruct (run_test_raw _ _ a); reflexivity.
Qed.

Lemma outcome_call {S} self (args : result run_test_raw_args) (s : S) :
  outcome (a <- lift args ;; test_result <- engine self a ;; ret (s, test_result))
  = match args with
    | Ok a =>
        match run_test_raw (cond_ind_test self) (ci_significance (cond_ind_test self)) a with
        | Ok r => Ok (s, r)
        | Raise e => Raise e
        end
    | Raise e => Raise e
    end.
Proof.
  destruct args as [a | e]; [| reflexivity].
  rewrite outcome_bind, outcome_lift, outcome_bind.
  change (outcome (engine self a))
    with (run_test_raw (cond_ind_test self) (ci_significance (cond_ind_test self)) a).
  destruct (run_test_raw _ _ a); reflexivity.
Qed.

Lemma main_args_fields self ftb array xyz dt z zt j jj a :
  main_args self ftb array xyz dt z zt j jj = Ok a ->
  reshape (n_main self array) 1 (nth j (x_s2 self array xyz) []) = Ok (arg_x a) /\
  reshape (n_main self array) 1 (nth jj (y_s2 self array xyz) []) = Ok (arg_y a) /\
  z = Ok (arg_z a) /\
  arg_x_type a = x_type_s2 self array xyz dt /\
  arg_y_type a = y_type_s2 self array xyz dt /\
  arg_z_type a = zt /\
  arg_alpha_or_thres a = dummy_thres ftb.
Proof.
  unfold main_args.
  destruct (reshape _ 1 (nth j _ [])) as [x | e]; [| discriminate].
  destruct (reshape _ 1 (nth jj _ [])) as [y | e]; [| discriminate].
  destruct z as [z | e]; [| discriminate].
  intros H. inversion H; subst; simpl. repeat split.
Qed.

(** The three forms of the body of the main-step loop, by the sizes of the
    two index sets. *)
Lemma main_pair_both_empty self ftb array xyz dt indep_set zt j jj :
  indicesX_of indep_set j jj = [] -> indicesY_of indep_set j jj = [] ->
  main_pair self ftb array xyz dt indep_set zt j jj =
  (a <- lift (main_args self ftb array xyz dt
                (reshape (n_main self array) (dim_z xyz) (concat (z_s2 self array xyz)))
                zt j jj) ;;
   test_result <- engine self a ;;
   ret (zt, test_result)).
Proof. intros HX HY. unfold main_pair. rewrite HX, HY. reflexivity. Qed.

Lemma main_pair_x_side self ftb array xyz dt indep_set zt j jj :
  (length (indicesX_of indep_set j jj) > length (indicesY_of indep_set j jj))%nat ->
  main_pair self ftb array xyz dt indep_set zt j jj =
  (_z_type <- lift (assign_z_type self array xyz dt zt (indicesX_of indep_set j jj)) ;;
   a <- lift (main_args self ftb array xyz dt
                (augmented_z self array xyz (x_s2 self array xyz)
                             (indicesX_of indep_set j jj))
                zt j jj) ;;
   test_result <- engine self a ;;
   ret (zt, test_result)).
Proof.
  intros H. unfold main_pair.
  assert (E1 : (0 <? length (indicesX_of indep_set j jj)
                     + length (indicesY_of indep_set j jj))%nat = true)
    by (apply Nat.ltb_lt; lia).
  assert (E2 : (length (indicesY_of indep_set j jj)
                <? length (indicesX_of indep_set j jj))%nat = true)
    by (apply Nat.ltb_lt; lia).
  rewrite E1, E2. reflexivity.
Qed.

Lemma main_pair_y_side self ftb array xyz dt indep_set zt j jj :
  (0 < length (indicesX_of indep_set j jj) + length (indicesY_of indep_set j jj))%nat ->
  (length (indicesX_of indep_set j jj) <= length (indicesY_of indep_set j jj))%nat ->
  main_pair self ftb array xyz dt indep_set zt j jj =
  (zt' <- lift (extend_z_type self array xyz dt zt (indicesY_of indep_set j jj)) ;;
   a <- lift (main_args self ftb array xyz dt
                (augmented_z self array xyz (y_s2 self array xyz)
                             (indicesY_of indep_set j jj))
                zt' j jj) ;;
   test_result <- engine self a ;;
   ret (zt', test_result)).
Proof.
  intros H0 H. unfold main_pair.
  assert (E1 : (0 <? length (indicesX_of indep_set j jj)
                     + length (indicesY_of indep_set j jj))%nat = true)
    by (apply Nat.ltb_lt; lia).
  assert (E2 : (length (indicesY_of indep_set j jj)
                <? length (indicesX_of indep_set j jj))%nat = false)
    by (apply Nat.ltb_ge; lia).
  rewrite E1, E2. reflexivity.
Qed.

Lemma invocations_after_lift {A B} (r : result A) (k : A -> M B) :
  invocations (x <- lift r ;; k x)
  = match r with
    | Ok x => invocations (k x)
    | Raise _ => []
    end.
Proof. destruct r; reflexivity. Qed.

Lemma outcome_after_lift {A B} (r : result A) (k : A -> M B) :
  outcome (x <- lift r ;; k x)
  = match r with
    | Ok x => outcome (k x)
    | Raise e => Raise e
    end.
Proof. destruct r; reflexivity. Qed.

(** What one pair of the main step passes to the engine as [z], by case. *)
Lemma main_pair_invocations self ftb array xyz dt indep_set zt j jj :
  let indicesX := indicesX_of indep_set j jj in
  let indicesY := indicesY_of indep_set j jj in
  let expected_z :=
    if (0 <? length indicesX + length indicesY)%nat
    then if (length indicesY <? length indicesX)%nat
         then augmented_z self array xyz (x_s2 self array xyz) indicesX
         else augmented_z self array xyz (y_s2 self array xyz) indicesY
    else reshape (n_main self array) (dim_z xyz) (concat (z_s2 self array xyz)) in
  (invocations (main_pair self ftb array xyz dt indep_set zt j jj) = [] \/
   exists a, invocations (main_pair self ftb array xyz dt indep_set zt j jj) = [a] /\
             expected_z = Ok (arg_z a)) /\
  (forall r, outcome (main_pair self ftb array xyz dt indep_set zt j jj) = Ok r ->
     exists a, invocations (main_pair self ftb array xyz dt indep_set zt j jj) = [a]).
Proof.
  intros indicesX indicesY expected_z. subst expected_z.
  unfold main_pair. fold indicesX indicesY.
  destruct (0 <? length indicesX + length indicesY)%nat.
  - destruct (length indicesY <? length indicesX)%nat.
    + rewrite invocations_after_lift, outcome_after_lift.
      destruct (assign_z_type _ _ _ _ _ _) as [zt0 | e].
      * rewrite invocations_call, outcome_call.
        destruct (main_args _ _ _ _ _ _ _ _ _) as [a | e] eqn:Ea.
        -- apply main_args_fields in Ea. split.
           ++ right. exists a. split; [reflexivity | tauto].
           ++ intros r _. exists a. reflexivity.
        -- split; [left; reflexivity | discriminate].
      * split; [left; reflexivity | discriminate].
    + rewrite invocations_after_lift, outcome_after_lift.
      destruct (extend_z_type _ _ _ _ _ _) as [zt0 | e].
      * rewrite invocations_call, outcome_call.
        destruct (main_args _ _ _ _ _ _ _ _ _) as [a | e] eqn:Ea.
        -- apply main_args_fields in Ea. split.
           ++ right. exists a. split; [reflexivity | tauto].
           ++ intros r _. exists a. reflexivity.
        -- split; [left; reflexivity | discriminate].
      * split; [left; reflexivity | discriminate].
  - rewrite invocations_call, outcome_call.
    destruct (main_args _ _ _ _ _ _ _ _ _) as [a | e] eqn:Ea.
    + apply main_args_fields in Ea. split.
      * right. exists a. split; [reflexivity | tauto].
      * intros r _. exists a. reflexivity.
    + split; [left; reflexivity | discriminate].
Qed.

Lemma augmented_z_Ok self array xyz side indices z :
  augmented_z self array xyz side indices = Ok z <->
  exists zb aux,
    reshape (n_main self array) (dim_z xyz) (concat (z_s2 self array xyz)) = Ok zb /\
    reshape (n_main self array) (length indices) (concat (take_rows side indices)) = Ok aux /\
    z = hstack zb aux.
Proof.
  unfold augmented_z.
  destruct (reshape _ (dim_z xyz) _) as [zb | e].
  - destruct (reshape _ (length indices) _) as [aux | e].
    + split.
      * intros H. inversion H. exists zb, aux. repeat split.
      * intros (zb' & aux' & H1 & H2 & ->). inversion H1; inversion H2. reflexivity.
    + split; [discriminate |]. intros (zb' & aux' & _ & H2 & _). discriminate.
  - split; [discriminate |]. intros (zb' & aux' & H1 & _). discriminate.
Qed.



(** C4 (defect of the code).  With type tags supplied (the second row of the
    array discrete, the others continuous) and every pair found independent
    in the pre-step:
    - with two X components, the pair [(0, 0)] conditions on Z and the
      X component 1, and the engine receives the type tags of Z alone
      ([[0]]) where Z's tags followed by those of X component 1 ([[0; 1]])
      are due: line 221 assigns the concatenation to [z_type], line 229
      passes [z_type_s2];
    - with two Y components, the pair [(0, 1)] conditions on Z and the
      Y component 0, and the engine receives [[0; 0; 1]] where [[0; 1]] is
      due: line 241 has overwritten [z_type_s2] while the pair [(0, 0)] was
      evaluated. *)
Theorem auxiliary_type_tags_defect :
  (exists a,
      nth_error (invocations (snd (calculate_dep_measure_and_significance
                                     p_value_test sample_array xyz_two_x
                                     (Some sample_types)))) 2 = Some a /\
      indicesX_of (np_where [[true]; [true]]) 0 0 = [1%nat] /\
      arg_z a = [[7; 2]] /\
      arg_z_type a = Some [[0%Z]] /\
      expected_z_type
        (z_type_s2 p_value_test sample_array xyz_two_x (Some sample_types))
        (x_type_s2 p_value_test sample_array xyz_two_x (Some sample_types))
        [1%nat] = Some [[0%Z; 1%Z]]) /\
  (exists a,
      nth_error (invocations (snd (calculate_dep_measure_and_significance
                                     p_value_test sample_array xyz_two_y
                                     (Some sample_types)))) 3 = Some a /\
      indicesY_of (np_where [[true; true]]) 0 1 = [0%nat] /\
      arg_z a = [[7; 2]] /\
      arg_z_type a = Some [[0%Z; 0%Z; 1%Z]] /\
      expected_z_type
        (z_type_s2 p_value_test sample_array xyz_two_y (Some sample_types))
        (y_type_s2 p_value_test sample_array xyz_two_y (Some sample_types))
        [0%nat] = Some [[0%Z; 1%Z]]).
Proof.
  split.
  - exists (mk_args [[1]] [[5]] [[7; 2]] (Some [[0; 1]]%Z) (Some [[0]]%Z)
                    (Some [[0]]%Z) None).
    repeat (split; [reflexivity |]). reflexivity.
  - exists (mk_args [[1]] [[5]] [[7; 2]] (Some [[0]]%Z) (Some [[1; 0]]%Z)
                    (Some [[0; 0; 1]]%Z) None).
    repeat (split; [reflexivity |]). reflexivity.
Qed.

(** ** Evaluations that return *)

Lemma where_eq_bound {A} (eqb : A -> A -> bool) (k : A) (v : list A) (i : nat) :
  In i (where_eq eqb k v) -> (i < length v)%nat.
Proof.
  unfold where_eq. rewrite in_map_iff. intros ([i' x] & E & H). simpl in E. subst i'.
  apply filter_In in H. destruct H as [H _].
  apply combine_seq0_nth_error in H. apply nth_error_Some. congruence.
Qed.

Lemma concat_length_uniform {A} (n : nat) (m : matrix A) :
  Forall (fun r => length r = n) m -> length (concat m) = (length m * n)%nat.
Proof.
  induction 1 as [| r m Hr _ IH]; simpl; [reflexivity |].
  rewrite length_app, IH, Hr. reflexivity.
Qed.

Lemma take_rows_uniform {A} (n : nat) (m : matrix A) (idx : list nat) :
  Forall (fun r => length r = n) m ->
  Forall (fun i => (i < length m)%nat) idx ->
  Forall (fun r => length r = n) (take_rows m idx).
Proof.
  intros Hm Hidx. unfold take_rows. apply Forall_forall. intros r Hr.
  apply in_map_iff in Hr. destruct Hr as (i & <- & Hi).
  rewrite Forall_forall in Hm, Hidx. apply Hm. apply nth_In. apply Hidx. exact Hi.
Qed.

Lemma take_rows_length {A} (m : matrix A) (idx : list nat) :
  length (take_rows m idx) = length idx.
Proof. apply length_map. Qed.

Lemma slice_cols_uniform {A} (lo hi : Z) (n : nat) (m : matrix A) :
  (forall row, In row m -> length (py_slice lo hi row) = n) ->
  Forall (fun r => length r = n) (slice_cols lo hi m).
Proof.
  intros H. unfold slice_cols. apply Forall_forall. intros r Hr.
  apply in_map_iff in Hr. destruct Hr as (row & <- & Hrow). apply H. exact Hrow.
Qed.

Lemma reshape_Ok {A} (r : Z) (c : nat) (flat : list A) :
  (0 <= r)%Z -> (Z.to_nat r * c)%nat = length flat ->
  reshape r c flat = Ok (chunks (Z.to_nat r) c flat).
Proof.
  intros Hr Hlen. unfold reshape.
  assert (E1 : (0 <=? r)%Z = true) by (apply Z.leb_le; exact Hr).
  assert (E2 : (Z.to_nat r * c =? length flat)%nat = true)
    by (apply Nat.eqb_eq; exact Hlen).
  rewrite E1, E2. reflexivity.
Qed.

Lemma nth_uniform {A} (n j : nat) (m : matrix A) :
  Forall (fun r => length r = n) m -> (j < length m)%nat -> length (nth j m []) = n.
Proof.
  intros Hm Hj. rewrite Forall_forall in Hm. apply Hm. apply nth_In. exact Hj.
Qed.

Section Blocks.

Variable self : PairwiseMultCI.
Variable array : matrix Q.
Variable xyz : list Z.
Hypothesis Hlen : length xyz = length array.
Hypothesis Hrows : Forall (fun row => length row = shape1 array) array.
Hypothesis Hsplit :
  (0 <= size_first_block self array <= Z.of_nat (T array))%Z.

Lemma array_s1_uniform : Forall (fun r => length r = (pre_rows self array)) (array_s1 self array).
Proof.
  unfold array_s1. apply slice_cols_uniform. intros row Hrow.
  rewrite Forall_forall in Hrows. specialize (Hrows row Hrow).
  unfold T in Hsplit.
  rewrite py_slice_head by (rewrite Hrows; exact Hsplit).
  rewrite length_firstn. unfold pre_rows. lia.
Qed.

Lemma array_s2_uniform : Forall (fun r => length r = (main_rows self array)) (array_s2 self array).
Proof.
  unfold array_s2. apply slice_cols_uniform. intros row Hrow.
  rewrite Forall_forall in Hrows. specialize (Hrows row Hrow).
  unfold T in *. rewrite <- Hrows.
  rewrite py_slice_tail by (rewrite Hrows; exact Hsplit).
  rewrite length_skipn. unfold main_rows, n_main, T. lia.
Qed.

Lemma array_s1_length : length (array_s1 self array) = length array.
Proof. apply length_map. Qed.

Lemma array_s2_length : length (array_s2 self array) = length array.
Proof. apply length_map. Qed.

Lemma role_indices_valid (k : Z) :
  Forall (fun i => (i < length array)%nat) (where_eq Z.eqb k xyz).
Proof.
  apply Forall_forall. intros i Hi. apply where_eq_bound in Hi. lia.
Qed.

(** Every block of the pre-step has rows of [split] entries, every block
    of the main step rows of [T - split] entries. *)
Lemma block_s1_uniform (k : Z) :
  Forall (fun r => length r = (pre_rows self array)) (take_rows (array_s1 self array) (where_eq Z.eqb k xyz)).
Proof.
  apply take_rows_uniform; [apply array_s1_uniform |].
  rewrite array_s1_length. apply role_indices_valid.
Qed.

Lemma block_s2_uniform (k : Z) :
  Forall (fun r => length r = (main_rows self array)) (take_rows (array_s2 self array) (where_eq Z.eqb k xyz)).
Proof.
  apply take_rows_uniform; [apply array_s2_uniform |].
  rewrite array_s2_length. apply role_indices_valid.
Qed.

Lemma column_reshape_Ok (r : Z) (n j : nat) (block : matrix Q) :
  (0 <= r)%Z -> n = Z.to_nat r ->
  Forall (fun row => length row = n) block -> (j < length block)%nat ->
  reshape r 1 (nth j block []) = Ok (chunks n 1 (nth j block [])).
Proof.
  intros Hr -> Hb Hj. apply reshape_Ok; [exact Hr |].
  rewrite (nth_uniform _ _ _ Hb Hj). lia.
Qed.

Lemma block_reshape_Ok (r : Z) (n : nat) (block : matrix Q) :
  (0 <= r)%Z -> n = Z.to_nat r ->
  Forall (fun row => length row = n) block ->
  reshape r (length block) (concat block) = Ok (chunks n (length block) (concat block)).
Proof.
  intros Hr -> Hb. apply reshape_Ok; [exact Hr |].
  rewrite (concat_length_uniform _ _ Hb). lia.
Qed.

Lemma n_main_nonneg : (0 <= n_main self array)%Z.
Proof. unfold n_main. lia. Qed.

Lemma pre_args_Ok ftb dt (j jj : nat) :
  (j < dim_x xyz)%nat -> (jj < dim_y xyz)%nat ->
  exists a, pre_args self ftb array xyz dt j jj = Ok a.
Proof.
  intros Hj Hjj. unfold pre_args.
  rewrite (column_reshape_Ok _ (pre_rows self array) j (x_s1 self array xyz));
    [| lia | reflexivity | apply block_s1_uniform
     | unfold x_s1; rewrite take_rows_length; exact Hj].
  rewrite (column_reshape_Ok _ (pre_rows self array) jj (y_s1 self array xyz));
    [| lia | reflexivity | apply block_s1_uniform
     | unfold y_s1; rewrite take_rows_length; exact Hjj].
  assert (Ez : dim_z xyz = length (z_s1 self array xyz))
    by (unfold z_s1; rewrite take_rows_length; reflexivity).
  rewrite Ez.
  rewrite (block_reshape_Ok _ (pre_rows self array) (z_s1 self array xyz));
    [| lia | reflexivity | apply block_s1_uniform].
  eexists. reflexivity.
Qed.

Lemma z_main_Ok :
  exists zb,
    reshape (n_main self array) (dim_z xyz) (concat (z_s2 self array xyz)) = Ok zb.
Proof.
  assert (Ez : dim_z xyz = length (z_s2 self array xyz))
    by (unfold z_s2; rewrite take_rows_length; reflexivity).
  rewrite Ez.
  rewrite (block_reshape_Ok _ (main_rows self array) (z_s2 self array xyz));
    [| apply n_main_nonneg | reflexivity | apply block_s2_uniform].
  eexists. reflexivity.
Qed.

Lemma augmented_z_is_Ok (k : Z) (indices : list nat) :
  Forall (fun i => (i < length (where_eq Z.eqb k xyz))%nat) indices ->
  exists z,
    augmented_z self array xyz
      (take_rows (array_s2 self array) (where_eq Z.eqb k xyz)) indices = Ok z.
Proof.
  intros Hidx. unfold augmented_z.
  destruct z_main_Ok as [zb ->].
  set (side := take_rows (array_s2 self array) (where_eq Z.eqb k xyz)).
  assert (Hu : Forall (fun r => length r = (main_rows self array)) (take_rows side indices)).
  { apply take_rows_uniform; [apply block_s2_uniform |].
    subst side. rewrite take_rows_length. exact Hidx. }
  rewrite <- (take_rows_length side indices).
  rewrite (block_reshape_Ok _ (main_rows self array) (take_rows side indices));
    [| apply n_main_nonneg | reflexivity | exact Hu].
  eexists. reflexivity.
Qed.

Lemma main_args_Ok ftb dt z zt (j jj : nat) :
  (j < dim_x xyz)%nat -> (jj < dim_y xyz)%nat ->
  exists a, main_args self ftb array xyz dt (Ok z) zt j jj = Ok a.
Proof.
  intros Hj Hjj. unfold main_args.
  rewrite (column_reshape_Ok _ (main_rows self array) j (x_s2 self array xyz));
    [| apply n_main_nonneg | reflexivity | apply block_s2_uniform
     | unfold x_s2; rewrite take_rows_length; exact Hj].
  rewrite (column_reshape_Ok _ (main_rows self array) jj (y_s2 self array xyz));
    [| apply n_main_nonneg | reflexivity | apply block_s2_uniform
     | unfold y_s2; rewrite take_rows_length; exact Hjj].
  eexists. reflexivity.
Qed.

End Blocks.

Lemma for_each_returns {A B} (body : A -> M B) (l : list A) :
  (forall a, In a l -> exists b, outcome (body a) = Ok b) ->
  exists bs, outcome (for_each body l) = Ok bs.
Proof.
  induction l as [| a l IH]; intros H; simpl.
  - exists []. reflexivity.
  - destruct (H a (or_introl eq_refl)) as [b Hb].
    destruct IH as [bs Hbs]; [intros a' Ha'; apply H; right; exact Ha' |].
    exists (b :: bs). rewrite outcome_bind, Hb, outcome_bind, Hbs. reflexivity.
Qed.

Lemma for_acc_returns {S A B} (Inv : S -> Prop) (body : S -> A -> M (S * B)) (l : list A) :
  (forall s a, Inv s -> In a l ->
     exists s' b, outcome (body s a) = Ok (s', b) /\ Inv s') ->
  forall s, Inv s ->
    exists s' bs, outcome (for_acc body s l) = Ok (s', bs) /\ Inv s'.
Proof.
  induction l as [| a l IH]; intros H s Hs; simpl.
  - exists s, []. split; [reflexivity | exact Hs].
  - destruct (H s a Hs (or_introl eq_refl)) as (s1 & b & Hb & Hs1).
    destruct (IH (fun s0 a0 Hs0 Ha0 => H s0 a0 Hs0 (or_intror Ha0)) s1 Hs1)
      as (s2 & bs & Hbs & Hs2).
    exists s2, (b :: bs). split; [| exact Hs2].
    rewrite outcome_bind, Hb, outcome_bind, Hbs. reflexivity.
Qed.

Lemma map_result_returns {A B} (f : A -> result B) (l : list A) :
  (forall a, In a l -> exists b, f a = Ok b) ->
  exists bs, map_result f l = Ok bs.
Proof.
  induction l as [| a l IH]; intros H; simpl.
  - exists []. reflexivity.
  - destruct (H a (or_introl eq_refl)) as [b Hb].
    destruct IH as [bs Hbs]; [intros a' Ha'; apply H; right; exact Ha' |].
    exists (b :: bs). rewrite Hb, Hbs. reflexivity.
Qed.

Lemma in_seq0 (n i : nat) : In i (seq 0 n) <-> (i < n)%nat.
Proof. rewrite in_seq. lia. Qed.

Lemma indep_set_of_returns self (ftb : bool) (pre : matrix Q) :
  (if ftb then fixed_thres_pre self <> None else alpha_pre self <> None) ->
  exists mask, indep_mask self ftb pre = Ok mask /\
               indep_set_of self ftb pre = Ok (np_where mask).
Proof.
  intros Hb. unfold indep_set_of, indep_mask.
  destruct ftb; simpl.
  - destruct (fixed_thres_pre self) as [t |]; [| congruence].
    destruct (map_result_returns
                (map_result (fun v => abs_ge_bound v (Some t))) pre) as [mask Hm].
    { intros row _. apply map_result_returns. intros v _. eexists. reflexivity. }
    exists mask. rewrite Hm. split; reflexivity.
  - destruct (alpha_pre self) as [a |]; [| congruence].
    destruct (map_result_returns
                (map_result (fun p => gt_bound p (Some a))) pre) as [mask Hm].
    { intros row _. apply map_result_returns. intros v _. eexists. reflexivity. }
    exists mask. rewrite Hm. split; reflexivity.
Qed.

Lemma indep_mask_cell_bounds self ftb (pre : matrix Q) (mask : matrix bool) n k j jj :
  length pre = n -> Forall (fun row => length row = k) pre ->
  indep_mask self ftb pre = Ok mask ->
  in_indep_set (np_where mask) j jj -> (j < n)%nat /\ (jj < k)%nat.
Proof.
  intros Hn Hk Hm Hin. apply in_indep_set_np_where in Hin.
  unfold indep_mask in Hm.
  destruct (negb ftb);
    destruct (map_result_matrix_cell _ _ _ Hm j jj) as [H1 _];
    destruct (H1 _ Hin) as (p & Hp & _);
    eapply cell_bounds; eassumption.
Qed.

Section Returning.

Variable self : PairwiseMultCI.
Variable ftb : bool.
Variable array : matrix Q.
Variable xyz : list Z.
Variable dt : option (matrix Z).
Hypothesis Hlen : length xyz = length array.
Hypothesis Hrows : Forall (fun row => length row = shape1 array) array.
Hypothesis Hsplit :
  (0 <= size_first_block self array <= Z.of_nat (T array))%Z.
Hypothesis Hengine : engine_returns (cond_ind_test self).
Hypothesis Hbound :
  if ftb then fixed_thres_pre self <> None else alpha_pre self <> None.

Lemma pre_step_returns :
  exists pre, outcome (pre_step self ftb array xyz dt) = Ok pre.
Proof.
  unfold pre_step. apply for_each_returns. intros j Hj. apply in_seq0 in Hj.
  apply for_each_returns. intros jj Hjj. apply in_seq0 in Hjj.
  destruct (pre_args_Ok self array xyz Hlen Hrows Hsplit ftb dt j jj Hj Hjj) as [a Ha].
  destruct (Hengine (ci_significance (cond_ind_test self)) a) as [r Hr].
  exists (if ftb then fst r else snd r). apply pre_cell_outcome.
  exists a, r. split; [exact Ha |]. split; [exact Hr | reflexivity].
Qed.

Lemma tags_present_initially : tags_present dt (z_type_s2 self array xyz dt).
Proof.
  unfold tags_present, z_type_s2, z_type, type_block.
  destruct dt; [discriminate | exact I].
Qed.

Lemma extend_z_type_returns zt indices :
  tags_present dt zt ->
  exists zt', extend_z_type self array xyz dt zt indices = Ok zt' /\ tags_present dt zt'.
Proof.
  unfold tags_present, extend_z_type, y_type_s2, y_type, type_block.
  destruct dt; simpl.
  - destruct zt as [z |]; [| congruence]. intros _. eexists. split; [reflexivity |].
    discriminate.
  - intros _. exists zt. split; [reflexivity | exact I].
Qed.

Lemma assign_z_type_returns zt indices :
  tags_present dt zt ->
  exists zt', assign_z_type self array xyz dt zt indices = Ok zt'.
Proof.
  unfold tags_present, assign_z_type, x_type_s2, x_type, type_block.
  destruct dt; simpl.
  - destruct zt as [z |]; [| congruence]. intros _. eexists. reflexivity.
  - intros _. eexists. reflexivity.
Qed.

Variable pre : matrix Q.
Variable mask : matrix bool.
Hypothesis Hpre_n : length pre = dim_x xyz.
Hypothesis Hpre_k : Forall (fun row => length row = dim_y xyz) pre.
Hypothesis Hmask : indep_mask self ftb pre = Ok mask.

Lemma indicesX_valid j jj :
  Forall (fun i => (i < length (where_eq Z.eqb 0%Z xyz))%nat)
         (indicesX_of (np_where mask) j jj).
Proof.
  apply Forall_forall. intros j' Hj'. apply indicesX_of_spec in Hj'.
  destruct Hj' as [_ Hin].
  apply (indep_mask_cell_bounds _ _ _ _ _ _ _ _ Hpre_n Hpre_k Hmask) in Hin.
  exact (proj1 Hin).
Qed.

Lemma indicesY_valid j jj :
  Forall (fun i => (i < length (where_eq Z.eqb 1%Z xyz))%nat)
         (indicesY_of (np_where mask) j jj).
Proof.
  apply Forall_forall. intros jj' Hjj'. apply indicesY_of_spec in Hjj'.
  destruct Hjj' as [_ Hin].
  apply (indep_mask_cell_bounds _ _ _ _ _ _ _ _ Hpre_n Hpre_k Hmask) in Hin.
  exact (proj2 Hin).
Qed.

Lemma call_returns {S} z (s : S) zt j jj :
  (j < dim_x xyz)%nat -> (jj < dim_y xyz)%nat ->
  exists r,
    outcome (a <- lift (main_args self ftb array xyz dt (Ok z) zt j jj) ;;
             test_result <- engine self a ;;
             ret (s, test_result)) = Ok (s, r).
Proof.
  intros Hj Hjj. rewrite outcome_call.
  destruct (main_args_Ok self array xyz Hlen Hrows Hsplit ftb dt z zt j jj Hj Hjj)
    as [a ->].
  destruct (Hengine (ci_significance (cond_ind_test self)) a) as [r ->].
  exists r. reflexivity.
Qed.

Lemma main_pair_returns zt j jj :
  tags_present dt zt -> (j < dim_x xyz)%nat -> (jj < dim_y xyz)%nat ->
  exists zt' r,
    outcome (main_pair self ftb array xyz dt (np_where mask) zt j jj) = Ok (zt', r) /\
    tags_present dt zt'.
Proof.
  intros Hzt Hj Hjj. unfold main_pair.
  destruct (0 <? _)%nat.
  - destruct (_ <? _)%nat.
    + rewrite outcome_after_lift.
      destruct (assign_z_type_returns zt (indicesX_of (np_where mask) j jj) Hzt)
        as [zt0 ->].
      destruct (augmented_z_is_Ok self array xyz Hlen Hrows Hsplit 0%Z _
                  (indicesX_valid j jj)) as [z Hz].
      fold (x_indices xyz) (x_s2 self array xyz) in Hz. rewrite Hz.
      destruct (call_returns z zt zt j jj Hj Hjj) as [r Hr].
      exists zt, r. split; [exact Hr | exact Hzt].
    + rewrite outcome_after_lift.
      destruct (extend_z_type_returns zt (indicesY_of (np_where mask) j jj) Hzt)
        as (zt' & -> & Hzt').
      destruct (augmented_z_is_Ok self array xyz Hlen Hrows Hsplit 1%Z _
                  (indicesY_valid j jj)) as [z Hz].
      fold (y_indices xyz) (y_s2 self array xyz) in Hz. rewrite Hz.
      destruct (call_returns z zt' zt' j jj Hj Hjj) as [r Hr].
      exists zt', r. split; [exact Hr | exact Hzt'].
  - destruct (z_main_Ok self array xyz Hlen Hrows Hsplit) as [z ->].
    destruct (call_returns z zt zt j jj Hj Hjj) as [r Hr].
    exists zt, r. split; [exact Hr | exact Hzt].
Qed.

Lemma main_step_returns :
  exists zt results,
    outcome (main_step self ftb array xyz dt (np_where mask)) = Ok (zt, results).
Proof.
  unfold main_step.
  destruct (for_acc_returns (tags_present dt)
              (fun zt j =>
                 for_acc (fun zt jj => main_pair self ftb array xyz dt (np_where mask) zt j jj)
                         zt (seq 0 (dim_y xyz)))
              (seq 0 (dim_x xyz))) with (s := z_type_s2 self array xyz dt)
    as (zt & results & H & _).
  - intros s j Hs Hj. apply in_seq0 in Hj.
    apply (for_acc_returns (tags_present dt)); [| exact Hs].
    intros s0 jj Hs0 Hjj. apply in_seq0 in Hjj.
    apply main_pair_returns; assumption.
  - apply tags_present_initially.
  - exists zt, results. exact H.
Qed.

End Returning.

Lemma aggregate_returns self ftb xyz (results : matrix (Q * Q)) :
  length results = dim_x xyz ->
  Forall (fun row => length row = dim_y xyz) results ->
  (1 <= dim_x xyz)%nat -> (1 <= dim_y xyz)%nat ->
  exists stat sig, aggregate self ftb xyz results = Ok (stat, sig).
Proof.
  intros Hn Hk Hx Hy.
  destruct results as [| row results]; [simpl in Hn; lia |].
  inversion Hk as [| r0 l0 Hrow _]; subst.
  destruct row as [| r row]; [simpl in Hrow; lia |].
  unfold aggregate, test_stats_main, p_vals_main. simpl.
  destruct (negb _); destruct ftb; eexists; eexists; reflexivity.
Qed.

Lemma evaluate_returns self (ftb : bool) array xyz dt :
  length xyz = length array ->
  Forall (fun row => length row = shape1 array) array ->
  (0 <= size_first_block self array <= Z.of_nat (T array))%Z ->
  (1 <= dim_x xyz)%nat -> (1 <= dim_y xyz)%nat ->
  engine_returns (cond_ind_test self) ->
  (if ftb then fixed_thres_pre self <> None else alpha_pre self <> None) ->
  exists stat sig, outcome (evaluate self ftb array xyz dt) = Ok (stat, sig).
Proof.
  intros Hlen Hrows Hsplit Hx Hy Hengine Hbound.
  destruct (pre_step_returns self ftb array xyz dt Hlen Hrows Hsplit Hengine)
    as [pre Hpre].
  destruct (pre_step_shape _ _ _ _ _ _ Hpre) as [Hn Hk].
  destruct (indep_set_of_returns self ftb pre Hbound) as (mask & Hmask & Hset).
  destruct (main_step_returns self ftb array xyz dt Hlen Hrows Hsplit Hengine
              pre mask Hn Hk Hmask) as (zt & results & Hmain).
  assert (Hres : outcome (main_results self ftb array xyz dt) = Ok results).
  { apply main_results_outcome. exists pre, (np_where mask), zt.
    split; [exact Hpre |]. split; [exact Hset | exact Hmain]. }
  destruct (main_results_shape _ _ _ _ _ _ Hres) as [Rn Rk].
  destruct (aggregate_returns self ftb xyz results Rn Rk Hx Hy) as (stat & sig & Hagg).
  exists stat, sig. unfold evaluate. rewrite outcome_bind, Hres, outcome_lift.
  exact Hagg.
Qed.

Lemma size_first_block_resolved self array :
  size_first_block (fst (resolve_regime self)) array = size_first_block self array.
Proof.
  unfold size_first_block.
  pose proof (resolve_regime_frame self) as F. cbv zeta in F.
  destruct F as (_ & _ & _ & F & _). rewrite F. reflexivity.
Qed.

(** C5, as stated, fails: with [T = 2], the fraction 1/4 gives [split = 0]
    and the fraction 1 gives [split = T], and both evaluations return. *)
Lemma degenerate_split_returns :
  size_first_block quarter_fraction_test sample_array = 0%Z /\
  outcome (snd (calculate_dep_measure_and_significance
                  quarter_fraction_test sample_array xyz_two_y None))
  = Ok (7, Some 1) /\
  size_first_block full_fraction_test sample_array = Z.of_nat (T sample_array) /\
  outcome (snd (calculate_dep_measure_and_significance
                  full_fraction_test sample_array xyz_two_y None))
  = Ok (0, Some 1).
Proof. repeat (split; [reflexivity |]). reflexivity. Qed.

(** C5, amended.  Nothing in the evaluation checks the split.  On a
    well-formed input with [split = 0] or [split = T], with at least one X
    and one Y component, the bound of the active regime supplied and an
    engine that returns on every call, the evaluation returns a pair. *)
Theorem degenerate_split_is_evaluated :
  forall self array xyz data_type,
    well_formed array xyz data_type ->
    (size_first_block self array = 0%Z \/
     size_first_block self array = Z.of_nat (T array)) ->
    (1 <= dim_x xyz)%nat -> (1 <= dim_y xyz)%nat ->
    engine_returns (cond_ind_test self) ->
    threshold_supplied self ->
    exists stat sig,
      outcome (snd (calculate_dep_measure_and_significance self array xyz data_type))
      = Ok (stat, sig).
Proof.
  intros self array xyz data_type (Hlen & Hrows & _) Hsplit Hx Hy Hengine Hbound.
  rewrite calculate_result.
  pose proof (resolve_regime_frame self) as F. cbv zeta in F.
  destruct F as (_ & F2 & F3 & _ & F5 & _).
  unfold threshold_supplied in Hbound. rewrite <- resolve_regime_flag in Hbound.
  assert (E : snd (resolve_regime self) &&
              match fixed_thres_pre self with None => true | Some _ => false end = false).
  { destruct (snd (resolve_regime self)); [| reflexivity].
    destruct (fixed_thres_pre self); [reflexivity | congruence]. }
  rewrite E. apply evaluate_returns.
  - exact Hlen.
  - exact Hrows.
  - rewrite size_first_block_resolved. destruct Hsplit as [-> | ->]; lia.
  - exact Hx.
  - exact Hy.
  - intros tag a. rewrite F2. apply Hengine.
  - rewrite F3, F5. exact Hbound.
Qed.

(** [degenerate_split_is_evaluated] applied to a concrete evaluation. *)
Lemma degenerate_split_is_evaluated_witness :
  exists stat sig,
    outcome (snd (calculate_dep_measure_and_significance
                    quarter_fraction_test sample_array xyz_two_y (Some sample_types)))
    = Ok (stat, sig).
Proof.
  apply degenerate_split_is_evaluated.
  - split; [reflexivity |]. split; [repeat constructor |].
    split; [reflexivity | repeat constructor].
  - left. reflexivity.
  - vm_compute. lia.
  - vm_compute. lia.
  - intros tag a. eexists. reflexivity.
  - discriminate.
Defined.

(** ** Exchanging the roles of X and Y *)

Lemma first_z_engine_symmetric (tag : string) : symmetric_engine (first_z_engine tag).
Proof. intros t a. reflexivity. Qed.

(** C9, as stated, fails: with two X and two Y components all found
    independent, every pair has [lix = liy = 1], the tie selects the Y side,
    and the exchanged run conditions on the other vector. *)
Lemma role_swap_invariant_fails :
  ~ role_swap_invariant p_value_test sample_array xyz_two_two None.
Proof.
  intros H.
  destruct (H (first_z_engine_symmetric "analytic") 7 (Some 1) eq_refl)
    as (stat' & sig' & Hrun & Heq).
  vm_compute in Hrun. inversion Hrun; subst. vm_compute in Heq. discriminate Heq.
Qed.

Lemma where_eq_map {A B} (eqa : A -> A -> bool) (eqb : B -> B -> bool)
  (f : A -> B) (ka : A) (kb : B) (v : list A) :
  (forall a, eqb (f a) kb = eqa a ka) ->
  where_eq eqb kb (map f v) = where_eq eqa ka v.
Proof.
  intros Hf. unfold where_eq. rewrite length_map.
  generalize 0%nat. induction v as [| a v IH]; intros s; simpl; [reflexivity |].
  rewrite Hf. destruct (eqa a ka); simpl; rewrite IH; reflexivity.
Qed.

Lemma swap_role_is_0 (r : Z) : (swap_role r =? 0)%Z = (r =? 1)%Z.
Proof.
  unfold swap_role.
  destruct (r =? 0)%Z eqn:E0; [apply Z.eqb_eq in E0; subst; reflexivity |].
  destruct (r =? 1)%Z eqn:E1; [reflexivity | exact E0].
Qed.

Lemma swap_role_is_1 (r : Z) : (swap_role r =? 1)%Z = (r =? 0)%Z.
Proof.
  unfold swap_role.
  destruct (r =? 0)%Z eqn:E0; [reflexivity |].
  destruct (r =? 1)%Z eqn:E1; [reflexivity | exact E1].
Qed.

Lemma swap_role_is_2 (r : Z) : (swap_role r =? 2)%Z = (r =? 2)%Z.
Proof.
  unfold swap_role.
  destruct (r =? 0)%Z eqn:E0; [apply Z.eqb_eq in E0; subst; reflexivity |].
  destruct (r =? 1)%Z eqn:E1; [apply Z.eqb_eq in E1; subst; reflexivity | reflexivity].
Qed.

Lemma x_indices_swap (xyz : list Z) : x_indices (swap_roles xyz) = y_indices xyz.
Proof. apply where_eq_map, swap_role_is_0. Qed.

Lemma y_indices_swap (xyz : list Z) : y_indices (swap_roles xyz) = x_indices xyz.
Proof. apply where_eq_map, swap_role_is_1. Qed.

Lemma z_indices_swap (xyz : list Z) : z_indices (swap_roles xyz) = z_indices xyz.
Proof. apply where_eq_map, swap_role_is_2. Qed.

Lemma dim_x_swap (xyz : list Z) : dim_x (swap_roles xyz) = dim_y xyz.
Proof. unfold dim_x, dim_y. rewrite x_indices_swap. reflexivity. Qed.

Lemma dim_y_swap (xyz : list Z) : dim_y (swap_roles xyz) = dim_x xyz.
Proof. unfold dim_x, dim_y. rewrite y_indices_swap. reflexivity. Qed.

Lemma dim_z_swap (xyz : list Z) : dim_z (swap_roles xyz) = dim_z xyz.
Proof. unfold dim_z. rewrite z_indices_swap. reflexivity. Qed.

Lemma x_s1_swap self array xyz : x_s1 self array (swap_roles xyz) = y_s1 self array xyz.
Proof. unfold x_s1, y_s1. rewrite x_indices_swap. reflexivity. Qed.

Lemma y_s1_swap self array xyz : y_s1 self array (swap_roles xyz) = x_s1 self array xyz.
Proof. unfold x_s1, y_s1. rewrite y_indices_swap. reflexivity. Qed.

Lemma z_s1_swap self array xyz : z_s1 self array (swap_roles xyz) = z_s1 self array xyz.
Proof. unfold z_s1. rewrite z_indices_swap. reflexivity. Qed.

Lemma x_s2_swap self array xyz : x_s2 self array (swap_roles xyz) = y_s2 self array xyz.
Proof. unfold x_s2, y_s2. rewrite x_indices_swap. reflexivity. Qed.

Lemma y_s2_swap self array xyz : y_s2 self array (swap_roles xyz) = x_s2 self array xyz.
Proof. unfold x_s2, y_s2. rewrite y_indices_swap. reflexivity. Qed.

Lemma z_s2_swap self array xyz : z_s2 self array (swap_roles xyz) = z_s2 self array xyz.
Proof. unfold z_s2. rewrite z_indices_swap. reflexivity. Qed.

Lemma pre_args_swap self ftb array xyz j jj a :
  pre_args self ftb array xyz None j jj = Ok a ->
  pre_args self ftb array (swap_roles xyz) None jj j = Ok (swap_xy a).
Proof.
  unfold pre_args. rewrite x_s1_swap, y_s1_swap, z_s1_swap, dim_z_swap.
  destruct (reshape _ 1 (nth j (x_s1 self array xyz) [])) as [x | e]; [| discriminate].
  destruct (reshape _ 1 (nth jj (y_s1 self array xyz) [])) as [y | e]; [| discriminate].
  destruct (reshape _ (dim_z xyz) _) as [z | e]; [| discriminate].
  intros H. inversion H. reflexivity.
Qed.

Lemma pre_cell_swap self ftb array xyz j jj p :
  symmetric_engine (cond_ind_test self) ->
  outcome (pre_cell self ftb array xyz None j jj) = Ok p ->
  outcome (pre_cell self ftb array (swap_roles xyz) None jj j) = Ok p.
Proof.
  intros Hsym H. apply pre_cell_outcome in H. destruct H as (a & r & Ha & Hr & Hp).
  apply pre_cell_outcome. exists (swap_xy a), r.
  split; [apply pre_args_swap; exact Ha |].
  split; [rewrite Hsym; exact Hr | exact Hp].
Qed.

(** *** Transposed matrices *)

Lemma transpose_length {A} (d : A) (k : nat) (m : matrix A) :
  length (transpose d k m) = k.
Proof. unfold transpose. rewrite length_map, length_seq. reflexivity. Qed.

Lemma transpose_rows {A} (d : A) (k : nat) (m : matrix A) :
  Forall (fun row => length row = length m) (transpose d k m).
Proof.
  unfold transpose. apply Forall_forall. intros row Hrow.
  apply in_map_iff in Hrow. destruct Hrow as (c & <- & _). apply length_map.
Qed.

Lemma cell_transpose {A} (d : A) (k : nat) (m : matrix A) (j jj : nat) (x : A) :
  Forall (fun row => length row = k) m ->
  cell (transpose d k m) jj j = Some x <-> cell m j jj = Some x.
Proof.
  intros Hk. unfold cell at 1, transpose. rewrite nth_error_map.
  destruct (nth_error (seq 0 k) jj) as [c |] eqn:Ec; simpl.
  - apply nth_error_seq0 in Ec. destruct Ec as [Hjj ->].
    rewrite nth_error_map. unfold cell.
    destruct (nth_error m j) as [row |] eqn:Er; simpl; [| tauto].
    assert (Hrow : length row = k).
    { rewrite Forall_forall in Hk. apply Hk. eapply nth_error_In. exact Er. }
    rewrite (nth_error_nth' row d) by lia. tauto.
  - split; [discriminate |]. intros H. exfalso.
    apply cell_Some in H. destruct H as (row & Hr & Hx).
    assert (Hrow : length row = k).
    { rewrite Forall_forall in Hk. apply Hk. eapply nth_error_In. exact Hr. }
    assert (jj < k)%nat by (rewrite <- Hrow; apply nth_error_Some; congruence).
    assert (E : nth_error (seq 0 k) jj = Some jj)
      by (apply nth_error_seq0; split; [assumption | reflexivity]).
    congruence.
Qed.

Lemma pre_step_swap self ftb array xyz pre :
  symmetric_engine (cond_ind_test self) ->
  outcome (pre_step self ftb array xyz None) = Ok pre ->
  outcome (pre_step self ftb array (swap_roles xyz) None)
  = Ok (transpose 0 (dim_y xyz) pre).
Proof.
  intros Hsym H. unfold pre_step in *. apply nested_for_each_outcome in H.
  destruct H as (Hn & Hk & Hcells).
  rewrite dim_x_swap, dim_y_swap. apply nested_for_each_outcome.
  split; [apply transpose_length |]. split.
  - rewrite <- Hn. apply transpose_rows.
  - intros jj j p Hc. apply cell_transpose in Hc; [| exact Hk].
    apply pre_cell_swap; [exact Hsym |]. apply Hcells. exact Hc.
Qed.

Lemma map_result_matrix_shape {A B} (f : A -> result B) (n k : nat)
  (m : matrix A) (m' : matrix B) :
  length m = n -> Forall (fun row => length row = k) m ->
  (map_result (map_result f) m = Ok m' <->
   length m' = n /\
   Forall (fun row => length row = k) m' /\
   forall j jj p, cell m j jj = Some p ->
     exists b, cell m' j jj = Some b /\ f p = Ok b).
Proof.
  intros Hn Hk. split.
  - intros H. pose proof (map_result_matrix_cell _ _ _ H) as Hc.
    apply map_result_Forall2, Forall2_nth_error in H. destruct H as [Hlen H].
    split; [congruence |]. split.
    + apply Forall_forall. intros row' Hin. apply In_nth_error in Hin.
      destruct Hin as [i Hi].
      destruct (nth_error m i) as [row |] eqn:Er.
      * specialize (H i row row' Er Hi).
        apply map_result_Forall2, Forall2_nth_error in H. destruct H as [Hl _].
        rewrite <- Hl. rewrite Forall_forall in Hk. apply Hk.
        eapply nth_error_In. exact Er.
      * apply nth_error_None in Er.
        assert (i < length m')%nat by (apply nth_error_Some; congruence). lia.
    + intros j jj p Hp. apply (proj2 (Hc j jj)). exact Hp.
  - intros (Hn' & Hk' & Hc).
    apply map_result_Forall2, Forall2_nth_error. split; [congruence |].
    intros i row row' Hrow Hrow'.
    apply map_result_Forall2, Forall2_nth_error.
    rewrite Forall_forall in Hk, Hk'. split.
    + rewrite (Hk row), (Hk' row'); [reflexivity | |]; eapply nth_error_In; eassumption.
    + intros c p b Hp Hb.
      destruct (Hc i c p) as (b' & Hb' & Hf).
      { apply cell_Some. exists row. tauto. }
      apply cell_Some in Hb'. destruct Hb' as (row0 & H0 & H1).
      rewrite Hrow' in H0. inversion H0; subst row0. congruence.
Qed.

Lemma map_result_matrix_transpose {A B} (f : A -> result B) (d : A) (d' : B)
  (n k : nat) (m : matrix A) (m' : matrix B) :
  length m = n -> Forall (fun row => length row = k) m ->
  map_result (map_result f) m = Ok m' ->
  map_result (map_result f) (transpose d k m) = Ok (transpose d' k m').
Proof.
  intros Hn Hk H.
  apply (map_result_matrix_shape f n k m m' Hn Hk) in H.
  destruct H as (Hn' & Hk' & Hc).
  apply (map_result_matrix_shape f k n).
  - apply transpose_length.
  - rewrite <- Hn. apply transpose_rows.
  - split; [apply transpose_length |]. split.
    + rewrite <- Hn'. apply transpose_rows.
    + intros jj j p Hp. apply cell_transpose in Hp; [| exact Hk].
      destruct (Hc j jj p Hp) as (b & Hb & Hf). exists b. split; [| exact Hf].
      apply cell_transpose; assumption.
Qed.

Lemma indep_mask_shape self ftb (pre : matrix Q) (mask : matrix bool) (n k : nat) :
  length pre = n -> Forall (fun row => length row = k) pre ->
  indep_mask self ftb pre = Ok mask ->
  length mask = n /\ Forall (fun row => length row = k) mask.
Proof.
  intros Hn Hk H. unfold indep_mask in H.
  destruct (negb ftb);
    apply (map_result_matrix_shape _ n k pre mask Hn Hk) in H; tauto.
Qed.

Lemma indep_mask_transpose self ftb (pre : matrix Q) (mask : matrix bool) (n k : nat) :
  length pre = n -> Forall (fun row => length row = k) pre ->
  indep_mask self ftb pre = Ok mask ->
  indep_mask self ftb (transpose 0 k pre) = Ok (transpose false k mask).
Proof.
  intros Hn Hk H. unfold indep_mask in *.
  destruct (negb ftb); eapply map_result_matrix_transpose; eassumption.
Qed.

Lemma in_indep_set_transpose (mask : matrix bool) (k j jj : nat) :
  Forall (fun row => length row = k) mask ->
  in_indep_set (np_where (transpose false k mask)) jj j <->
  in_indep_set (np_where mask) j jj.
Proof.
  intros Hk. rewrite !in_indep_set_np_where. apply cell_transpose. exact Hk.
Qed.

(** The index sets of the exchanged run are those of the original run,
    exchanged. *)
Lemma indicesX_of_transpose (mask : matrix bool) (k j jj : nat) :
  Forall (fun row => length row = k) mask ->
  indicesX_of (np_where (transpose false k mask)) jj j
  = indicesY_of (np_where mask) j jj.
Proof.
  intros Hk. apply sorted_ext.
  - apply indicesX_of_sorted.
  - apply indicesY_of_sorted.
  - intros v. rewrite indicesX_of_spec, indicesY_of_spec.
    rewrite (in_indep_set_transpose mask k j v Hk). tauto.
Qed.

Lemma indicesY_of_transpose (mask : matrix bool) (k j jj : nat) :
  Forall (fun row => length row = k) mask ->
  indicesY_of (np_where (transpose false k mask)) jj j
  = indicesX_of (np_where mask) j jj.
Proof.
  intros Hk. apply sorted_ext.
  - apply indicesY_of_sorted.
  - apply indicesX_of_sorted.
  - intros v. rewrite indicesX_of_spec, indicesY_of_spec.
    rewrite (in_indep_set_transpose mask k v jj Hk). tauto.
Qed.

(** *** The main step without type tags *)

Lemma main_pair_untyped self ftb array xyz indep_set zt j jj :
  outcome (main_pair self ftb array xyz None indep_set zt j jj) =
  match main_args self ftb array xyz None (chosen_z self array xyz indep_set j jj) zt j jj with
  | Ok a =>
      match run_test_raw (cond_ind_test self) (ci_significance (cond_ind_test self)) a with
      | Ok r => Ok (zt, r)
      | Raise e => Raise e
      end
  | Raise e => Raise e
  end.
Proof.
  unfold main_pair, chosen_z.
  destruct (0 <? _)%nat.
  - destruct (_ <? _)%nat.
    + rewrite outcome_after_lift. unfold assign_z_type. simpl. apply outcome_call.
    + rewrite outcome_after_lift. unfold extend_z_type. simpl. apply outcome_call.
  - apply outcome_call.
Qed.

Lemma augmented_z_swap self array xyz side indices :
  augmented_z self array (swap_roles xyz) side indices
  = augmented_z self array xyz side indices.
Proof. unfold augmented_z. rewrite dim_z_swap, z_s2_swap. reflexivity. Qed.

Lemma main_args_swap self ftb array xyz z j jj a :
  main_args self ftb array xyz None z None j jj = Ok a ->
  main_args self ftb array (swap_roles xyz) None z None jj j = Ok (swap_xy a).
Proof.
  unfold main_args. rewrite x_s2_swap, y_s2_swap.
  destruct (reshape _ 1 (nth j (x_s2 self array xyz) [])) as [x | e]; [| discriminate].
  destruct (reshape _ 1 (nth jj (y_s2 self array xyz) [])) as [y | e]; [| discriminate].
  destruct z as [z | e]; [| discriminate].
  intros H. inversion H. reflexivity.
Qed.

Lemma chosen_z_swap self array xyz (mask : matrix bool) (k j jj : nat) :
  Forall (fun row => length row = k) mask ->
  (length (indicesX_of (np_where mask) j jj) = length (indicesY_of (np_where mask) j jj) ->
   length (indicesX_of (np_where mask) j jj) = 0%nat) ->
  chosen_z self array (swap_roles xyz) (np_where (transpose false k mask)) jj j
  = chosen_z self array xyz (np_where mask) j jj.
Proof.
  intros Hk Htie. unfold chosen_z.
  rewrite (indicesX_of_transpose mask k j jj Hk), (indicesY_of_transpose mask k j jj Hk).
  rewrite !augmented_z_swap, x_s2_swap, y_s2_swap, dim_z_swap, z_s2_swap.
  set (lix := length (indicesX_of (np_where mask) j jj)) in *.
  set (liy := length (indicesY_of (np_where mask) j jj)) in *.
  destruct (0 <? lix + liy)%nat eqn:E0.
  - apply Nat.ltb_lt in E0.
    assert (E0' : (0 <? liy + lix)%nat = true) by (apply Nat.ltb_lt; lia).
    rewrite E0'.
    destruct (liy <? lix)%nat eqn:E1.
    + apply Nat.ltb_lt in E1.
      assert (E1' : (lix <? liy)%nat = false) by (apply Nat.ltb_ge; lia).
      rewrite E1'. reflexivity.
    + apply Nat.ltb_ge in E1.
      assert (E1' : (lix <? liy)%nat = true) by (apply Nat.ltb_lt; lia).
      rewrite E1'. reflexivity.
  - apply Nat.ltb_ge in E0.
    assert (E0' : (0 <? liy + lix)%nat = false) by (apply Nat.ltb_ge; lia).
    rewrite E0'. reflexivity.
Qed.

Lemma main_pair_swap self ftb array xyz (mask : matrix bool) (k j jj : nat) zt r :
  symmetric_engine (cond_ind_test self) ->
  Forall (fun row => length row = k) mask ->
  (length (indicesX_of (np_where mask) j jj) = length (indicesY_of (np_where mask) j jj) ->
   length (indicesX_of (np_where mask) j jj) = 0%nat) ->
  outcome (main_pair self ftb array xyz None (np_where mask) None j jj) = Ok (zt, r) ->
  outcome (main_pair self ftb array (swap_roles xyz) None
                     (np_where (transpose false k mask)) None jj j) = Ok (None, r).
Proof.
  intros Hsym Hk Htie. rewrite !main_pair_untyped.
  rewrite (chosen_z_swap self array xyz mask k j jj Hk Htie).
  destruct (main_args self ftb array xyz None _ None j jj) as [a | e] eqn:Ea;
    [| discriminate].
  rewrite (main_args_swap _ _ _ _ _ _ _ _ Ea), Hsym.
  destruct (run_test_raw _ _ a) as [r0 | e]; [| discriminate].
  intros H. inversion H. reflexivity.
Qed.

Lemma for_acc_fixed {S A B} (body : S -> A -> M (S * B)) (s0 : S) (l : list A) :
  (forall a s' b, outcome (body s0 a) = Ok (s', b) -> s' = s0) ->
  forall s' bs,
    outcome (for_acc body s0 l) = Ok (s', bs) <->
    s' = s0 /\ Forall2 (fun a b => outcome (body s0 a) = Ok (s0, b)) l bs.
Proof.
  intros Hfix. induction l as [| a l IH]; intros s' bs; simpl.
  - split.
    + intros H. inversion H. split; [reflexivity | constructor].
    + intros [-> H]. inversion H. reflexivity.
  - rewrite outcome_bind. split.
    + destruct (outcome (body s0 a)) as [[s1 b] | e] eqn:Eb; [| discriminate].
      pose proof (Hfix _ _ _ Eb) as ->.
      rewrite outcome_bind.
      destruct (outcome (for_acc body s0 l)) as [[s2 bs0] | e] eqn:El; [| discriminate].
      intros H. inversion H; subst.
      destruct (proj1 (IH s' bs0) eq_refl) as [-> Hl].
      split; [reflexivity |]. constructor; assumption.
    + intros [-> H]. inversion H as [| a0 b l0 bs0 Hb Hrest]; subst.
      rewrite Hb, outcome_bind.
      assert (El : outcome (for_acc body s0 l) = Ok (s0, bs0))
        by (apply IH; split; [reflexivity | exact Hrest]).
      rewrite El. reflexivity.
Qed.

Lemma main_pair_untyped_state self ftb array xyz indep_set zt j jj zt' r :
  outcome (main_pair self ftb array xyz None indep_set zt j jj) = Ok (zt', r) ->
  zt' = zt.
Proof.
  rewrite main_pair_untyped.
  destruct (main_args _ _ _ _ _ _ _ _ _); [| discriminate].
  destruct (run_test_raw _ _ _); [| discriminate].
  intros H. inversion H. reflexivity.
Qed.

(** Without type tags the main step returns the matrix [results] exactly
    when [results] has the shape [dim_x x dim_y] and each cell is what the
    body of the loop returns for its pair. *)
Lemma main_step_untyped self ftb array xyz indep_set zt (results : matrix (Q * Q)) :
  outcome (main_step self ftb array xyz None indep_set) = Ok (zt, results) <->
  zt = None /\
  length results = dim_x xyz /\
  Forall (fun row => length row = dim_y xyz) results /\
  forall j jj r, cell results j jj = Some r ->
    outcome (main_pair self ftb array xyz None indep_set None j jj) = Ok (None, r).
Proof.
  unfold main_step.
  assert (Hinner : forall j s' row,
    outcome (for_acc (fun zt0 jj => main_pair self ftb array xyz None indep_set zt0 j jj)
                     None (seq 0 (dim_y xyz))) = Ok (s', row) <->
    s' = None /\
    Forall2 (fun jj r =>
               outcome (main_pair self ftb array xyz None indep_set None j jj)
               = Ok (None, r)) (seq 0 (dim_y xyz)) row).
  { intros j s' row.
    apply (for_acc_fixed
             (fun zt0 jj => main_pair self ftb array xyz None indep_set zt0 j jj)
             None (seq 0 (dim_y xyz))).
    intros jj s1 b H. eapply main_pair_untyped_state. exact H. }
  change (z_type_s2 self array xyz None) with (@None (matrix Z)).
  pose proof (for_acc_fixed
                (fun zt0 j =>
                   for_acc (fun zt1 jj => main_pair self ftb array xyz None indep_set zt1 j jj)
                           zt0 (seq 0 (dim_y xyz)))
                None (seq 0 (dim_x xyz))) as Houter.
  cbv beta in Houter.
  specialize (Houter (fun j s' row H => proj1 (proj1 (Hinner j s' row) H)) zt results).
  etransitivity; [exact Houter |]. clear Houter.
  rewrite Forall2_seq0. split.
  - intros (-> & Hn & H). split; [reflexivity |]. split; [exact Hn |]. split.
    + apply Forall_forall. intros row Hin. apply In_nth_error in Hin.
      destruct Hin as [j Hj]. apply H, Hinner in Hj. destruct Hj as [_ Hj].
      apply Forall2_seq0 in Hj. tauto.
    + intros j jj r Hc. apply cell_Some in Hc. destruct Hc as (row & Hj & Hjj).
      apply H, Hinner in Hj. destruct Hj as [_ Hj].
      apply Forall2_seq0 in Hj. destruct Hj as [_ Hj]. apply Hj. exact Hjj.
  - intros (-> & Hn & Hk & H). split; [reflexivity |]. split; [exact Hn |].
    intros j row Hj. apply Hinner. split; [reflexivity |].
    apply Forall2_seq0. split.
    + rewrite Forall_forall in Hk. apply Hk. eapply nth_error_In. exact Hj.
    + intros jj r Hjj. apply H. apply cell_Some. exists row. tauto.
Qed.

Lemma main_step_swap self ftb array xyz (mask : matrix bool) zt (results : matrix (Q * Q)) :
  symmetric_engine (cond_ind_test self) ->
  Forall (fun row => length row = dim_y xyz) mask ->
  (forall j jj, (j < dim_x xyz)%nat -> (jj < dim_y xyz)%nat ->
     length (indicesX_of (np_where mask) j jj) = length (indicesY_of (np_where mask) j jj) ->
     length (indicesX_of (np_where mask) j jj) = 0%nat) ->
  outcome (main_step self ftb array xyz None (np_where mask)) = Ok (zt, results) ->
  outcome (main_step self ftb array (swap_roles xyz) None
                     (np_where (transpose false (dim_y xyz) mask)))
  = Ok (None, transpose (0, 0) (dim_y xyz) results).
Proof.
  intros Hsym Hk Htie H. apply main_step_untyped in H.
  destruct H as (_ & Rn & Rk & Hcells).
  apply main_step_untyped. split; [reflexivity |].
  rewrite dim_x_swap, dim_y_swap.
  split; [apply transpose_length |]. split.
  - rewrite <- Rn. apply transpose_rows.
  - intros jj j r Hc. apply cell_transpose in Hc; [| exact Rk].
    destruct (cell_bounds _ _ _ _ _ _ Rn Rk Hc) as [Hj Hjj].
    eapply main_pair_swap; [exact Hsym | exact Hk | apply Htie; assumption |].
    apply Hcells. exact Hc.
Qed.

Lemma in_concat_map_transpose {A B} (f : A -> B) (d : A) (k : nat) (m : matrix A) (x : B) :
  Forall (fun row => length row = k) m ->
  In x (concat (map (map f) (transpose d k m))) <-> In x (concat (map (map f) m)).
Proof.
  intros Hk. rewrite !in_concat_cell. split.
  - intros (jj & j & Hc). exists j, jj. rewrite cell_map in *.
    destruct (cell (transpose d k m) jj j) as [y |] eqn:E; [| discriminate].
    apply cell_transpose in E; [| exact Hk]. rewrite E. exact Hc.
  - intros (j & jj & Hc). exists jj, j. rewrite cell_map in *.
    destruct (cell m j jj) as [y |] eqn:E; [| discriminate].
    apply (cell_transpose d k m j jj y Hk) in E. rewrite E. exact Hc.
Qed.

(** The maximum and the minimum depend on the elements only. *)
Lemma np_max_ext (l l' : list Q) (m : Q) :
  (forall x, In x l <-> In x l') -> np_max l = Ok m ->
  exists m', np_max l' = Ok m' /\ m' == m.
Proof.
  intros Hext H. pose proof (np_max_spec _ _ H) as [Hin Hall].
  destruct l' as [| a l'].
  - exfalso. apply (Hext m). exact Hin.
  - eexists. split; [reflexivity |].
    pose proof (np_max_spec (a :: l') _ eq_refl) as [Hin' Hall'].
    rewrite Forall_forall in Hall, Hall'. apply Qle_antisym.
    + apply Hall. apply Hext. exact Hin'.
    + apply Hall'. apply Hext. exact Hin.
Qed.

Lemma np_min_ext (l l' : list Q) (m : Q) :
  (forall x, In x l <-> In x l') -> np_min l = Ok m ->
  exists m', np_min l' = Ok m' /\ m' == m.
Proof.
  intros Hext H. pose proof (np_min_spec _ _ H) as [Hin Hall].
  destruct l' as [| a l'].
  - exfalso. apply (Hext m). exact Hin.
  - eexists. split; [reflexivity |].
    pose proof (np_min_spec (a :: l') _ eq_refl) as [Hin' Hall'].
    rewrite Forall_forall in Hall, Hall'. apply Qle_antisym.
    + apply Hall'. apply Hext. exact Hin.
    + apply Hall. apply Hext. exact Hin'.
Qed.

Lemma aggregate_swap self ftb xyz (results : matrix (Q * Q)) stat sig :
  Forall (fun row => length row = dim_y xyz) results ->
  aggregate self ftb xyz results = Ok (stat, sig) ->
  exists stat' sig',
    aggregate self ftb (swap_roles xyz) (transpose (0, 0) (dim_y xyz) results)
    = Ok (stat', sig') /\
    stat' == stat.
Proof.
  intros Rk. unfold aggregate, test_stats_main, p_vals_main.
  destruct (np_max (map Qabs (concat (map (map fst) results)))) as [m | e] eqn:Emax;
    [| discriminate].
  destruct (np_max_ext
              (map Qabs (concat (map (map fst) results)))
              (map Qabs (concat (map (map fst) (transpose (0, 0) (dim_y xyz) results))))
              m) as (m' & Hm' & Heq); [| exact Emax |].
  { intros x. rewrite !in_map_iff. split; intros (y & Hy & Hin); exists y;
      (split; [exact Hy |]); apply (in_concat_map_transpose fst (0, 0) _ _ _ Rk); exact Hin. }
  rewrite Hm'.
  destruct (negb _).
  - set (f := if ftb then (fun _ : Q * Q => 0) else snd).
    assert (Ef : forall R : matrix (Q * Q),
               (if ftb then map (map (fun _ : Q * Q => 0)) R else map (map snd) R)
               = map (map f) R)
      by (intros R; subst f; destruct ftb; reflexivity).
    rewrite !Ef.
    destruct (np_min (concat (map (map f) results))) as [p | e] eqn:Emin;
      [| discriminate].
    destruct (np_min_ext
                (concat (map (map f) results))
                (concat (map (map f) (transpose (0, 0) (dim_y xyz) results)))
                p) as (p' & Hp' & _); [| exact Emin |].
    { intros x. symmetry. apply (in_concat_map_transpose f (0, 0) _ _ _ Rk). }
    rewrite Hp'. simpl. intros H. inversion H; subst.
    eexists. eexists. split; [reflexivity | exact Heq].
  - intros H. inversion H; subst.
    eexists. eexists. split; [reflexivity | exact Heq].
Qed.

Lemma tie_free_spec self ftb array xyz dt pre indep_set :
  outcome (pre_step self ftb array xyz dt) = Ok pre ->
  indep_set_of self ftb pre = Ok indep_set ->
  tie_free_b self ftb array xyz dt = true ->
  forall j jj, (j < dim_x xyz)%nat -> (jj < dim_y xyz)%nat ->
    length (indicesX_of indep_set j jj) = length (indicesY_of indep_set j jj) ->
    length (indicesX_of indep_set j jj) = 0%nat.
Proof.
  intros Hpre Hset H j jj Hj Hjj Heq. unfold tie_free_b in H.
  rewrite Hpre, Hset in H. rewrite forallb_forall in H.
  specialize (H j (proj2 (in_seq0 _ _) Hj)). rewrite forallb_forall in H.
  specialize (H jj (proj2 (in_seq0 _ _) Hjj)). cbv zeta in H.
  apply orb_true_iff in H. destruct H as [H | H].
  - apply negb_true_iff, Nat.eqb_neq in H. contradiction.
  - apply Nat.eqb_eq in H. exact H.
Qed.

Lemma main_results_swap self ftb array xyz (results : matrix (Q * Q)) :
  symmetric_engine (cond_ind_test self) ->
  tie_free_b self ftb array xyz None = true ->
  outcome (main_results self ftb array xyz None) = Ok results ->
  outcome (main_results self ftb array (swap_roles xyz) None)
  = Ok (transpose (0, 0) (dim_y xyz) results).
Proof.
  intros Hsym Htie H. apply main_results_outcome in H.
  destruct H as (pre & indep_set & zt & Hpre & Hset & Hmain).
  destruct (pre_step_shape _ _ _ _ _ _ Hpre) as [Pn Pk].
  pose proof (tie_free_spec _ _ _ _ _ _ _ Hpre Hset Htie) as Hties.
  unfold indep_set_of in Hset.
  destruct (indep_mask self ftb pre) as [mask | e] eqn:Emask; [| discriminate].
  inversion Hset; subst indep_set; clear Hset.
  destruct (indep_mask_shape _ _ _ _ _ _ Pn Pk Emask) as [Mn Mk].
  apply main_results_outcome.
  exists (transpose 0 (dim_y xyz) pre),
         (np_where (transpose false (dim_y xyz) mask)), None.
  split; [apply pre_step_swap; assumption |]. split.
  - unfold indep_set_of.
    rewrite (indep_mask_transpose _ _ _ _ _ _ Pn Pk Emask). reflexivity.
  - eapply main_step_swap; eassumption.
Qed.

(** C9, amended.  Without type tags, for an engine symmetric in its first
    two arguments and an evaluation in which no pair of the main step has
    two non-empty index sets of the same size: if the evaluation returns,
    then the evaluation with the roles of X and Y exchanged returns too,
    its matrix of main-step results is the transpose of the original one,
    and its aggregated statistic is the same number. *)
Theorem role_swap_without_ties :
  forall self array xyz stat sig,
    let self' := fst (resolve_regime self) in
    let fixed_thres_bool := snd (resolve_regime self) in
    symmetric_engine (cond_ind_test self) ->
    tie_free_b self' fixed_thres_bool array xyz None = true ->
    outcome (snd (calculate_dep_measure_and_significance self array xyz None))
    = Ok (stat, sig) ->
    exists results stat' sig',
      outcome (main_results self' fixed_thres_bool array xyz None) = Ok results /\
      outcome (main_results self' fixed_thres_bool array (swap_roles xyz) None)
      = Ok (transpose (0, 0) (dim_y xyz) results) /\
      outcome (snd (calculate_dep_measure_and_significance
                      self array (swap_roles xyz) None)) = Ok (stat', sig') /\
      stat' == stat.
Proof.
  intros self array xyz stat sig self' ftb Hsym Htie H. subst self' ftb.
  rewrite calculate_result in *.
  destruct (snd (resolve_regime self) && _); [discriminate H |].
  unfold evaluate in *. rewrite outcome_bind in H.
  destruct (outcome (main_results (fst (resolve_regime self)) (snd (resolve_regime self))
                       array xyz None)) as [results | e] eqn:E; [| discriminate H].
  rewrite outcome_lift in H.
  assert (Hsym' : symmetric_engine (cond_ind_test (fst (resolve_regime self)))).
  { intros tag a. pose proof (resolve_regime_frame self) as F. cbv zeta in F.
    destruct F as (_ & F & _). rewrite F. apply Hsym. }
  pose proof (main_results_swap _ _ _ _ _ Hsym' Htie E) as E'.
  destruct (main_results_shape _ _ _ _ _ _ E) as [_ Rk].
  destruct (aggregate_swap _ _ _ _ _ _ Rk H) as (stat' & sig' & Hagg & Heq).
  exists results, stat', sig'.
  split; [reflexivity |]. split; [exact E' |]. split; [| exact Heq].
  rewrite outcome_bind, E', outcome_lift. exact Hagg.
Qed.

(** [role_swap_without_ties] applied to a concrete evaluation. *)
Lemma role_swap_without_ties_witness :
  exists results stat' sig',
    outcome (main_results p_value_test false sample_array xyz_two_x None) = Ok results /\
    outcome (main_results p_value_test false sample_array (swap_roles xyz_two_x) None)
    = Ok (transpose (0, 0) 1 results) /\
    outcome (snd (calculate_dep_measure_and_significance
                    p_value_test sample_array (swap_roles xyz_two_x) None))
    = Ok (stat', sig') /\
    stat' == 7.
Proof.
  apply (role_swap_without_ties p_value_test sample_array xyz_two_x 7 (Some 1)).
  - apply first_z_engine_symmetric.
  - reflexivity.
  - reflexivity.
Defined.

(** * Further properties of the evaluation *)

(** ** The log of engine invocations *)

Lemma Forall_invocations_bind {A B} (P : run_test_raw_args -> Prop)
  (m : M A) (f : A -> M B) :
  Forall P (invocations m) ->
  (forall x, outcome m = Ok x -> Forall P (invocations (f x))) ->
  Forall P (invocations (bind m f)).
Proof.
  intros Hm Hf. rewrite invocations_bind.
  destruct (outcome m) as [x | e]; [| exact Hm].
  apply Forall_app. split; [exact Hm | apply Hf; reflexivity].
Qed.

Lemma Forall_invocations_for_each {A B} (P : run_test_raw_args -> Prop)
  (body : A -> M B) (l : list A) :
  (forall a, In a l -> Forall P (invocations (body a))) ->
  Forall P (invocations (for_each body l)).
Proof.
  induction l as [| a l IH]; intros H; simpl; [constructor |].
  apply Forall_invocations_bind; [apply H; left; reflexivity |].
  intros b _. apply Forall_invocations_bind.
  - apply IH. intros a' Ha'. apply H. right. exact Ha'.
  - intros bs _. constructor.
Qed.

Lemma Forall_invocations_for_acc {S A B} (P : run_test_raw_args -> Prop)
  (Inv : S -> Prop) (body : S -> A -> M (S * B)) (l : list A) :
  (forall s a, Inv s -> In a l ->
     Forall P (invocations (body s a)) /\
     forall s' b, outcome (body s a) = Ok (s', b) -> Inv s') ->
  forall s, Inv s -> Forall P (invocations (for_acc body s l)).
Proof.
  induction l as [| a l IH]; intros H s Hs; simpl; [constructor |].
  destruct (H s a Hs (or_introl eq_refl)) as [Hp Hinv].
  apply Forall_invocations_bind; [exact Hp |].
  intros [s1 b] Hb. apply Forall_invocations_bind.
  - apply IH; [| eapply Hinv; exact Hb].
    intros s0 a0 Hs0 Ha0. apply H; [exact Hs0 | right; exact Ha0].
  - intros [s2 bs] _. constructor.
Qed.

Lemma invocations_for_each_count {A B} (body : A -> M B) (l : list A) (c : nat) :
  (forall a b, outcome (body a) = Ok b -> length (invocations (body a)) = c) ->
  forall bs, outcome (for_each body l) = Ok bs ->
    length (invocations (for_each body l)) = (length l * c)%nat.
Proof.
  intros Hc. induction l as [| a l IH]; intros bs; simpl; [reflexivity |].
  rewrite outcome_bind, invocations_bind.
  destruct (outcome (body a)) as [b |] eqn:Eb; [| discriminate].
  rewrite outcome_bind, invocations_bind.
  destruct (outcome (for_each body l)) as [bs0 |] eqn:El; [| discriminate].
  intros _. rewrite !length_app, (Hc _ _ Eb), (IH _ eq_refl). simpl. lia.
Qed.

Lemma invocations_for_acc_count {S A B} (body : S -> A -> M (S * B)) (l : list A) (c : nat) :
  (forall s a r, outcome (body s a) = Ok r -> length (invocations (body s a)) = c) ->
  forall s r, outcome (for_acc body s l) = Ok r ->
    length (invocations (for_acc body s l)) = (length l * c)%nat.
Proof.
  intros Hc. induction l as [| a l IH]; intros s r; simpl; [reflexivity |].
  rewrite outcome_bind, invocations_bind.
  destruct (outcome (body s a)) as [[s1 b] |] eqn:Eb; [| discriminate].
  rewrite outcome_bind, invocations_bind.
  destruct (outcome (for_acc body s1 l)) as [[s2 bs] |] eqn:El; [| discriminate].
  intros _. rewrite !length_app, (Hc _ _ _ Eb), (IH _ _ El). simpl. lia.
Qed.

(** *** A failed call ends the computation *)

Lemma stops_without_call self {A} (r : result A) :
  stops_at_first_failure self (lift r).
Proof. intros [| k] a e H; discriminate H. Qed.

Lemma stops_engine self (a : run_test_raw_args) :
  stops_at_first_failure self (engine self a).
Proof.
  intros k a0 e H Hr. destruct k as [| k]; simpl in H.
  - inversion H; subst a0. split; [reflexivity | exact Hr].
  - destruct k; discriminate H.
Qed.

Lemma stops_bind self {A B} (m : M A) (f : A -> M B) :
  stops_at_first_failure self m ->
  (forall x, stops_at_first_failure self (f x)) ->
  stops_at_first_failure self (bind m f).
Proof.
  intros Hm Hf k a e H Hr. rewrite invocations_bind, outcome_bind in *.
  destruct (outcome m) as [x | e0] eqn:Em.
  - destruct (Nat.lt_ge_cases k (length (invocations m))) as [Hk | Hk].
    + rewrite nth_error_app1 in H by exact Hk.
      destruct (Hm k a e H Hr) as [_ Hout]. congruence.
    + rewrite nth_error_app2 in H by exact Hk.
      destruct (Hf x _ a e H Hr) as [Hlen Hout].
      split; [rewrite length_app; lia | exact Hout].
  - destruct (Hm k a e H Hr) as [Hlen Hout]. split; [exact Hlen | congruence].
Qed.

Lemma stops_for_each self {A B} (body : A -> M B) (l : list A) :
  (forall a, stops_at_first_failure self (body a)) ->
  stops_at_first_failure self (for_each body l).
Proof.
  intros Hb. induction l as [| a l IH]; simpl.
  - apply (stops_without_call self (Ok [])).
  - apply stops_bind; [apply Hb |]. intros b.
    apply stops_bind; [exact IH |]. intros bs.
    apply (stops_without_call self (Ok (b :: bs))).
Qed.

Lemma stops_for_acc self {S A B} (body : S -> A -> M (S * B)) (l : list A) :
  (forall s a, stops_at_first_failure self (body s a)) ->
  forall s, stops_at_first_failure self (for_acc body s l).
Proof.
  intros Hb. induction l as [| a l IH]; intros s; simpl.
  - apply (stops_without_call self (Ok (s, []))).
  - apply stops_bind; [apply Hb |]. intros [s1 b].
    apply stops_bind; [apply IH |]. intros [s2 bs].
    apply (stops_without_call self (Ok (s2, b :: bs))).
Qed.

Lemma stops_call self {S} (args : result run_test_raw_args) (s : S) :
  stops_at_first_failure self
    (a <- lift args ;; test_result <- engine self a ;; ret (s, test_result)).
Proof.
  apply stops_bind; [apply stops_without_call |]. intros a.
  apply stops_bind; [apply stops_engine |]. intros r.
  apply (stops_without_call self (Ok (s, r))).
Qed.

Lemma stops_pre_step self ftb array xyz dt :
  stops_at_first_failure self (pre_step self ftb array xyz dt).
Proof.
  unfold pre_step. apply stops_for_each. intros j.
  apply stops_for_each. intros jj. unfold pre_cell.
  apply stops_bind; [apply stops_without_call |]. intros a.
  apply stops_bind; [apply stops_engine |]. intros r.
  apply (stops_without_call self (Ok (if ftb then fst r else snd r))).
Qed.

Lemma stops_main_pair self ftb array xyz dt indep_set zt j jj :
  stops_at_first_failure self (main_pair self ftb array xyz dt indep_set zt j jj).
Proof.
  unfold main_pair.
  destruct (0 <? _)%nat.
  - destruct (_ <? _)%nat.
    + apply stops_bind; [apply stops_without_call |]. intros z0. apply stops_call.
    + apply stops_bind; [apply stops_without_call |]. intros z0. apply stops_call.
  - apply stops_call.
Qed.

Lemma stops_evaluate self ftb array xyz dt :
  stops_at_first_failure self (evaluate self ftb array xyz dt).
Proof.
  unfold evaluate, main_results.
  apply stops_bind; [| intros results; apply stops_without_call].
  apply stops_bind; [apply stops_pre_step |]. intros pre.
  apply stops_bind; [apply stops_without_call |]. intros indep_set.
  apply stops_bind.
  - unfold main_step. apply stops_for_acc. intros s j.
    apply stops_for_acc. intros s0 jj. apply stops_main_pair.
  - intros [zt results]. apply (stops_without_call self (Ok results)).
Qed.

(** X3.  The evaluation does not recover from a failure of the engine and
    does not call it again: whichever call of an evaluation the engine
    answers with an exception, that call is the last of the log and the
    evaluation raises that same exception. *)
Theorem engine_failure_propagates :
  forall self array xyz data_type k a e,
    let after := calculate_dep_measure_and_significance self array xyz data_type in
    nth_error (invocations (snd after)) k = Some a ->
    engine_result (fst after) a = Raise e ->
    S k = length (invocations (snd after)) /\
    outcome (snd after) = Raise e.
Proof.
  intros self array xyz data_type k a e after. subst after.
  rewrite calculate_self, calculate_result.
  destruct (snd (resolve_regime self) && _).
  - intros H. destruct k; discriminate H.
  - apply stops_evaluate.
Qed.

(** [engine_failure_propagates] applied to a concrete evaluation. *)
Lemma engine_failure_propagates_witness :
  length (invocations (snd (calculate_dep_measure_and_significance
                              picky_test sample_array xyz_two_y None))) = 2%nat /\
  outcome (snd (calculate_dep_measure_and_significance
                  picky_test sample_array xyz_two_y None))
  = Raise (EngineError "singular").
Proof.
  destruct (engine_failure_propagates
              picky_test sample_array xyz_two_y None 1
              (mk_args [[1]] [[5]] [[7]] None None None None)
              (EngineError "singular") eq_refl eq_refl) as [H1 H2].
  split; [symmetry; exact H1 | exact H2].
Defined.

Lemma invocations_pre_cell self ftb array xyz dt j jj :
  invocations (pre_cell self ftb array xyz dt j jj)
  = match pre_args self ftb array xyz dt j jj with
    | Ok a => [a]
    | Raise _ => []
    end.
Proof.
  unfold pre_cell. rewrite invocations_after_lift.
  destruct (pre_args self ftb array xyz dt j jj) as [a | e]; [| reflexivity].
  rewrite invocations_bind. simpl. destruct (run_test_raw _ _ a); reflexivity.
Qed.

Lemma pre_args_fields self ftb array xyz dt j jj a :
  pre_args self ftb array xyz dt j jj = Ok a ->
  reshape (size_first_block self array) 1 (nth j (x_s1 self array xyz) []) = Ok (arg_x a) /\
  reshape (size_first_block self array) 1 (nth jj (y_s1 self array xyz) []) = Ok (arg_y a) /\
  reshape (size_first_block self array) (dim_z xyz) (concat (z_s1 self array xyz))
  = Ok (arg_z a) /\
  arg_x_type a = x_type_s1 self array xyz dt /\
  arg_y_type a = y_type_s1 self array xyz dt /\
  arg_z_type a = z_type_s1 self array xyz dt /\
  arg_alpha_or_thres a = dummy_thres ftb.
Proof.
  unfold pre_args.
  destruct (reshape _ 1 (nth j _ [])) as [x | e]; [| discriminate].
  destruct (reshape _ 1 (nth jj _ [])) as [y | e]; [| discriminate].
  destruct (reshape _ (dim_z xyz) _) as [z | e]; [| discriminate].
  intros H. inversion H; subst; simpl. repeat split.
Qed.

(** The call of one pair of the main step, and the loop-carried
    [z_type_s2] it is made with: the one it received, or that one extended
    by line 241. *)
Lemma main_pair_call self ftb array xyz dt indep_set zt j jj :
  (invocations (main_pair self ftb array xyz dt indep_set zt j jj) = [] \/
   exists a zt',
     invocations (main_pair self ftb array xyz dt indep_set zt j jj) = [a] /\
     main_call_of self ftb array xyz dt indep_set zt' j jj = Ok a /\
     (zt' = zt \/
      extend_z_type self array xyz dt zt (indicesY_of indep_set j jj) = Ok zt')) /\
  (forall s' r,
     outcome (main_pair self ftb array xyz dt indep_set zt j jj) = Ok (s', r) ->
     s' = zt \/
     extend_z_type self array xyz dt zt (indicesY_of indep_set j jj) = Ok s').
Proof.
  unfold main_pair, main_call_of, chosen_z.
  destruct (0 <? _)%nat.
  - destruct (_ <? _)%nat.
    + rewrite invocations_after_lift, outcome_after_lift.
      destruct (assign_z_type _ _ _ _ _ _) as [zt0 | e].
      * rewrite invocations_call, outcome_call.
        destruct (main_args _ _ _ _ _ _ _ _ _) as [a | e] eqn:Ea.
        -- split.
           ++ right. exists a, zt. split; [reflexivity |]. split; [exact Ea | left; reflexivity].
           ++ intros s' r H. destruct (run_test_raw _ _ a); [| discriminate].
              inversion H. left. reflexivity.
        -- split; [left; reflexivity | discriminate].
      * split; [left; reflexivity | discriminate].
    + rewrite invocations_after_lift, outcome_after_lift.
      destruct (extend_z_type _ _ _ _ _ _) as [zt0 | e].
      * rewrite invocations_call, outcome_call.
        destruct (main_args _ _ _ _ _ _ _ _ _) as [a | e] eqn:Ea.
        -- split.
           ++ right. exists a, zt0. split; [reflexivity |].
              split; [exact Ea | right; reflexivity].
           ++ intros s' r H. destruct (run_test_raw _ _ a); [| discriminate].
              inversion H. right. reflexivity.
        -- split; [left; reflexivity | discriminate].
      * split; [left; reflexivity | discriminate].
  - rewrite invocations_call, outcome_call.
    destruct (main_args _ _ _ _ _ _ _ _ _) as [a | e] eqn:Ea.
    + split.
      * right. exists a, zt. split; [reflexivity |]. split; [exact Ea | left; reflexivity].
      * intros s' r H. destruct (run_test_raw _ _ a); [| discriminate].
        inversion H. left. reflexivity.
    + split; [left; reflexivity | discriminate].
Qed.

(** A property of every call of an evaluation follows from the property
    for the calls of the pre-step and, along the main step, from an
    invariant of the loop-carried [z_type_s2]. *)
Lemma Forall_invocations_evaluate (P : run_test_raw_args -> Prop)
  (Inv : option (matrix Z) -> Prop) self ftb array xyz dt :
  (forall j jj a, pre_args self ftb array xyz dt j jj = Ok a -> P a) ->
  Inv (z_type_s2 self array xyz dt) ->
  (forall indep_set zt j jj, Inv zt ->
     (forall zt', extend_z_type self array xyz dt zt (indicesY_of indep_set j jj) = Ok zt' ->
                  Inv zt') /\
     (forall zt' a, Inv zt' ->
                    main_call_of self ftb array xyz dt indep_set zt' j jj = Ok a -> P a)) ->
  Forall P (invocations (evaluate self ftb array xyz dt)).
Proof.
  intros Hpre Hinit Hmain. unfold evaluate, main_results.
  apply Forall_invocations_bind; [| intros results _; constructor].
  apply Forall_invocations_bind.
  - unfold pre_step. apply Forall_invocations_for_each. intros j _.
    apply Forall_invocations_for_each. intros jj _.
    rewrite invocations_pre_cell.
    destruct (pre_args self ftb array xyz dt j jj) as [a | e] eqn:Ea; [| constructor].
    constructor; [eapply Hpre; exact Ea | constructor].
  - intros pre _. apply Forall_invocations_bind; [constructor |].
    intros indep_set _. apply Forall_invocations_bind; [| intros [zt res] _; constructor].
    unfold main_step.
    apply (Forall_invocations_for_acc P Inv); [| exact Hinit].
    intros s j Hs _. split.
    + apply (Forall_invocations_for_acc P Inv); [| exact Hs].
      intros s0 jj Hs0 _.
      destruct (Hmain indep_set s0 j jj Hs0) as [Hext Hcall].
      destruct (main_pair_call self ftb array xyz dt indep_set s0 j jj) as [Hc Hst].
      split.
      * destruct Hc as [-> | (a & zt' & -> & Ha & Hzt)]; [constructor |].
        constructor; [| constructor].
        eapply Hcall; [| exact Ha].
        destruct Hzt as [-> | Hzt]; [exact Hs0 | apply Hext; exact Hzt].
      * intros s' r Hr. destruct (Hst s' r Hr) as [-> | Hzt];
          [exact Hs0 | apply Hext; exact Hzt].
    + intros s' row Hrow. revert s Hs Hrow.
      generalize (seq 0 (dim_y xyz)). intros l. revert row.
      induction l as [| jj l IH]; intros row s Hs; simpl.
      * intros H. inversion H; subst. exact Hs.
      * rewrite outcome_bind.
        destruct (outcome (main_pair self ftb array xyz dt indep_set s j jj))
          as [[s1 r] |] eqn:E1; [| discriminate].
        rewrite outcome_bind.
        destruct (outcome (for_acc _ s1 l)) as [[s2 bs] |] eqn:E2; [| discriminate].
        intros H. inversion H; subst. eapply IH; [| exact E2].
        destruct (Hmain indep_set s j jj Hs) as [Hext _].
        destruct (main_pair_call self ftb array xyz dt indep_set s j jj) as [_ Hst].
        destruct (Hst s1 r E1) as [-> | Hzt]; [exact Hs | apply Hext; exact Hzt].
Qed.

Lemma Forall_invocations_calculate (P : run_test_raw_args -> Prop) self array xyz dt :
  Forall P (invocations (evaluate (fst (resolve_regime self)) (snd (resolve_regime self))
                                  array xyz dt)) ->
  Forall P (invocations (snd (calculate_dep_measure_and_significance self array xyz dt))).
Proof.
  intros H. rewrite calculate_result.
  destruct (snd (resolve_regime self) && _); [constructor | exact H].
Qed.

(** X5.  Every call of the engine in an evaluation carries the dummy
    threshold [alpha_or_thres = 999.] when the fixed-threshold regime is
    active, and no [alpha_or_thres] in the p-value regime. *)
Theorem dummy_threshold_on_every_call :
  forall self array xyz data_type,
    Forall (fun a => arg_alpha_or_thres a
                     = if fixed_thres_active_b self then Some (999 # 1) else None)
           (invocations (snd (calculate_dep_measure_and_significance
                                self array xyz data_type))).
Proof.
  intros self array xyz data_type. rewrite <- resolve_regime_flag.
  apply Forall_invocations_calculate.
  apply (Forall_invocations_evaluate _ (fun _ => True)).
  - intros j jj a Ha. apply pre_args_fields in Ha. apply Ha.
  - exact I.
  - intros indep_set zt j jj _. split; [intros; exact I |].
    intros zt' a _ Ha. apply main_args_fields in Ha. apply Ha.
Qed.

(** X10.  Without type tags ([data_type=None]) no call of the engine in an
    evaluation carries type tags: [x_type], [y_type] and [z_type] are
    [None] in every call, of the pre-step and of the main step. *)
Theorem no_type_tags_without_data_type :
  forall self array xyz,
    Forall (fun a => arg_x_type a = None /\ arg_y_type a = None /\ arg_z_type a = None)
           (invocations (snd (calculate_dep_measure_and_significance
                                self array xyz None))).
Proof.
  intros self array xyz. apply Forall_invocations_calculate.
  apply (Forall_invocations_evaluate _ (fun zt => zt = None)).
  - intros j jj a Ha. apply pre_args_fields in Ha.
    destruct Ha as (_ & _ & _ & Hx & Hy & Hz & _). rewrite Hx, Hy, Hz.
    repeat split.
  - reflexivity.
  - intros indep_set zt j jj ->. split.
    + intros zt' H. unfold extend_z_type in H. simpl in H. inversion H. reflexivity.
    + intros zt' a -> Ha. apply main_args_fields in Ha.
      destruct Ha as (_ & _ & _ & Hx & Hy & Hz & _). rewrite Hx, Hy, Hz.
      repeat split.
Qed.

(** ** The returned significance and the number of calls *)

Lemma aggregate_marker self ftb xyz results stat sig :
  aggregate self ftb xyz results = Ok (stat, sig) ->
  (sig = None <->
   String.eqb (ci_significance (cond_ind_test self)) "fixed_thres" = true).
Proof.
  unfold aggregate.
  destruct (np_max _) as [m | e]; [| discriminate].
  destruct (String.eqb (ci_significance (cond_ind_test self)) "fixed_thres"); cbn [negb].
  - intros H. inversion H. split; reflexivity.
  - destruct (np_min (concat _)) as [p | e]; [| discriminate].
    destruct (np_min [_; 1]) as [q | e]; [| discriminate].
    intros H. inversion H. split; discriminate.
Qed.

(** X1.  When an evaluation returns, its second component is [None] exactly
    when the fixed-threshold regime is active (the outer tag or the
    engine's tag was ["fixed_thres"]); otherwise it is a number. *)
Theorem significance_is_None_in_fixed_thres_regime :
  forall self array xyz data_type stat sig,
    outcome (snd (calculate_dep_measure_and_significance self array xyz data_type))
    = Ok (stat, sig) ->
    (sig = None <-> fixed_thres_active self) /\
    (~ fixed_thres_active self -> exists p, sig = Some p).
Proof.
  intros self array xyz data_type stat sig H.
  rewrite calculate_result in H.
  destruct (snd (resolve_regime self) && _); [discriminate H |].
  unfold evaluate in H. rewrite outcome_bind in H.
  destruct (outcome (main_results _ _ array xyz data_type)) as [results | e];
    [| discriminate H].
  rewrite outcome_lift in H. apply aggregate_marker in H.
  rewrite resolve_regime_engine_tag, resolve_regime_flag in H.
  rewrite fixed_thres_active_reflect in H.
  split; [exact H |].
  intros Hn. destruct sig as [p |]; [exists p; reflexivity |].
  exfalso. apply Hn. apply H. reflexivity.
Qed.

(** [significance_is_None_in_fixed_thres_regime] applied to a concrete
    evaluation. *)
Lemma significance_is_None_in_fixed_thres_regime_witness :
  (@None Q = None <-> fixed_thres_active fixed_thres_test) /\
  fixed_thres_active fixed_thres_test.
Proof.
  destruct (significance_is_None_in_fixed_thres_regime
              fixed_thres_test sample_array xyz_two_y None 7 None eq_refl) as [H _].
  split; [exact H | apply H; reflexivity].
Defined.

Lemma invocations_main_results self ftb array xyz dt :
  invocations (main_results self ftb array xyz dt)
  = match outcome (pre_step self ftb array xyz dt) with
    | Ok pre =>
        invocations (pre_step self ftb array xyz dt) ++
        match indep_set_of self ftb pre with
        | Ok indep_set => invocations (main_step self ftb array xyz dt indep_set)
        | Raise _ => []
        end
    | Raise _ => invocations (pre_step self ftb array xyz dt)
    end.
Proof.
  unfold main_results. rewrite invocations_bind.
  destruct (outcome (pre_step self ftb array xyz dt)) as [pre | e]; [| reflexivity].
  f_equal. rewrite invocations_after_lift.
  destruct (indep_set_of self ftb pre) as [indep_set | e]; [| reflexivity].
  rewrite invocations_bind.
  destruct (outcome (main_step self ftb array xyz dt indep_set)) as [[zt res] | e];
    [| reflexivity].
  apply app_nil_r.
Qed.

Lemma invocations_evaluate self ftb array xyz dt :
  invocations (evaluate self ftb array xyz dt)
  = invocations (main_results self ftb array xyz dt).
Proof.
  unfold evaluate. rewrite invocations_bind.
  destruct (outcome (main_results self ftb array xyz dt)); [| reflexivity].
  apply app_nil_r.
Qed.

Lemma pre_step_count self ftb array xyz dt pre :
  outcome (pre_step self ftb array xyz dt) = Ok pre ->
  length (invocations (pre_step self ftb array xyz dt)) = (dim_x xyz * dim_y xyz)%nat.
Proof.
  unfold pre_step. intros H.
  rewrite (invocations_for_each_count _ _ (dim_y xyz)) with (bs := pre);
    [rewrite length_seq; reflexivity | | exact H].
  intros j row Hrow.
  rewrite (invocations_for_each_count _ _ 1%nat) with (bs := row);
    [rewrite length_seq; lia | | exact Hrow].
  intros jj p Hp. rewrite invocations_pre_cell.
  apply pre_cell_outcome in Hp. destruct Hp as (a & r & -> & _). reflexivity.
Qed.

Lemma main_step_count self ftb array xyz dt indep_set r :
  outcome (main_step self ftb array xyz dt indep_set) = Ok r ->
  length (invocations (main_step self ftb array xyz dt indep_set))
  = (dim_x xyz * dim_y xyz)%nat.
Proof.
  unfold main_step. intros H.
  rewrite (invocations_for_acc_count _ _ (dim_y xyz)) with (r := r) (s := z_type_s2 self array xyz dt);
    [rewrite length_seq; reflexivity | | exact H].
  intros s j row Hrow.
  rewrite (invocations_for_acc_count _ _ 1%nat) with (r := row);
    [rewrite length_seq; lia | | exact Hrow].
  intros s0 jj r0 Hr.
  destruct (main_pair_invocations self ftb array xyz dt indep_set s0 j jj) as [_ H1].
  destruct (H1 r0 Hr) as [a ->]. reflexivity.
Qed.

(** X2.  An evaluation that returns has called the engine exactly
    [2 * dim_x * dim_y] times: once for each pair in the pre-step and once
    for each pair in the main step. *)
Theorem number_of_engine_calls :
  forall self array xyz data_type r,
    outcome (snd (calculate_dep_measure_and_significance self array xyz data_type))
    = Ok r ->
    length (invocations (snd (calculate_dep_measure_and_significance
                                self array xyz data_type)))
    = (2 * (dim_x xyz * dim_y xyz))%nat.
Proof.
  intros self array xyz data_type r H.
  rewrite calculate_result in *.
  destruct (snd (resolve_regime self) && _); [discriminate H |].
  rewrite invocations_evaluate, invocations_main_results.
  unfold evaluate in H. rewrite outcome_bind in H.
  destruct (outcome (main_results _ _ array xyz data_type)) as [results | e] eqn:E;
    [| discriminate H].
  apply main_results_outcome in E.
  destruct E as (pre & indep_set & zt & Hpre & Hset & Hmain).
  rewrite Hpre, Hset, length_app.
  rewrite (pre_step_count _ _ _ _ _ _ Hpre), (main_step_count _ _ _ _ _ _ _ Hmain).
  lia.
Qed.

(** [number_of_engine_calls] applied to a concrete evaluation. *)
Lemma number_of_engine_calls_witness :
  length (invocations (snd (calculate_dep_measure_and_significance
                              p_value_test sample_array xyz_two_two None))) = 8%nat.
Proof.
  exact (number_of_engine_calls p_value_test sample_array xyz_two_two None
           (7, Some 1) eq_refl).
Defined.

(** ** Evaluations that raise *)












(** ** Repeated evaluation *)

Lemma engine_eta (e : CondIndTest) : mk_engine (ci_significance e) (run_test_raw e) = e.
Proof. destruct e. reflexivity. Qed.

Lemma resolve_regime_cases (self : PairwiseMultCI) :
  resolve_regime self =
  if String.eqb (significance self) "fixed_thres"
  then (set_significance "fixed_thres" (set_ci_significance "fixed_thres" self), true)
  else if String.eqb (ci_significance (cond_ind_test self)) "fixed_thres"
       then (set_significance "fixed_thres" self, true)
       else (self, false).
Proof.
  unfold resolve_regime.
  destruct (String.eqb (significance self) "fixed_thres"); [reflexivity |].
  destruct (String.eqb (ci_significance (cond_ind_test self)) "fixed_thres"); reflexivity.
Qed.

Lemma resolve_regime_idempotent (self : PairwiseMultCI) :
  resolve_regime (fst (resolve_regime self)) = resolve_regime self.
Proof.
  destruct self as [m [tag run] a f t ts sg d s].
  rewrite !resolve_regime_cases.
  unfold set_significance, set_ci_significance. simpl.
  destruct (String.eqb sg "fixed_thres") eqn:E1; simpl.
  - reflexivity.
  - destruct (String.eqb tag "fixed_thres") eqn:E2; simpl.
    + apply string_eqb_true in E2. subst tag. reflexivity.
    + rewrite E1, E2. reflexivity.
Qed.

Lemma resolve_regime_set_last d s (self : PairwiseMultCI) :
  resolve_regime (set_last d s self)
  = (set_last d s (fst (resolve_regime self)), snd (resolve_regime self)).
Proof.
  rewrite !resolve_regime_cases. unfold set_last at 1 2 3. cbn [significance cond_ind_test].
  destruct (String.eqb (significance self) "fixed_thres"); [reflexivity |].
  destruct (String.eqb (ci_significance (cond_ind_test self)) "fixed_thres"); reflexivity.
Qed.

Lemma evaluate_set_last d s self ftb array xyz dt :
  evaluate (set_last d s self) ftb array xyz dt = evaluate self ftb array xyz dt.
Proof. reflexivity. Qed.

Lemma calculate_pair self array xyz dt :
  calculate_dep_measure_and_significance self array xyz dt
  = (fst (resolve_regime self),
     if snd (resolve_regime self) &&
        match fixed_thres_pre self with None => true | Some _ => false end
     then raise ValueError_fixed_thres_pre
     else evaluate (fst (resolve_regime self)) (snd (resolve_regime self)) array xyz dt).
Proof.
  etransitivity; [apply surjective_pairing |].
  f_equal; [apply calculate_self | apply calculate_result].
Qed.

Lemma calculate_resolved self array xyz dt :
  calculate_dep_measure_and_significance (fst (resolve_regime self)) array xyz dt
  = calculate_dep_measure_and_significance self array xyz dt.
Proof.
  rewrite !calculate_pair, resolve_regime_idempotent.
  pose proof (resolve_regime_frame self) as F. cbv zeta in F.
  destruct F as (_ & _ & _ & _ & F & _). rewrite F. reflexivity.
Qed.

Lemma calculate_set_last d s self array xyz dt :
  calculate_dep_measure_and_significance (set_last d s self) array xyz dt
  = (set_last d s (fst (calculate_dep_measure_and_significance self array xyz dt)),
     snd (calculate_dep_measure_and_significance self array xyz dt)).
Proof.
  rewrite !calculate_pair, resolve_regime_set_last. reflexivity.
Qed.

(** X4.  A second call of [get_dependence_measure] with the same arguments,
    on the object as the first call left it, makes the same engine calls,
    returns the same value or raises the same exception, and leaves the
    object as it was: the tags rewritten and the values stored by the first
    call do not change what the next call computes. *)
Theorem repeated_call_reproduces_the_first :
  forall self array xyz data_type,
    let first := get_dependence_measure self array xyz data_type in
    get_dependence_measure (fst first) array xyz data_type = first.
Proof.
  intros self array xyz data_type first. subst first.
  rewrite (get_dependence_measure_unfold self). cbv zeta.
  destruct (outcome (snd (calculate_dep_measure_and_significance self array xyz data_type)))
    as [[d s] | e] eqn:E; cbn [fst].
  - rewrite get_dependence_measure_unfold. cbv zeta.
    rewrite calculate_set_last. cbn [fst snd].
    rewrite calculate_self, calculate_resolved, E, calculate_self. reflexivity.
  - rewrite get_dependence_measure_unfold. cbv zeta.
    rewrite calculate_self, calculate_resolved, E, calculate_self. reflexivity.
Qed.

(** ** The Bonferroni decision *)




(** ** The data passed to the engine *)

Lemma where_eq_Z_In (k : Z) (i : nat) (v : list Z) :
  In i (where_eq Z.eqb k v) <-> nth_error v i = Some k.
Proof.
  unfold where_eq. rewrite in_map_iff. split.
  - intros ([i' x] & E & H). simpl in E. subst i'.
    apply filter_In in H. destruct H as [H1 H2]. simpl in H2.
    apply Z.eqb_eq in H2. subst x. apply combine_seq0_nth_error. exact H1.
  - intros H. exists (i, k). split; [reflexivity |].
    apply filter_In. split; [apply combine_seq0_nth_error; exact H |].
    simpl. apply Z.eqb_refl.
Qed.

Lemma chunks_column {A} (l : list A) :
  chunks (length l) 1 l = map (fun v => [v]) l.
Proof.
  unfold chunks. induction l as [| a l IH]; [reflexivity |].
  cbn [length seq map]. f_equal.
  rewrite <- seq_shift, map_map. rewrite <- IH. apply map_ext.
  intros i. rewrite !Nat.mul_1_r. reflexivity.
Qed.

Lemma take_rows_nth {A} (m : matrix A) (idx : list nat) (j : nat) :
  (j < length idx)%nat ->
  nth j (take_rows m idx) [] = nth (nth j idx 0%nat) m [].
Proof.
  intros Hj. unfold take_rows.
  rewrite (nth_indep _ [] (nth 0%nat m [])) by (rewrite length_map; exact Hj).
  apply (map_nth (fun i => nth i m [])).
Qed.

Lemma slice_cols_nth {A} (lo hi : Z) (m : matrix A) (i : nat) :
  (i < length m)%nat ->
  nth i (slice_cols lo hi m) [] = py_slice lo hi (nth i m []).
Proof.
  intros Hi. unfold slice_cols.
  rewrite (nth_indep _ [] (py_slice lo hi [])) by (rewrite length_map; exact Hi).
  apply (map_nth (py_slice lo hi)).
Qed.

Lemma role_index_valid (k : Z) (xyz : list Z) (j : nat) :
  (j < length (where_eq Z.eqb k xyz))%nat ->
  nth_error xyz (nth j (where_eq Z.eqb k xyz) 0%nat) = Some k.
Proof.
  intros Hj. apply where_eq_Z_In. apply nth_In. exact Hj.
Qed.

Section Columns.

Variable self : PairwiseMultCI.
Variable array : matrix Q.
Variable xyz : list Z.
Hypothesis Hlen : length xyz = length array.
Hypothesis Hrows : Forall (fun row => length row = shape1 array) array.
Hypothesis Hsplit :
  (0 <= size_first_block self array <= Z.of_nat (T array))%Z.

Lemma block_s1_row (k : Z) (j : nat) :
  (j < length (where_eq Z.eqb k xyz))%nat ->
  nth j (take_rows (array_s1 self array) (where_eq Z.eqb k xyz)) []
  = firstn (pre_rows self array) (nth (nth j (where_eq Z.eqb k xyz) 0%nat) array []).
Proof.
  intros Hj. rewrite take_rows_nth by exact Hj.
  assert (Hi : (nth j (where_eq Z.eqb k xyz) 0 < length array)%nat).
  { rewrite <- Hlen. apply (where_eq_bound Z.eqb k). apply nth_In. exact Hj. }
  unfold array_s1. rewrite slice_cols_nth by exact Hi.
  apply py_slice_head.
  rewrite (nth_uniform _ _ _ Hrows Hi). exact Hsplit.
Qed.

Lemma block_s2_row (k : Z) (j : nat) :
  (j < length (where_eq Z.eqb k xyz))%nat ->
  nth j (take_rows (array_s2 self array) (where_eq Z.eqb k xyz)) []
  = skipn (pre_rows self array) (nth (nth j (where_eq Z.eqb k xyz) 0%nat) array []).
Proof.
  intros Hj. rewrite take_rows_nth by exact Hj.
  assert (Hi : (nth j (where_eq Z.eqb k xyz) 0 < length array)%nat).
  { rewrite <- Hlen. apply (where_eq_bound Z.eqb k). apply nth_In. exact Hj. }
  unfold array_s2. rewrite slice_cols_nth by exact Hi.
  unfold T. rewrite <- (nth_uniform _ _ _ Hrows Hi).
  apply py_slice_tail.
  rewrite (nth_uniform _ _ _ Hrows Hi). exact Hsplit.
Qed.

Lemma column_of_block (r : Z) (n j : nat) (block : matrix Q) (x : matrix Q) :
  (0 <= r)%Z -> n = Z.to_nat r ->
  Forall (fun row => length row = n) block -> (j < length block)%nat ->
  reshape r 1 (nth j block []) = Ok x ->
  x = map (fun v => [v]) (nth j block []).
Proof.
  intros Hr Hn Hb Hj H.
  rewrite (column_reshape_Ok array xyz Hlen r n j block Hr Hn Hb Hj) in H. inversion H.
  rewrite <- (nth_uniform _ _ _ Hb Hj). apply chunks_column.
Qed.

Lemma pre_args_columns ftb dt j jj a :
  (j < dim_x xyz)%nat -> (jj < dim_y xyz)%nat ->
  pre_args self ftb array xyz dt j jj = Ok a ->
  arg_x a = map (fun v => [v])
                (firstn (pre_rows self array) (nth (nth j (x_indices xyz) 0%nat) array [])) /\
  arg_y a = map (fun v => [v])
                (firstn (pre_rows self array) (nth (nth jj (y_indices xyz) 0%nat) array [])).
Proof.
  intros Hj Hjj Ha. apply pre_args_fields in Ha. destruct Ha as (Hx & Hy & _).
  split.
  - unfold x_indices. rewrite <- (block_s1_row 0%Z j Hj).
    apply (column_of_block (size_first_block self array) (pre_rows self array)
             j (x_s1 self array xyz));
      [lia | reflexivity | apply (block_s1_uniform self array xyz Hlen Hrows Hsplit)
       | unfold x_s1; rewrite take_rows_length; exact Hj | exact Hx].
  - unfold y_indices. rewrite <- (block_s1_row 1%Z jj Hjj).
    apply (column_of_block (size_first_block self array) (pre_rows self array)
             jj (y_s1 self array xyz));
      [lia | reflexivity | apply (block_s1_uniform self array xyz Hlen Hrows Hsplit)
       | unfold y_s1; rewrite take_rows_length; exact Hjj | exact Hy].
Qed.

Lemma main_args_columns ftb dt z zt j jj a :
  (j < dim_x xyz)%nat -> (jj < dim_y xyz)%nat ->
  main_args self ftb array xyz dt z zt j jj = Ok a ->
  arg_x a = map (fun v => [v])
                (skipn (pre_rows self array) (nth (nth j (x_indices xyz) 0%nat) array [])) /\
  arg_y a = map (fun v => [v])
                (skipn (pre_rows self array) (nth (nth jj (y_indices xyz) 0%nat) array [])).
Proof.
  intros Hj Hjj Ha. apply main_args_fields in Ha. destruct Ha as (Hx & Hy & _).
  split.
  - unfold x_indices. rewrite <- (block_s2_row 0%Z j Hj).
    apply (column_of_block (n_main self array) (main_rows self array)
             j (x_s2 self array xyz));
      [apply (n_main_nonneg self array xyz Hlen Hsplit) | reflexivity
       | apply (block_s2_uniform self array xyz Hlen Hrows Hsplit)
       | unfold x_s2; rewrite take_rows_length; exact Hj | exact Hx].
  - unfold y_indices. rewrite <- (block_s2_row 1%Z jj Hjj).
    apply (column_of_block (n_main self array) (main_rows self array)
             jj (y_s2 self array xyz));
      [apply (n_main_nonneg self array xyz Hlen Hsplit) | reflexivity
       | apply (block_s2_uniform self array xyz Hlen Hrows Hsplit)
       | unfold y_s2; rewrite take_rows_length; exact Hjj | exact Hy].
Qed.

End Columns.

(** X6.  On a well-formed input with [0 <= split <= T], the pair
    [(j, jj)] is tested on the samples of the [j]-th row tagged X and of
    the [jj]-th row tagged Y: the pre-step call receives as [x] and [y] the
    first [split] samples of these two rows, one sample for each row of a
    column, and the main-step call receives the remaining [T - split]
    samples.  No sample is used by both steps. *)
Theorem pair_is_tested_on_its_block_samples :
  forall self ftb array xyz data_type j jj,
    length xyz = length array ->
    Forall (fun row => length row = shape1 array) array ->
    (0 <= size_first_block self array <= Z.of_nat (T array))%Z ->
    (j < dim_x xyz)%nat -> (jj < dim_y xyz)%nat ->
    let x_row := nth (nth j (x_indices xyz) 0%nat) array [] in
    let y_row := nth (nth jj (y_indices xyz) 0%nat) array [] in
    let split := Z.to_nat (size_first_block self array) in
    nth_error xyz (nth j (x_indices xyz) 0%nat) = Some 0%Z /\
    nth_error xyz (nth jj (y_indices xyz) 0%nat) = Some 1%Z /\
    (exists a,
        pre_args self ftb array xyz data_type j jj = Ok a /\
        arg_x a = map (fun v => [v]) (firstn split x_row) /\
        arg_y a = map (fun v => [v]) (firstn split y_row)) /\
    (forall indep_set zt a,
        In a (invocations (main_pair self ftb array xyz data_type indep_set zt j jj)) ->
        arg_x a = map (fun v => [v]) (skipn split x_row) /\
        arg_y a = map (fun v => [v]) (skipn split y_row)).
Proof.
  intros self ftb array xyz data_type j jj Hlen Hrows Hsplit Hj Hjj x_row y_row split.
  split; [apply role_index_valid; exact Hj |].
  split; [apply role_index_valid; exact Hjj |]. split.
  - destruct (pre_args_Ok self array xyz Hlen Hrows Hsplit ftb data_type j jj Hj Hjj)
      as [a Ha].
    exists a. split; [exact Ha |].
    apply (pre_args_columns self array xyz Hlen Hrows Hsplit ftb data_type j jj a Hj Hjj Ha).
  - intros indep_set zt a Hin.
    destruct (main_pair_call self ftb array xyz data_type indep_set zt j jj) as [Hc _].
    destruct Hc as [Hc | (a0 & zt' & Hc & Ha & _)]; rewrite Hc in Hin; [contradiction |].
    destruct Hin as [<- | []].
    apply (main_args_columns self array xyz Hlen Hrows Hsplit ftb data_type _ zt' j jj a0
             Hj Hjj Ha).
Qed.

(** [pair_is_tested_on_its_block_samples] applied to a concrete
    evaluation. *)
Lemma pair_is_tested_on_its_block_samples_witness :
  exists a,
    pre_args p_value_test false [[1; 2; 3]; [4; 5; 6]; [7; 8; 9]] [2; 1; 0]%Z None 0 0 = Ok a /\
    arg_x a = [[7]] /\ arg_y a = [[4]].
Proof.
  destruct (pair_is_tested_on_its_block_samples
              p_value_test false [[1; 2; 3]; [4; 5; 6]; [7; 8; 9]] [2; 1; 0]%Z None 0 0)
    as (_ & _ & H & _).
  - reflexivity.
  - repeat constructor.
  - vm_compute. split; discriminate.
  - vm_compute. lia.
  - vm_compute. lia.
  - exact H.
Defined.

(** ** The conditioning block of the main step *)

Lemma indep_mask_true self ftb (pre : matrix Q) (mask : matrix bool) j jj :
  indep_mask self ftb pre = Ok mask ->
  cell mask j jj = Some true ->
  exists p, cell pre j jj = Some p /\ classified_independent self ftb p.
Proof.
  intros Hm Hc. unfold indep_mask in Hm. unfold classified_independent.
  destruct ftb; simpl in Hm;
    destruct (map_result_matrix_cell _ _ _ Hm j jj) as [H1 _];
    destruct (H1 _ Hc) as (p & Hp & Hf); exists p; (split; [exact Hp |]).
  - destruct (fixed_thres_pre self) as [t |]; [| discriminate Hf].
    exists t. split; [reflexivity |]. apply (abs_ge_bound_spec _ _ _ Hf). reflexivity.
  - destruct (alpha_pre self) as [a |]; [| discriminate Hf].
    exists a. split; [reflexivity |]. apply (gt_bound_spec _ _ _ Hf). reflexivity.
Qed.

Lemma no_element_nil {A} (l : list A) : (forall x, ~ In x l) -> l = [].
Proof.
  destruct l as [| a l]; [reflexivity |]. intros H. exfalso.
  apply (H a). left. reflexivity.
Qed.

Lemma main_pair_without_independence self ftb array xyz dt (mask : matrix bool) zt j jj :
  (forall j' jj', ~ in_indep_set (np_where mask) j' jj') ->
  Forall (fun a => reshape (n_main self array) (dim_z xyz) (concat (z_s2 self array xyz))
                   = Ok (arg_z a))
         (invocations (main_pair self ftb array xyz dt (np_where mask) zt j jj)) /\
  forall s' r,
    outcome (main_pair self ftb array xyz dt (np_where mask) zt j jj) = Ok (s', r) ->
    s' = zt.
Proof.
  intros Hnone.
  assert (HX : indicesX_of (np_where mask) j jj = []).
  { apply no_element_nil. intros v Hv. apply indicesX_of_spec in Hv.
    apply (Hnone v jj). tauto. }
  assert (HY : indicesY_of (np_where mask) j jj = []).
  { apply no_element_nil. intros v Hv. apply indicesY_of_spec in Hv.
    apply (Hnone j v). tauto. }
  rewrite (main_pair_both_empty _ _ _ _ _ _ _ _ _ HX HY).
  rewrite invocations_call, outcome_call.
  destruct (main_args _ _ _ _ _ _ _ _ _) as [a | e] eqn:Ea.
  - split.
    + constructor; [| constructor]. apply main_args_fields in Ea. tauto.
    + intros s' r H. destruct (run_test_raw _ _ a); [| discriminate].
      inversion H. reflexivity.
  - split; [constructor | discriminate].
Qed.

(** X11.  When the pre-step has returned and none of its values classifies
    a pair as independent (no p-value above [alpha_pre], or no absolute
    statistic reaching [fixed_thres_pre]), every call of the main step is
    made with the main-step block of Z alone as [z]: the main step is then
    the plain pairwise test on the second part of the sample. *)
Theorem no_independence_found_conditions_on_Z_alone :
  forall self ftb array xyz data_type pre indep_set,
    outcome (pre_step self ftb array xyz data_type) = Ok pre ->
    indep_set_of self ftb pre = Ok indep_set ->
    (forall j jj p, cell pre j jj = Some p -> ~ classified_independent self ftb p) ->
    indep_set = ([], []) /\
    Forall (fun a => reshape (n_main self array) (dim_z xyz) (concat (z_s2 self array xyz))
                     = Ok (arg_z a))
           (invocations (main_step self ftb array xyz data_type indep_set)).
Proof.
  intros self ftb array xyz data_type pre indep_set _ Hset Hnone.
  unfold indep_set_of in Hset.
  destruct (indep_mask self ftb pre) as [mask | e] eqn:Emask; [| discriminate].
  inversion Hset; subst indep_set; clear Hset.
  assert (Hno : forall j jj, ~ in_indep_set (np_where mask) j jj).
  { intros j jj Hin. apply in_indep_set_np_where in Hin.
    destruct (indep_mask_true _ _ _ _ _ _ Emask Hin) as (p & Hp & Hcl).
    exact (Hnone _ _ _ Hp Hcl). }
  split.
  - assert (Hw : where_pairs mask = []).
    { apply no_element_nil. intros [j jj] Hin. apply (Hno j jj).
      unfold in_indep_set, np_where. simpl. rewrite combine_map_fst_snd. exact Hin. }
    unfold np_where. rewrite Hw. reflexivity.
  - unfold main_step.
    apply (Forall_invocations_for_acc _ (fun _ => True)); [| exact I].
    intros s j _ _. split; [| intros; exact I].
    apply (Forall_invocations_for_acc _ (fun _ => True)); [| exact I].
    intros s0 jj _ _. split; [| intros; exact I].
    apply main_pair_without_independence. exact Hno.
Qed.

(** [no_independence_found_conditions_on_Z_alone] applied to a concrete
    evaluation. *)
Lemma no_independence_found_conditions_on_Z_alone_witness :
  Forall (fun a => Ok [[7]] = Ok (arg_z a))
         (invocations (main_step analytic_test false sample_array xyz_two_y None ([], []))).
Proof.
  destruct (no_independence_found_conditions_on_Z_alone
              analytic_test false sample_array xyz_two_y None
              [[1 # 8; 1 # 8]] ([], []) eq_refl eq_refl) as [_ H].
  - intros j jj p Hc (alpha & Ha & Hlt).
    inversion Ha; subst alpha.
    destruct j as [| j]; [| destruct j; discriminate Hc].
    destruct jj as [| [| jj]]; [| | destruct jj; discriminate Hc];
      inversion Hc; subst p; discriminate Hlt.
  - exact H.
Defined.

Lemma chunks_rows {A} (r c : nat) (flat : list A) :
  (r * c <= length flat)%nat -> Forall (fun row => length row = c) (chunks r c flat).
Proof.
  intros H. unfold chunks. apply Forall_forall. intros row Hrow.
  apply in_map_iff in Hrow. destruct Hrow as (i & <- & Hi). apply in_seq0 in Hi.
  rewrite length_firstn, length_skipn. nia.
Qed.

Lemma chunks_length {A} (r c : nat) (flat : list A) : length (chunks r c flat) = r.
Proof. unfold chunks. rewrite length_map, length_seq. reflexivity. Qed.

Lemma reshape_shape {A} (r : Z) (c : nat) (flat : list A) (m : matrix A) :
  reshape r c flat = Ok m ->
  Forall (fun row => length row = c) m /\
  ((0 <= r)%Z -> length m = Z.to_nat r).
Proof.
  unfold reshape.
  destruct (0 <=? r)%Z eqn:E0.
  - destruct (Z.to_nat r * c =? length flat)%nat eqn:E1; [| discriminate].
    apply Nat.eqb_eq in E1. intros H. inversion H. split.
    + apply chunks_rows. lia.
    + intros _. apply chunks_length.
  - apply Z.leb_gt in E0. destruct (r =? -1)%Z; [| discriminate].
    destruct (c =? 0)%nat eqn:Ec; [discriminate |]. apply Nat.eqb_neq in Ec.
    destruct (length flat mod c =? 0)%nat; [| discriminate].
    intros H. inversion H. split; [| lia].
    apply chunks_rows. rewrite Nat.mul_comm. apply Nat.Div0.mul_div_le.
Qed.

Lemma hstack_rows {A} (k l : nat) (a b : matrix A) :
  Forall (fun row => length row = k) a ->
  Forall (fun row => length row = l) b ->
  Forall (fun row => length row = (k + l)%nat) (hstack a b).
Proof.
  intros Ha. revert b. induction Ha as [| ra a Hra _ IH]; intros b Hb; simpl.
  - constructor.
  - destruct Hb as [| rb b Hrb Hb]; constructor.
    + rewrite length_app, Hra, Hrb. reflexivity.
    + apply IH. exact Hb.
Qed.

Lemma hstack_length {A} (a b : matrix A) :
  length a = length b -> length (hstack a b) = length a.
Proof.
  revert b. induction a as [| ra a IH]; intros [| rb b] H; simpl in *;
    try reflexivity; try discriminate.
  f_equal. apply IH. congruence.
Qed.

Lemma chosen_z_shape self array xyz indep_set j jj z :
  chosen_z self array xyz indep_set j jj = Ok z ->
  Forall (fun row =>
            length row
            = (dim_z xyz + Nat.max (length (indicesX_of indep_set j jj))
                                   (length (indicesY_of indep_set j jj)))%nat) z /\
  ((0 <= n_main self array)%Z -> length z = Z.to_nat (n_main self array)).
Proof.
  unfold chosen_z.
  set (lix := length (indicesX_of indep_set j jj)).
  set (liy := length (indicesY_of indep_set j jj)).
  assert (Haug : forall side indices,
             augmented_z self array xyz side indices = Ok z ->
             Forall (fun row => length row = (dim_z xyz + length indices)%nat) z /\
             ((0 <= n_main self array)%Z -> length z = Z.to_nat (n_main self array))).
  { intros side indices H. apply augmented_z_Ok in H.
    destruct H as (zb & aux & Hzb & Haux & ->).
    apply reshape_shape in Hzb, Haux.
    destruct Hzb as [Z1 Z2]. destruct Haux as [A1 A2]. split.
    - apply hstack_rows; assumption.
    - intros Hn. rewrite hstack_length; [apply Z2; exact Hn |].
      rewrite (Z2 Hn), (A2 Hn). reflexivity. }
  destruct (0 <? lix + liy)%nat eqn:E0.
  - destruct (liy <? lix)%nat eqn:E1.
    + apply Nat.ltb_lt in E1. intros H. apply Haug in H. fold lix in H.
      replace (Nat.max lix liy) with lix by lia. exact H.
    + apply Nat.ltb_ge in E1. intros H. apply Haug in H. fold liy in H.
      replace (Nat.max lix liy) with liy by lia. exact H.
  - apply Nat.ltb_ge in E0. intros H. apply reshape_shape in H.
    replace (Nat.max lix liy) with 0%nat by lia. rewrite Nat.add_0_r. exact H.
Qed.

(** X12.  The conditioning block of a main-step call for the pair
    [(j, jj)] has [dim_z + max(lix, liy)] columns, [lix] and [liy] being the
    sizes of the two index sets of the pair: the larger candidate set is
    the one appended to Z.  With [split <= T] the block has [T - split]
    rows, as [x] and [y] have. *)
Theorem conditioning_block_shape :
  forall self ftb array xyz data_type indep_set zt j jj a,
    In a (invocations (main_pair self ftb array xyz data_type indep_set zt j jj)) ->
    Forall (fun row =>
              length row
              = (dim_z xyz + Nat.max (length (indicesX_of indep_set j jj))
                                     (length (indicesY_of indep_set j jj)))%nat)
           (arg_z a) /\
    ((size_first_block self array <= Z.of_nat (T array))%Z ->
     length (arg_z a) = Z.to_nat (Z.of_nat (T array) - size_first_block self array) /\
     length (arg_x a) = length (arg_z a) /\
     length (arg_y a) = length (arg_z a)).
Proof.
  intros self ftb array xyz data_type indep_set zt j jj a Hin.
  destruct (main_pair_call self ftb array xyz data_type indep_set zt j jj) as [Hc _].
  destruct Hc as [Hc | (a0 & zt' & Hc & Ha & _)]; rewrite Hc in Hin; [contradiction |].
  destruct Hin as [<- | []].
  unfold main_call_of in Ha. apply main_args_fields in Ha.
  destruct Ha as (Hx & Hy & Hz & _).
  apply chosen_z_shape in Hz. destruct Hz as [Hcols Hrows].
  split; [exact Hcols |].
  intros Hs. assert (Hn : (0 <= n_main self array)%Z) by (unfold n_main; lia).
  apply reshape_shape in Hx, Hy.
  destruct Hx as [_ Hx]. destruct Hy as [_ Hy].
  rewrite (Hrows Hn), (Hx Hn), (Hy Hn). repeat split.
Qed.

(** [conditioning_block_shape] applied to a concrete evaluation. *)
Lemma conditioning_block_shape_witness :
  In (mk_args [[1]] [[5]] [[7; 2]] None None None None)
     (invocations (main_pair p_value_test false sample_array xyz_two_x None
                             (np_where [[true]; [true]]) None 0 0)) /\
  Forall (fun row => length row = 2%nat) [[7; 2]] /\
  length [[7; 2]] = 1%nat.
Proof.
  assert (Hin : In (mk_args [[1]] [[5]] [[7; 2]] None None None None)
                   (invocations (main_pair p_value_test false sample_array xyz_two_x None
                                           (np_where [[true]; [true]]) None 0 0))).
  { left. reflexivity. }
  split; [exact Hin |].
  destruct (conditioning_block_shape
              p_value_test false sample_array xyz_two_x None
              (np_where [[true]; [true]]) None 0 0 _ Hin) as [H1 H2].
  split; [exact H1 |]. apply H2. vm_compute. discriminate.
Defined.

(** ** The layout of the Z block *)

Lemma chunks_cell {A} (r c : nat) (flat : list A) (t k : nat) :
  (t < r)%nat -> (k < c)%nat ->
  cell (chunks r c flat) t k = nth_error flat (t * c + k).
Proof.
  intros Ht Hk. unfold cell, chunks.
  rewrite (nth_error_map_Some _ (seq 0 r) t t)
    by (apply nth_error_seq0; split; [exact Ht | reflexivity]).
  rewrite nth_error_firstn.
  destruct (k <? c)%nat eqn:E; [| apply Nat.ltb_ge in E; lia].
  apply nth_error_skipn.
Qed.

Lemma concat_uniform_cell {A} (n : nat) (m : matrix A) (i p : nat) :
  Forall (fun row => length row = n) m -> (p < n)%nat ->
  nth_error (concat m) (i * n + p) = cell m i p.
Proof.
  intros H Hp. revert i. induction H as [| row m Hrow _ IH]; intros i.
  - unfold cell. simpl. rewrite !nth_error_nil. reflexivity.
  - destruct i as [| i].
    + unfold cell. simpl. apply nth_error_app1. lia.
    + change (cell (row :: m) (S i) p) with (cell m i p). rewrite <- IH.
      simpl concat. rewrite nth_error_app2 by (simpl; lia).
      f_equal. simpl. lia.
Qed.

Lemma reshape_block_cell {A} (r : Z) (n : nat) (block m : matrix A) (t c : nat) :
  (0 <= r)%Z -> n = Z.to_nat r ->
  Forall (fun row => length row = n) block ->
  reshape r (length block) (concat block) = Ok m ->
  (t < n)%nat -> (c < length block)%nat ->
  cell m t c
  = cell block ((t * length block + c) / n) ((t * length block + c) mod n).
Proof.
  intros Hr Hn Hb Hm Ht Hc.
  unfold reshape in Hm. rewrite (proj2 (Z.leb_le 0 r) Hr) in Hm.
  destruct (_ =? _)%nat; [| discriminate]. inversion Hm; subst m. rewrite <- Hn.
  rewrite chunks_cell by assumption.
  pose proof (Nat.div_mod_eq (t * length block + c) n) as E.
  assert (Hlt : ((t * length block + c) mod n < n)%nat)
    by (apply Nat.mod_upper_bound; lia).
  rewrite <- (concat_uniform_cell n block _ _ Hb Hlt).
  f_equal. lia.
Qed.

Lemma cell_nth {A} (m : matrix A) (i p : nat) :
  (i < length m)%nat -> cell m i p = nth_error (nth i m []) p.
Proof.
  intros Hi. unfold cell. rewrite (nth_error_nth' m [] Hi). reflexivity.
Qed.

Lemma hstack_cell_left {A} (k : nat) (a b : matrix A) (t c : nat) :
  Forall (fun row => length row = k) a -> length a = length b -> (c < k)%nat ->
  cell (hstack a b) t c = cell a t c.
Proof.
  intros Ha. revert b t. induction Ha as [| ra a Hra _ IH]; intros b t Hl Hc.
  - reflexivity.
  - destruct b as [| rb b]; [discriminate Hl |].
    destruct t as [| t].
    + unfold cell. simpl. apply nth_error_app1. lia.
    + change (cell (hstack (ra :: a) (rb :: b)) (S t) c) with (cell (hstack a b) t c).
      change (cell (ra :: a) (S t) c) with (cell a t c).
      apply IH; [| exact Hc]. simpl in Hl. congruence.
Qed.

Lemma chosen_z_left_columns self array xyz indep_set j jj z :
  (0 <= n_main self array)%Z ->
  chosen_z self array xyz indep_set j jj = Ok z ->
  exists zb,
    reshape (n_main self array) (dim_z xyz) (concat (z_s2 self array xyz)) = Ok zb /\
    forall t c, (c < dim_z xyz)%nat -> cell z t c = cell zb t c.
Proof.
  intros Hn. unfold chosen_z.
  assert (Haug : forall side indices,
             augmented_z self array xyz side indices = Ok z ->
             exists zb,
               reshape (n_main self array) (dim_z xyz) (concat (z_s2 self array xyz)) = Ok zb /\
               forall t c, (c < dim_z xyz)%nat -> cell z t c = cell zb t c).
  { intros side indices H. apply augmented_z_Ok in H.
    destruct H as (zb & aux & Hzb & Haux & ->).
    exists zb. split; [exact Hzb |]. intros t c Hc.
    apply reshape_shape in Hzb, Haux.
    destruct Hzb as [Z1 Z2]. destruct Haux as [_ A2].
    apply (hstack_cell_left (dim_z xyz)); [exact Z1 | | exact Hc].
    rewrite (Z2 Hn), (A2 Hn). reflexivity. }
  destruct (0 <? _)%nat.
  - destruct (_ <? _)%nat; apply Haug.
  - intros H. exists z. split; [exact H | reflexivity].
Qed.

(** X13.  [z_s1.reshape(size_first_block, dim_z)] and
    [z_s2.reshape(T - size_first_block, dim_z)] fill the block of Z row by
    row from the Z rows of the array laid end to end, they do not transpose
    it: on a well-formed input with [0 <= split <= T], entry [(t, c)] of
    the first [dim_z] columns of [z] is entry number [t * dim_z + c] of
    that sequence, which is sample [(t * dim_z + c) mod n] of the Z row
    number [(t * dim_z + c) / n], [n] being the number of samples of the
    block.  With one Z row this is sample [t] of that row; with more, one
    row of [z] holds consecutive samples of one variable. *)
Theorem z_block_is_filled_row_by_row :
  forall self ftb array xyz data_type,
    length xyz = length array ->
    Forall (fun row => length row = shape1 array) array ->
    (0 <= size_first_block self array <= Z.of_nat (T array))%Z ->
    let split := Z.to_nat (size_first_block self array) in
    let rest := (T array - split)%nat in
    let z_sample := fun k p => nth_error (nth (nth k (z_indices xyz) 0%nat) array []) p in
    (forall j jj a t c,
        pre_args self ftb array xyz data_type j jj = Ok a ->
        (t < split)%nat -> (c < dim_z xyz)%nat ->
        cell (arg_z a) t c
        = z_sample ((t * dim_z xyz + c) / split)%nat ((t * dim_z xyz + c) mod split)%nat) /\
    (forall indep_set zt j jj a t c,
        In a (invocations (main_pair self ftb array xyz data_type indep_set zt j jj)) ->
        (t < rest)%nat -> (c < dim_z xyz)%nat ->
        cell (arg_z a) t c
        = z_sample ((t * dim_z xyz + c) / rest)%nat
                   (split + (t * dim_z xyz + c) mod rest)%nat).
Proof.
  intros self ftb array xyz data_type Hlen Hrows Hsplit split rest z_sample.
  assert (Hdz : length (take_rows (array_s1 self array) (where_eq Z.eqb 2%Z xyz))
                = dim_z xyz) by apply take_rows_length.
  assert (Hdz2 : length (take_rows (array_s2 self array) (where_eq Z.eqb 2%Z xyz))
                 = dim_z xyz) by apply take_rows_length.
  assert (Hrest : rest = main_rows self array).
  { unfold rest, split, main_rows, n_main. lia. }
  split.
  - intros j jj a t c Ha Ht Hc.
    apply pre_args_fields in Ha. destruct Ha as (_ & _ & Hz & _).
    unfold z_s1, z_indices in Hz. rewrite <- Hdz in Hz.
    rewrite (reshape_block_cell _ split _ _ t c (proj1 Hsplit) eq_refl
               (block_s1_uniform self array xyz Hlen Hrows Hsplit 2%Z) Hz Ht)
      by (rewrite Hdz; exact Hc).
    rewrite Hdz.
    assert (Hk : ((t * dim_z xyz + c) / split < dim_z xyz)%nat).
    { apply Nat.Div0.div_lt_upper_bound. nia. }
    assert (Hp : ((t * dim_z xyz + c) mod split < split)%nat)
      by (apply Nat.mod_upper_bound; lia).
    rewrite cell_nth by (rewrite Hdz; exact Hk).
    rewrite (block_s1_row self array xyz Hlen Hrows Hsplit 2%Z
               ((t * dim_z xyz + c) / split) Hk).
    rewrite nth_error_firstn.
    assert (E : ((t * dim_z xyz + c) mod split <? pre_rows self array)%nat = true)
      by (apply Nat.ltb_lt; exact Hp).
    rewrite E. reflexivity.
  - intros indep_set zt j jj a t c Hin Ht Hc.
    destruct (main_pair_call self ftb array xyz data_type indep_set zt j jj) as [Hcall _].
    destruct Hcall as [Hcall | (a0 & zt' & Hcall & Ha & _)];
      rewrite Hcall in Hin; [contradiction |].
    destruct Hin as [<- | []].
    unfold main_call_of in Ha. apply main_args_fields in Ha.
    destruct Ha as (_ & _ & Hz & _).
    assert (Hn : (0 <= n_main self array)%Z) by (unfold n_main; lia).
    destruct (chosen_z_left_columns _ _ _ _ _ _ _ Hn Hz) as (zb & Hzb & Hcell).
    rewrite (Hcell t c Hc).
    unfold z_s2, z_indices in Hzb. rewrite <- Hdz2 in Hzb.
    rewrite Hrest in *.
    rewrite (reshape_block_cell _ (main_rows self array) _ _ t c Hn eq_refl
               (block_s2_uniform self array xyz Hlen Hrows Hsplit 2%Z) Hzb Ht)
      by (rewrite Hdz2; exact Hc).
    rewrite Hdz2.
    assert (Hk : ((t * dim_z xyz + c) / main_rows self array < dim_z xyz)%nat).
    { apply Nat.Div0.div_lt_upper_bound. nia. }
    rewrite cell_nth by (rewrite Hdz2; exact Hk).
    rewrite (block_s2_row self array xyz Hlen Hrows Hsplit 2%Z
               ((t * dim_z xyz + c) / main_rows self array) Hk).
    rewrite nth_error_skipn. reflexivity.
Qed.

(** [z_block_is_filled_row_by_row] applied to a concrete evaluation: with
    two Z rows the first row of [z] holds the first two samples of the
    first Z row. *)
Lemma z_block_is_filled_row_by_row_witness :
  exists a,
    pre_args p_value_test false two_z_array xyz_two_z None 0 0 = Ok a /\
    arg_z a = [[10; 20]; [50; 60]] /\
    cell (arg_z a) 0 1 = nth_error (nth 2 two_z_array []) 1.
Proof.
  assert (Hlen : length xyz_two_z = length two_z_array) by reflexivity.
  assert (Hrows : Forall (fun row => length row = shape1 two_z_array) two_z_array)
    by (repeat constructor).
  assert (Hsplit : (0 <= size_first_block p_value_test two_z_array
                    <= Z.of_nat (T two_z_array))%Z)
    by (vm_compute; split; discriminate).
  destruct (z_block_is_filled_row_by_row p_value_test false two_z_array xyz_two_z None
              Hlen Hrows Hsplit) as [Hpre _].
  eexists. split; [reflexivity |]. split; [reflexivity |].
  apply (Hpre 0%nat 0%nat _ 0%nat 1%nat eq_refl); vm_compute; lia.
Defined.

(** ** Evaluations on well-formed inputs *)




(** ** The order of the engine invocations *)

Lemma for_each_nth_call {A B} (P : A -> nat -> run_test_raw_args -> Prop) (k : nat)
  (body : A -> M B) (l : list A) :
  (forall a b, outcome (body a) = Ok b ->
     length (invocations (body a)) = k /\
     forall i, (i < k)%nat ->
       exists c, nth_error (invocations (body a)) i = Some c /\ P a i c) ->
  forall bs, outcome (for_each body l) = Ok bs ->
  forall n a i, nth_error l n = Some a -> (i < k)%nat ->
    exists c, nth_error (invocations (for_each body l)) (n * k + i) = Some c /\ P a i c.
Proof.
  intros Hb. induction l as [| a0 l IH]; intros bs H n a i Hn Hi.
  - destruct n; discriminate Hn.
  - cbn [for_each] in H |- *. rewrite outcome_bind in H. rewrite invocations_bind.
    destruct (outcome (body a0)) as [b |] eqn:Eb; [| discriminate].
    rewrite outcome_bind in H. rewrite invocations_bind.
    destruct (outcome (for_each body l)) as [bs0 |] eqn:El; [| discriminate].
    destruct (Hb _ _ Eb) as [Hlen Hcalls].
    change (invocations (ret (b :: bs0))) with (@nil run_test_raw_args).
    rewrite app_nil_r.
    destruct n as [| n].
    + inversion Hn; subst a0. destruct (Hcalls i Hi) as (c & Hc & HP).
      exists c. split; [| exact HP].
      rewrite nth_error_app1 by (rewrite Hlen; lia). exact Hc.
    + cbn [nth_error] in Hn. destruct (IH _ eq_refl n a i Hn Hi) as (c & Hc & HP).
      exists c. split; [| exact HP].
      rewrite nth_error_app2 by (rewrite Hlen; lia).
      rewrite Hlen. replace (S n * k + i - k)%nat with (n * k + i)%nat by lia.
      exact Hc.
Qed.

Lemma for_acc_nth_call {St A B} (P : A -> nat -> run_test_raw_args -> Prop) (k : nat)
  (body : St -> A -> M (St * B)) (l : list A) :
  (forall s a r, outcome (body s a) = Ok r ->
     length (invocations (body s a)) = k /\
     forall i, (i < k)%nat ->
       exists c, nth_error (invocations (body s a)) i = Some c /\ P a i c) ->
  forall s r, outcome (for_acc body s l) = Ok r ->
  forall n a i, nth_error l n = Some a -> (i < k)%nat ->
    exists c, nth_error (invocations (for_acc body s l)) (n * k + i) = Some c /\ P a i c.
Proof.
  intros Hb. induction l as [| a0 l IH]; intros s r H n a i Hn Hi.
  - destruct n; discriminate Hn.
  - cbn [for_acc] in H |- *. rewrite outcome_bind in H. rewrite invocations_bind.
    destruct (outcome (body s a0)) as [[s1 b] |] eqn:Eb; [| discriminate].
    rewrite outcome_bind in H. rewrite invocations_bind.
    destruct (outcome (for_acc body s1 l)) as [[s2 bs0] |] eqn:El; [| discriminate].
    destruct (Hb _ _ _ Eb) as [Hlen Hcalls].
    change (invocations (ret (s2, b :: bs0))) with (@nil run_test_raw_args).
    rewrite app_nil_r.
    destruct n as [| n].
    + inversion Hn; subst a0. destruct (Hcalls i Hi) as (c & Hc & HP).
      exists c. split; [| exact HP].
      rewrite nth_error_app1 by (rewrite Hlen; lia). exact Hc.
    + cbn [nth_error] in Hn. destruct (IH _ _ El n a i Hn Hi) as (c & Hc & HP).
      exists c. split; [| exact HP].
      rewrite nth_error_app2 by (rewrite Hlen; lia).
      rewrite Hlen. replace (S n * k + i - k)%nat with (n * k + i)%nat by lia.
      exact Hc.
Qed.

Lemma nth_error_seq0_self (n i : nat) : (i < n)%nat -> nth_error (seq 0 n) i = Some i.
Proof. intros H. apply nth_error_seq0. split; [exact H | reflexivity]. Qed.

Lemma pre_step_nth_call self ftb array xyz dt pre j jj :
  outcome (pre_step self ftb array xyz dt) = Ok pre ->
  (j < dim_x xyz)%nat -> (jj < dim_y xyz)%nat ->
  exists a,
    nth_error (invocations (pre_step self ftb array xyz dt)) (j * dim_y xyz + jj) = Some a /\
    pre_args self ftb array xyz dt j jj = Ok a.
Proof.
  intros H Hj Hjj. unfold pre_step in *.
  apply (for_each_nth_call (fun j i c => pre_args self ftb array xyz dt j i = Ok c)
           (dim_y xyz) _ _) with (bs := pre);
    [| exact H | apply nth_error_seq0_self; exact Hj | exact Hjj].
  intros j0 row Hrow. split.
  - rewrite (invocations_for_each_count _ _ 1%nat) with (bs := row);
      [rewrite length_seq; lia | | exact Hrow].
    intros jj0 p Hp. rewrite invocations_pre_cell.
    apply pre_cell_outcome in Hp. destruct Hp as (a & r & -> & _). reflexivity.
  - intros i Hi.
    destruct (for_each_nth_call
                (fun jj0 _ c => pre_args self ftb array xyz dt j0 jj0 = Ok c) 1%nat
                (fun jj0 => pre_cell self ftb array xyz dt j0 jj0) (seq 0 (dim_y xyz)))
      with (bs := row) (n := i) (a := i) (i := 0%nat) as (c & Hc & HP).
    + intros jj0 p Hp. rewrite invocations_pre_cell.
      apply pre_cell_outcome in Hp. destruct Hp as (a & r & Ha & _). rewrite Ha.
      split; [reflexivity |]. intros i0 Hi0. exists a.
      destruct i0; [split; reflexivity | lia].
    + exact Hrow.
    + apply nth_error_seq0_self. exact Hi.
    + lia.
    + exists c. split; [| exact HP].
      replace (i * 1 + 0)%nat with i in Hc by lia. exact Hc.
Qed.

Lemma main_pair_single_call self ftb array xyz dt indep_set zt j jj r :
  outcome (main_pair self ftb array xyz dt indep_set zt j jj) = Ok r ->
  exists a zt',
    invocations (main_pair self ftb array xyz dt indep_set zt j jj) = [a] /\
    main_call_of self ftb array xyz dt indep_set zt' j jj = Ok a.
Proof.
  intros H.
  destruct (main_pair_invocations self ftb array xyz dt indep_set zt j jj) as [_ H1].
  destruct (H1 r H) as [a Ha].
  destruct (main_pair_call self ftb array xyz dt indep_set zt j jj) as [Hc _].
  destruct Hc as [Hc | (a0 & zt' & Hc & Hcall & _)]; rewrite Hc in Ha;
    [discriminate Ha |].
  exists a0, zt'. split; [exact Hc | exact Hcall].
Qed.

Lemma main_step_nth_call self ftb array xyz dt indep_set r j jj :
  outcome (main_step self ftb array xyz dt indep_set) = Ok r ->
  (j < dim_x xyz)%nat -> (jj < dim_y xyz)%nat ->
  exists a zt,
    nth_error (invocations (main_step self ftb array xyz dt indep_set))
              (j * dim_y xyz + jj) = Some a /\
    main_call_of self ftb array xyz dt indep_set zt j jj = Ok a.
Proof.
  intros H Hj Hjj. unfold main_step in *.
  destruct (for_acc_nth_call
              (fun j i c => exists zt,
                   main_call_of self ftb array xyz dt indep_set zt j i = Ok c)
              (dim_y xyz)
              (fun zt j => for_acc (fun zt jj => main_pair self ftb array xyz dt indep_set zt j jj)
                                   zt (seq 0 (dim_y xyz)))
              (seq 0 (dim_x xyz)))
    with (s := z_type_s2 self array xyz dt) (r := r) (n := j) (a := j) (i := jj)
    as (c & Hc & zt & HP).
  - intros s j0 row Hrow. split.
    + rewrite (invocations_for_acc_count _ _ 1%nat) with (r := row);
        [rewrite length_seq; lia | | exact Hrow].
      intros s0 jj0 r0 Hr.
      destruct (main_pair_single_call _ _ _ _ _ _ _ _ _ _ Hr) as (a & zt' & -> & _).
      reflexivity.
    + intros i Hi.
      destruct (for_acc_nth_call
                  (fun jj0 _ c => exists zt,
                       main_call_of self ftb array xyz dt indep_set zt j0 jj0 = Ok c)
                  1%nat
                  (fun zt jj0 => main_pair self ftb array xyz dt indep_set zt j0 jj0)
                  (seq 0 (dim_y xyz)))
        with (s := s) (r := row) (n := i) (a := i) (i := 0%nat) as (c & Hc & HP).
      * intros s0 jj0 r0 Hr.
        destruct (main_pair_single_call _ _ _ _ _ _ _ _ _ _ Hr) as (a & zt' & Ha & Hcall).
        rewrite Ha. split; [reflexivity |]. intros i0 Hi0. exists a.
        destruct i0; [split; [reflexivity | exists zt'; exact Hcall] | lia].
      * exact Hrow.
      * apply nth_error_seq0_self. exact Hi.
      * lia.
      * exists c. split; [| exact HP].
        replace (i * 1 + 0)%nat with i in Hc by lia. exact Hc.
  - exact H.
  - apply nth_error_seq0_self. exact Hj.
  - exact Hjj.
  - exists c, zt. split; [exact Hc | exact HP].
Qed.

(** X15.  The engine is invoked in a fixed order.  In an evaluation that
    returns, invocation number [j * dim_y + jj] is the pre-step call of the
    pair [(j, jj)], and invocation number [dim_x * dim_y + j * dim_y + jj]
    is the main-step call of that pair, built from the independence set of
    the pre-step: all pre-step calls come first, and each pass visits the
    pairs row by row. *)
Theorem engine_calls_in_row_major_order :
  forall self array xyz data_type r,
    let after := calculate_dep_measure_and_significance self array xyz data_type in
    let self' := fst after in
    let ftb := snd (resolve_regime self) in
    let calls := invocations (snd after) in
    outcome (snd after) = Ok r ->
    exists pre indep_set,
      outcome (pre_step self' ftb array xyz data_type) = Ok pre /\
      indep_set_of self' ftb pre = Ok indep_set /\
      forall j jj, (j < dim_x xyz)%nat -> (jj < dim_y xyz)%nat ->
        (exists a,
            nth_error calls (j * dim_y xyz + jj) = Some a /\
            pre_args self' ftb array xyz data_type j jj = Ok a) /\
        (exists a zt,
            nth_error calls (dim_x xyz * dim_y xyz + j * dim_y xyz + jj) = Some a /\
            main_call_of self' ftb array xyz data_type indep_set zt j jj = Ok a).
Proof.
  intros self array xyz data_type r after self' ftb calls H.
  unfold calls, self', after in *. clear calls self' after.
  rewrite calculate_self. rewrite calculate_result in *. fold ftb in H |- *.
  destruct (ftb && _); [discriminate H |].
  rewrite invocations_evaluate, invocations_main_results.
  unfold evaluate in H. rewrite outcome_bind in H.
  destruct (outcome (main_results _ _ array xyz data_type)) as [results | e] eqn:E;
    [| discriminate H].
  apply main_results_outcome in E.
  destruct E as (pre & indep_set & zt & Hpre & Hset & Hmain).
  exists pre, indep_set. split; [exact Hpre |]. split; [exact Hset |].
  rewrite Hpre, Hset. intros j jj Hj Hjj.
  pose proof (pre_step_count _ _ _ _ _ _ Hpre) as Hcount.
  split.
  - destruct (pre_step_nth_call _ _ _ _ _ _ j jj Hpre Hj Hjj) as (a & Ha & Hargs).
    exists a. split; [| exact Hargs].
    rewrite nth_error_app1 by (rewrite Hcount; nia). exact Ha.
  - destruct (main_step_nth_call _ _ _ _ _ _ _ j jj Hmain Hj Hjj) as (a & zt' & Ha & Hcall).
    exists a, zt'. split; [| exact Hcall].
    rewrite nth_error_app2 by (rewrite Hcount; lia).
    rewrite Hcount.
    replace (dim_x xyz * dim_y xyz + j * dim_y xyz + jj - dim_x xyz * dim_y xyz)%nat
      with (j * dim_y xyz + jj)%nat by lia.
    exact Ha.
Qed.

(** [engine_calls_in_row_major_order] applied to a concrete evaluation. *)
Lemma engine_calls_in_row_major_order_witness :
  exists a,
    nth_error (invocations (snd (calculate_dep_measure_and_significance
                                   p_value_test sample_array xyz_two_two None))) 2
    = Some a /\
    pre_args (fst (calculate_dep_measure_and_significance
                     p_value_test sample_array xyz_two_two None))
             false sample_array xyz_two_two None 1 0 = Ok a.
Proof.
  destruct (engine_calls_in_row_major_order p_value_test sample_array xyz_two_two None
              (7, Some 1) eq_refl) as (pre & indep_set & _ & _ & H).
  destruct (H 1%nat 0%nat) as [H1 _]; [vm_compute; lia | vm_compute; lia |].
  exact H1.
Defined.

(** ** The bound of the other regime *)

Lemma evaluate_ext (self self' : PairwiseMultCI) (ftb : bool) array xyz dt :
  cond_ind_test self' = cond_ind_test self ->
  pre_step_sample_fraction self' = pre_step_sample_fraction self ->
  (if ftb then fixed_thres_pre self' = fixed_thres_pre self
   else alpha_pre self' = alpha_pre self) ->
  evaluate self' ftb array xyz dt = evaluate self ftb array xyz dt.
Proof.
  destruct self as [m c a f t ts sg d sn], self' as [m' c' a' f' t' ts' sg' d' sn'].
  simpl. intros -> -> H. destruct ftb; rewrite H; reflexivity.
Qed.

Lemma resolve_regime_engine (self self' : PairwiseMultCI) :
  cond_ind_test self' = cond_ind_test self ->
  significance self' = significance self ->
  cond_ind_test (fst (resolve_regime self')) = cond_ind_test (fst (resolve_regime self)) /\
  snd (resolve_regime self') = snd (resolve_regime self).
Proof.
  intros Hc Hs. rewrite !resolve_regime_cases, Hc, Hs.
  destruct (String.eqb (significance self) "fixed_thres").
  - simpl. rewrite Hc. split; reflexivity.
  - destruct (String.eqb (ci_significance (cond_ind_test self)) "fixed_thres");
      simpl; split; try reflexivity; exact Hc.
Qed.

(** X16.  Only the bound of the active regime is read.  Two objects with
    the same engine, outer regime tag and sample fraction, and the same
    [fixed_thres_pre] in the fixed-threshold regime or the same [alpha_pre]
    in the p-value regime, make the same engine invocations and return the
    same pair or raise the same exception: in the fixed-threshold regime
    [alpha_pre] is never read (it may be [None]), in the p-value regime
    [fixed_thres_pre] is never read. *)
Theorem only_the_bound_of_the_active_regime_is_read :
  forall self self' array xyz data_type,
    cond_ind_test self' = cond_ind_test self ->
    significance self' = significance self ->
    pre_step_sample_fraction self' = pre_step_sample_fraction self ->
    (if fixed_thres_active_b self
     then fixed_thres_pre self' = fixed_thres_pre self
     else alpha_pre self' = alpha_pre self) ->
    snd (calculate_dep_measure_and_significance self' array xyz data_type)
    = snd (calculate_dep_measure_and_significance self array xyz data_type).
Proof.
  intros self self' array xyz data_type Hc Hs Hf Hb.
  rewrite !calculate_result.
  destruct (resolve_regime_engine self self' Hc Hs) as [He Hflag].
  rewrite Hflag. rewrite <- resolve_regime_flag in Hb.
  pose proof (resolve_regime_frame self) as F. cbv zeta in F.
  destruct F as (_ & _ & F3 & F4 & F5 & _).
  pose proof (resolve_regime_frame self') as F'. cbv zeta in F'.
  destruct F' as (_ & _ & F3' & F4' & F5' & _).
  assert (Hext : evaluate (fst (resolve_regime self')) (snd (resolve_regime self))
                          array xyz data_type
                 = evaluate (fst (resolve_regime self)) (snd (resolve_regime self))
                            array xyz data_type).
  { apply evaluate_ext.
    - exact He.
    - rewrite F4, F4'. exact Hf.
    - destruct (snd (resolve_regime self)).
      + rewrite F5, F5'. exact Hb.
      + rewrite F3, F3'. exact Hb. }
  rewrite Hext.
  destruct (snd (resolve_regime self)); [| reflexivity].
  rewrite Hb. reflexivity.
Qed.

(** [only_the_bound_of_the_active_regime_is_read] applied to two objects in
    the fixed-threshold regime that differ in [alpha_pre]. *)
Lemma only_the_bound_of_the_active_regime_is_read_witness :
  alpha_pre fixed_thres_other_alpha <> alpha_pre fixed_thres_test /\
  snd (calculate_dep_measure_and_significance
         fixed_thres_other_alpha sample_array xyz_two_y None)
  = snd (calculate_dep_measure_and_significance
           fixed_thres_test sample_array xyz_two_y None).
Proof.
  split; [discriminate |].
  apply only_the_bound_of_the_active_regime_is_read; reflexivity.
Defined.
